(** * SEC 10-K embedding notebook: text cleaning, wrapping, evaluation, pooling

    A shallow embedding of the functions of [01_SEC_10k_embedding.ipynb]:
    [parse_sections], [wrap], [Corpus], [eval_model], [mean_pooling] and
    [get_embeddings].  The external libraries (spaCy, gensim, the tokenizer
    and the sentence encoder) are Section variables; Python exceptions are
    [None] in the option monad; Python dicts are [gmap]s; float arithmetic
    is carried out exactly, over [Q]. *)

From Stdlib Require Import Ascii String QArith Qminmax.
From stdpp Require Import gmap strings list fin_maps sorting.

(** ** Strings *)

(** [sep.join(parts)] *)
Fixpoint join (sep : string) (parts : list string) : string :=
  match parts with
  | [] => ""
  | [s] => s
  | s :: rest => s +:+ sep +:+ join sep rest
  end.

(** ** spaCy tokens, as far as [parse_sections] reads them *)

Module Spacy.

Record Token := mkToken {
  text : string;
  is_stop : bool;
  is_digit : bool;
  is_alpha : bool;
  is_punct : bool;
  is_space : bool;
  lemma_ : string;
  pos_ : string
}.

(** A sentence ([Span]) is a sequence of tokens; [doc.sents] is a sequence
    of sentences.  The iterator never yields [None], so the test
    [sentence is not None] of the source always succeeds. *)
Abbreviation Span := (list Token).
Abbreviation Doc := (list (list Token)).

End Spacy.
Import Spacy.

(** [x in xs] on strings *)
Definition str_in (x : string) (xs : list string) : bool :=
  bool_decide (x ∈ xs).

(** [any([...])] *)
Definition any (bs : list bool) : bool := existsb id bs.

(** The condition of the innermost [if] of [parse_sections]. *)
Definition keep_token (token : Token) : bool :=
  negb (any [ is_stop token;
              is_digit token;
              negb (is_alpha token);
              is_punct token;
              is_space token;
              bool_decide (lemma_ token = "-PRON-");
              str_in (pos_ token) ["PUNCT"; "SYM"; "X"] ]).

(** The exclusion predicate in the words of the specification. *)
Definition passes_exclusion (token : Token) : Prop :=
  is_stop token = false ∧
  is_digit token = false ∧
  is_alpha token = true ∧
  is_punct token = false ∧
  is_space token = false ∧
  lemma_ token ≠ "-PRON-" ∧
  pos_ token ≠ "PUNCT" ∧ pos_ token ≠ "SYM" ∧ pos_ token ≠ "X".

(** The two nested loops over [doc.sents]: [clean_sentence] grows by
    [token.text] for each kept token.  [retained_tokens] is the same pair of
    loops collecting the tokens themselves. *)
Definition clean_sentence (doc : Doc) : list string :=
  foldl (λ acc sentence,
           foldl (λ acc token,
                    if keep_token token then acc ++ [text token] else acc)
                 acc sentence)
        [] doc.

Definition retained_tokens (doc : Doc) : list Token :=
  foldl (λ acc sentence,
           foldl (λ acc token,
                    if keep_token token then acc ++ [token] else acc)
                 acc sentence)
        [] doc.

(** [parsed_<section>], the f-string of the source. *)
Definition parsed_name (section : string) : string := "parsed_" +:+ section.

Section ParseSections.

(** [nlp = spacy.load('en_core_web_sm', disable=['ner'])], reduced to the
    sentences of the document it returns. *)
Variable nlp : string → Doc.

(** The body of [for text in examples[col]]. *)
Definition clean_text (text : string) : string :=
  let clean := clean_sentence (nlp text) in
  if (0 <? length clean)%nat then join " " clean else "".

(** The loop [for col in col_names]; [examples[col]] raises [KeyError] on
    a column the batch lacks. *)
Fixpoint parse_columns (examples : gmap string (list string))
    (col_names : list string) (sections : gmap string (list string))
    : option (gmap string (list string)) :=
  match col_names with
  | [] => Some sections
  | col :: rest =>
      texts ← examples !! col;
      parse_columns examples rest (<[col := clean_text <$> texts]> sections)
  end.

(** [parse_sections(examples, col_names)] on a batch in column form. *)
Definition parse_sections (examples : gmap string (list string))
    (col_names : list string) : option (gmap string (list string)) :=
  sections ← parse_columns examples col_names ∅;
  cik ← examples !! "cik";
  year ← examples !! "year";
  let res : gmap string (list string) := <["year" := year]> {["cik" := cik]} in
  Some (map_fold (λ section docs res, <[parsed_name section := docs]> res)
                 res sections).

End ParseSections.

(** *** [parse_sections] with an [nlp] that may raise

    [nlp(text)] raises [ValueError] on a text longer than [nlp.max_length],
    which the notebook sets to 10,000,000 characters.  Here [nlp] returns
    [None] when it raises, and [parse_sections_raising] is [parse_sections]
    with this [nlp]: it raises when [nlp] does. *)

Section ParseSectionsRaising.

Variable nlp : string → option Doc.

(** The body of [for text in examples[col]]. *)
Definition clean_text_raising (text : string) : option string :=
  doc ← nlp text;
  let clean := clean_sentence doc in
  Some (if (0 <? length clean)%nat then join " " clean else "").

(** The loop [for col in col_names]. *)
Fixpoint parse_columns_raising (examples : gmap string (list string))
    (col_names : list string) (sections : gmap string (list string))
    : option (gmap string (list string)) :=
  match col_names with
  | [] => Some sections
  | col :: rest =>
      texts ← examples !! col;
      docs ← mapM clean_text_raising texts;
      parse_columns_raising examples rest (<[col := docs]> sections)
  end.

(** [parse_sections(examples, col_names)] *)
Definition parse_sections_raising (examples : gmap string (list string))
    (col_names : list string) : option (gmap string (list string)) :=
  sections ← parse_columns_raising examples col_names ∅;
  cik ← examples !! "cik";
  year ← examples !! "year";
  let res : gmap string (list string) := <["year" := year]> {["cik" := cik]} in
  Some (map_fold (λ section docs res, <[parsed_name section := docs]> res)
                 res sections).

End ParseSectionsRaising.

(** ** The table operations of the [datasets] library that the notebook calls

    A [Dataset] is a table: its column names and its rows, each row a dict
    from column name to cell.  Every cell of the EDGAR corpus ([cik], [year]
    and the section texts) is a string.  An operation that raises in the
    library returns [None]. *)

Module Datasets.

Record Dataset := mkDataset {
  column_names : list string;
  rows : list (gmap string string)
}.

(** Every row of a table has exactly the table's columns. *)
Definition wf (d : Dataset) : Prop :=
  Forall (λ row : gmap string string,
            dom row = list_to_set (C := gset string) (column_names d))
         (rows d).

Definition num_rows (d : Dataset) : nat := length (rows d).

(** What the operations below do to one row. *)
Definition select_row (cols : list string) (row : gmap string string)
    : gmap string string :=
  filter (λ kv, kv.1 ∈ cols) row.

Definition add_cell (name cell : string) (row : gmap string string)
    : gmap string string :=
  <[name := cell]> row.

Definition rename_cell (original new : string) (row : gmap string string)
    : gmap string string :=
  match row !! original with
  | Some cell => <[new := cell]> (delete original row)
  | None => row
  end.

(** [d.select_columns(cols)]: a column the table lacks is refused; so is,
    here, a column named twice, which the notebook never does. *)
Definition select_columns (cols : list string) (d : Dataset) : option Dataset :=
  if bool_decide (NoDup cols ∧ Forall (λ c, c ∈ column_names d) cols)
  then Some {| column_names := cols;
               rows := select_row cols <$> rows d |}
  else None.

(** [d.filter(f)] *)
Definition filter_rows (f : gmap string string → bool) (d : Dataset) : Dataset :=
  {| column_names := column_names d;
     rows := filter (λ row, f row = true) (rows d) |}.

(** [d.add_column(name=name, column=column)]: the name must be new and
    the column as long as the table. *)
Definition add_column (name : string) (column : list string) (d : Dataset)
    : option Dataset :=
  if bool_decide ((name ∉ column_names d) ∧ length column = num_rows d)
  then Some {| column_names := column_names d ++ [name];
               rows := zip_with (λ row cell, add_cell name cell row)
                                (rows d) column |}
  else None.

(** [d.rename_column(original, new)]: [original] must be a column, [new]
    must not be one, and [new] must not be the empty string. *)
Definition rename_column (original new : string) (d : Dataset) : option Dataset :=
  if bool_decide (original ∈ column_names d ∧ (new ∉ column_names d) ∧ new ≠ "")
  then Some {| column_names :=
                 (λ c, if bool_decide (c = original) then new else c)
                   <$> column_names d;
               rows := rename_cell original new <$> rows d |}
  else None.

(** The columns of a list of tables, each once, in the order in which they
    first appear. *)
Definition union_columns (dsets : list Dataset) : list string :=
  foldl (λ acc c, if decide (c ∈ acc) then acc else acc ++ [c]) []
        (concat (column_names <$> dsets)).

(** [datasets.concatenate_datasets(dsets, axis=0)]: an empty list raises.
    The tables need not have the same columns: the result has the columns of
    all of them, and a row keeps its cells, so that its cell in a column that
    its own table lacks is [None], here a key that the row does not have.
    Every column here holds strings, so the features of the tables can
    always be aligned. *)
Definition concatenate_datasets (dsets : list Dataset) : option Dataset :=
  match dsets with
  | [] => None
  | _ => Some {| column_names := union_columns dsets;
                 rows := concat (rows <$> dsets) |}
  end.

(** [d[col]]: the cells of one column, top to bottom. *)
Definition column (col : string) (d : Dataset) : option (list string) :=
  if bool_decide (col ∈ column_names d)
  then mapM (λ row : gmap string string, row !! col) (rows d)
  else None.

(** A batch as [Dataset.map(..., batched=True)] hands it to the mapped
    function: a dict from column name to the list of the column's cells. *)
Definition batch (d : Dataset) : gmap string (list string) :=
  list_to_map (omap (λ col, (col,.) <$> column col d) (column_names d)).

End Datasets.
Import Datasets.

(** ** [wrap] *)

(** [s.split(sep)] for a one-character separator: the pieces between the
    separators, empty pieces included; never an empty list. *)
Fixpoint split (sep : Ascii.ascii) (s : string) : list string :=
  match s with
  | EmptyString => [""]
  | String c rest =>
      if bool_decide (c = sep) then "" :: split sep rest
      else match split sep rest with
           | piece :: pieces => String c piece :: pieces
           | [] => [String c ""]
           end
  end.



(** The body of the loop of [wrap], for one column. *)
Definition wrap_column (data : Dataset) (new_name col : string) : option Dataset :=
  temp ← select_columns ["cik"; "year"; col] data;
  let temp := filter_rows (λ example, bool_decide (example !! col ≠ Some "")) temp in
  section ← last (split "_"%char col);
  temp ← add_column "section" (replicate (num_rows temp) section) temp;
  rename_column col new_name temp.

(** [wrap(data, col_names, new_name)] *)
Definition wrap (data : Dataset) (col_names : list string) (new_name : string)
    : option (list Dataset) :=
  mapM (wrap_column data new_name) col_names.

Definition SECTIONS_TO_PARSE : list string :=
  ["section_1"; "section_1A"; "section_7"; "section_7A"].

(** The key of a record: [(cik, year, section)]. *)
Definition key_of (row : gmap string string) : option (string * string * string) :=
  cik ← row !! "cik"; year ← row !! "year"; section ← row !! "section";
  Some (cik, year, section).

(** ** [Corpus] and [eval_model] *)

(** [doc2vec.TaggedDocument(words, tags)] *)
Record TaggedDocument := mkTaggedDocument {
  words : list string;
  tags : list nat
}.

(** [class Corpus]: [data] is the table, [df] the column [data[col_name]]. *)
Record Corpus := mkCorpus {
  data : Dataset;
  df : list string
}.

(** [Corpus.__init__] *)
Definition Corpus_init (data : Dataset) (col_name : string) : option Corpus :=
  df ← column col_name data;
  Some {| data := data; df := df |}.

(** [collections.Counter(xs)], turned into a dict. *)
Definition Counter (xs : list string) : gmap string nat :=
  foldl (λ (counts : gmap string nat) x,
           <[x := S (default 0%nat (counts !! x))]> counts) ∅ xs.

(** [d.data[:][col].iloc[i]] *)
Definition iloc (d : Dataset) (col : string) (i : nat) : option string :=
  cells ← column col d; cells !! i.

(** One row of [train.data[:][['cik', 'year', 'section']].loc[docids]]: the
    index of the frame is the row position, and a label outside it raises
    [KeyError]. *)
Definition loc_key (d : Dataset) (docid : nat) : option (string * string * string) :=
  cik ← iloc d "cik" docid;
  year ← iloc d "year" docid;
  section ← iloc d "section" docid;
  Some (cik, year, section).

Section EvalModel.

(** The gensim side: [simple_preprocess], the type of document vectors and
    of similarities, and what [eval_model] calls on the model. *)
Context {Vector Sim : Type}.
Variable simple_preprocess : string → list string.

Record Doc2Vec := mkDoc2Vec {
  infer_vector : list string → Vector;
  (** [model.dv.most_similar(positive=[v], topn=topn)] *)
  most_similar : Vector → nat → list (nat * Sim)
}.

(** [Corpus.__iter__]: the tag of a document is its row position. *)
Definition Corpus_iter (c : Corpus) : list TaggedDocument :=
  imap (λ i line, mkTaggedDocument (simple_preprocess line) [i]) (df c).

(** [Corpus.__len__] *)
Definition Corpus_len (c : Corpus) : nat := length (df c).

(** The two dicts that the first loop of [eval_model] fills. *)
Record EvalState := mkEvalState {
  top : gmap (string * string * string) (string * string * string * Sim);
  sim_docs : gmap string (gmap string nat)
}.

(** What one iteration of [for doc_id in range(len(test))] computes before
    it writes to the dicts: the key [(cik, year, section)] of the document,
    the tuple stored in [top] (the first row of [top_n], then [sims[0][1]])
    and the counter stored in [sim_docs]. *)
Record DocEntry := mkDocEntry {
  entry_key : string * string * string;
  entry_value : string * string * string * Sim;
  entry_counter : gmap string nat
}.

Definition doc_entry (test train : Corpus) (model : Doc2Vec) (topn : nat)
    (doc_id : nat) : option DocEntry :=
  doc ← Corpus_iter test !! doc_id;
  let inferred_vector := infer_vector model (words doc) in
  let sims := most_similar model inferred_vector topn in
  let docids := sims.*1 in
  cik ← iloc (data test) "cik" doc_id;
  year ← iloc (data test) "year" doc_id;
  section ← iloc (data test) "section" doc_id;
  top_n ← mapM (loc_key (data train)) docids;
  first ← top_n !! 0%nat;
  sim ← sims !! 0%nat;
  Some {| entry_key := (cik, year, section);
          entry_value := (first, sim.2);
          entry_counter := Counter ((λ k, k.1.1) <$> top_n) |}.

(** The same computation read off one row of the test table: the text of
    the row in the corpus column, and its [cik], [year] and [section]. *)
Definition row_entry (train : Corpus) (model : Doc2Vec) (topn : nat)
    (col_name : string) (row : gmap string string) : option DocEntry :=
  line ← row !! col_name;
  let sims := most_similar model (infer_vector model (simple_preprocess line)) topn in
  cik ← row !! "cik";
  year ← row !! "year";
  section ← row !! "section";
  top_n ← mapM (loc_key (data train)) (sims.*1);
  first ← top_n !! 0%nat;
  sim ← sims !! 0%nat;
  Some {| entry_key := (cik, year, section);
          entry_value := (first, sim.2);
          entry_counter := Counter ((λ k, k.1.1) <$> top_n) |}.

(** [top[(cik, year, section)] = ...] and [sim_docs[cik] = ...] *)
Definition add_entry (st : EvalState) (e : DocEntry) : EvalState :=
  {| top := <[entry_key e := entry_value e]> (top st);
     sim_docs := <[(entry_key e).1.1 := entry_counter e]> (sim_docs st) |}.

(** The body of [for doc_id in range(len(test))]. *)
Definition eval_doc (test train : Corpus) (model : Doc2Vec) (topn : nat)
    (st : EvalState) (doc_id : nat) : option EvalState :=
  e ← doc_entry test train model topn doc_id;
  Some (add_entry st e).

Fixpoint eval_loop (test train : Corpus) (model : Doc2Vec) (topn : nat)
    (doc_ids : list nat) (st : EvalState) : option EvalState :=
  match doc_ids with
  | [] => Some st
  | doc_id :: rest =>
      st' ← eval_doc test train model topn st doc_id;
      eval_loop test train model topn rest st'
  end.

(** The first counting loop: [top[k][0] == c and top[k][1] == y and
    top[k][2] == s]. *)
Definition count_same_document
    (top : gmap (string * string * string) (string * string * string * Sim)) : nat :=
  map_fold (λ k v accuracy,
              let '(c, y, s) := k in
              let '(c', y', s', _) := v in
              if bool_decide (c' = c) && bool_decide (y' = y) && bool_decide (s' = s)
              then S accuracy else accuracy) 0%nat top.

(** The second counting loop: [top[k][0] == c]. *)
Definition count_same_company
    (top : gmap (string * string * string) (string * string * string * Sim)) : nat :=
  map_fold (λ k v accuracy,
              let '(c, y, s) := k in
              let '(c', y', s', _) := v in
              if bool_decide (c' = c) then S accuracy else accuracy) 0%nat top.

(** [accuracy / len(top) * 100]; division by zero raises. *)
Definition percentage (accuracy len_top : nat) : option Q :=
  if bool_decide (len_top = 0%nat) then None
  else Some (inject_Z (Z.of_nat accuracy) / inject_Z (Z.of_nat len_top) * 100)%Q.

(** What a call of [eval_model] produces: the two printed percentages and
    the returned pair [(top, sim_docs)]. *)
Record EvalResult := mkEvalResult {
  printed_same_document : Q;
  printed_same_company : Q;
  returned : EvalState
}.

(** The words of the specification for the same-document accuracy: the
    documents whose first retrieved document has their own key, and those
    whose first retrieved document is of their own company, counted over
    the evaluated documents. *)
Definition hits_same_document (entries : list DocEntry) : nat :=
  length (filter (λ e, (entry_value e).1 = entry_key e) entries).

Definition hits_same_company (entries : list DocEntry) : nat :=
  length (filter (λ e, (entry_value e).1.1.1 = (entry_key e).1.1) entries).

(** [n / d] as a rational. *)
Definition ratio (n d : nat) : Q :=
  (inject_Z (Z.of_nat n) / inject_Z (Z.of_nat d))%Q.

(** [eval_model(test, train, model, topn=10)] *)
Definition eval_model (test train : Corpus) (model : Doc2Vec) (topn : nat)
    : option EvalResult :=
  st ← eval_loop test train model topn (seq 0 (Corpus_len test))
         {| top := ∅; sim_docs := ∅ |};
  p1 ← percentage (count_same_document (top st)) (size (top st));
  p2 ← percentage (count_same_company (top st)) (size (top st));
  Some {| printed_same_document := p1;
          printed_same_company := p2;
          returned := st |}.

End EvalModel.

Arguments Doc2Vec : clear implicits.
Arguments EvalState : clear implicits.
Arguments EvalResult : clear implicits.
Arguments DocEntry : clear implicits.

(** ** [mean_pooling] and [get_embeddings]

    Tensors are nested lists: [token_embeddings] has the axes chunk, token,
    hidden unit; [attention_mask] has the axes chunk, token and holds
    integers; [sample_map] gives, for each chunk, the index of the document
    of the batch it was cut from.  [float32] values are rationals. *)

Definition BATCH_SIZE : nat := 16.

(** [np.where(sample_map == i)[0]]: the positions that hold [i]. *)
Definition np_where_eq (sample_map : list nat) (i : nat) : list nat :=
  omap (λ p : nat * nat, if bool_decide (p.2 = i) then Some p.1 else None)
       (imap pair sample_map).

(** The same search on a part of [sample_map] that starts at position [k]. *)
Definition positions_from (i k : nat) (part : list nat) : list nat :=
  omap (λ p : nat * nat, if bool_decide (p.2 = i) then Some p.1 else None)
       (imap (λ j x, ((k + j)%nat, x)) part).

(** [t[s_idx:e_idx]] along the first axis. *)
Definition slice {A} (s_idx e_idx : nat) (t : list A) : list A :=
  drop s_idx (take e_idx t).

(** [tf.expand_dims(tf.cast(attention_mask, tf.float32), -1)] *)
Definition expand_mask (attention_mask : list (list Z)) : list (list (list Q)) :=
  (λ chunk : list Z, (λ m, [inject_Z m]) <$> chunk) <$> attention_mask.

(** Multiplication of two token rows, the second broadcast along the hidden
    axis when it has one entry. *)
Definition mul_row (v m : list Q) : list Q :=
  match m with
  | [x] => (λ y, y * x)%Q <$> v
  | _ => zip_with Qmult v m
  end.

(** [a * b] for tensors with the axes chunk, token, hidden unit. *)
Definition tensor_mul (a b : list (list (list Q))) : list (list (list Q)) :=
  zip_with (zip_with mul_row) a b.

(** Sum of two vectors of one length; [[]] stands for the sum of no vector. *)
Fixpoint vadd (u v : list Q) : list Q :=
  match u, v with
  | [], _ => v
  | _, [] => u
  | x :: u', y :: v' => (x + y)%Q :: vadd u' v'
  end.

(** [tf.reduce_sum(t, axis=[0, 1])]: one sum per hidden unit. *)
Definition reduce_sum_01 (t : list (list (list Q))) : list Q :=
  foldl vadd [] (concat t).

(** [tf.reduce_sum(t)]: the sum of all entries. *)
Definition reduce_sum (t : list (list (list Q))) : Q :=
  foldl Qplus 0%Q (concat (concat t)).

(** [tf.clip_by_value(t, clip_value_min, clip_value_max)], that is
    [min(max(t, lo), hi)]; [None] is [np.inf]. *)
Definition clip_by_value (t : Q) (clip_value_min : Q) (clip_value_max : option Q) : Q :=
  let lower := Qmax t clip_value_min in
  match clip_value_max with
  | Some hi => Qmin lower hi
  | None => lower
  end.

(** [1e-7] *)
Definition clip_min : Q := 1 # 10000000.

(** The bounds of the slice taken for document [i]: the first position of
    [np.where(sample_map == i)[0]] and one past its last position; an empty
    array raises [IndexError]. *)
Definition slice_bounds (sample_map : list nat) (i : nat) : option (nat * nat) :=
  s_idx ← np_where_eq sample_map i !! 0%nat;
  e ← last (np_where_eq sample_map i);
  Some (s_idx, (e + 1)%nat).

(** [sum_mask] of one iteration. *)
Definition sum_mask_of (input_mask_expanded : list (list (list Q)))
    (s_idx e_idx : nat) : Q :=
  clip_by_value (reduce_sum (slice s_idx e_idx input_mask_expanded)) clip_min None.

(** [sum_embeddings] of one iteration. *)
Definition sum_embeddings_of (token_embeddings input_mask_expanded : list (list (list Q)))
    (s_idx e_idx : nat) : list Q :=
  reduce_sum_01 (tensor_mul (slice s_idx e_idx token_embeddings)
                            (slice s_idx e_idx input_mask_expanded)).

(** The body of [for i in range(BATCH_SIZE)]. *)
Definition pool_document (token_embeddings input_mask_expanded : list (list (list Q)))
    (sample_map : list nat) (i : nat) : option (list Q) :=
  '(s_idx, e_idx) ← slice_bounds sample_map i;
  let sum_embeddings := sum_embeddings_of token_embeddings input_mask_expanded s_idx e_idx in
  let sum_mask := sum_mask_of input_mask_expanded s_idx e_idx in
  Some ((λ x, x / sum_mask)%Q <$> sum_embeddings).

(** The output of the encoder; [model_output[0]] is [last_hidden_state]. *)
Record ModelOutput := mkModelOutput {
  last_hidden_state : list (list (list Q));
  pooler_output : list (list Q)
}.

(** [mean_pooling(model_output, attention_mask, sample_map)] *)
Definition mean_pooling (model_output : ModelOutput) (attention_mask : list (list Z))
    (sample_map : list nat) : option (list (list Q)) :=
  let token_embeddings := last_hidden_state model_output in
  let input_mask_expanded := expand_mask attention_mask in
  mapM (pool_document token_embeddings input_mask_expanded sample_map)
       (seq 0 BATCH_SIZE).

(** What the tokenizer returns, as far as the notebook reads it. *)
Record Encoding := mkEncoding {
  input_ids : list (list Z);
  attention_mask : list (list Z);
  overflow_to_sample_mapping : list nat
}.

(** The dict that [get_embeddings] returns. *)
Record Embedded := mkEmbedded {
  emb_cik : list string;
  emb_year : list string;
  emb_section : list string;
  emb_name : string;
  emb_vectors : list (list Q)
}.

(** The words of the specification for the pooled vector of document [i].
    [document_chunks] selects, along the first axis, the chunks that
    [sample_map] assigns to [i]; [document_tokens] lists the tokens of these
    chunks, each with its mask entry and its embedding.  [weighted_average]
    is, for one hidden unit, the sum over these tokens of the embedding times
    the mask entry, divided by the sum of the mask entries.  These are plain
    sums over the tokens; they use none of the tensor operations of
    [mean_pooling]. *)
Definition document_chunks {A} (sample_map : list nat) (i : nat) (t : list A) : list A :=
  omap (λ p : nat * A, if bool_decide (p.1 = i) then Some p.2 else None)
       (zip sample_map t).

Definition document_tokens (token_embeddings : list (list (list Q)))
    (attention_mask : list (list Z)) (sample_map : list nat) (i : nat)
    : list (Z * list Q) :=
  concat (zip_with zip (document_chunks sample_map i attention_mask)
                       (document_chunks sample_map i token_embeddings)).

Definition Qsum (xs : list Q) : Q := foldr Qplus 0%Q xs.

Definition mask_total (tokens : list (Z * list Q)) : Q :=
  Qsum ((λ token, inject_Z token.1) <$> tokens).

Definition weighted_sum (tokens : list (Z * list Q)) (j : nat) : Q :=
  Qsum ((λ token, inject_Z token.1 * default 0 (token.2 !! j))%Q <$> tokens).

Definition weighted_average (tokens : list (Z * list Q)) (j : nat) : Q :=
  (weighted_sum tokens j / mask_total tokens)%Q.

Section GetEmbeddings.

(** [tokenizer(texts, padding=True, truncation=True, max_length=MAX_LENGTH,
    return_overflowing_tokens=True, return_tensors="tf")] and
    the call of [sbert_model] on the encoding, from which
    [overflow_to_sample_mapping] has been popped. *)
Variable tokenizer : list string → Encoding.
Variable sbert_model : list (list Z) → list (list Z) → ModelOutput.

(** The argument of the tokenizer call: [data[col_name]]. *)
Definition encoder_input (data : gmap string (list string)) (col_name : string)
    : option (list string) :=
  data !! col_name.

(** [get_embeddings(data, col_name)] on a batch in column form. *)
Definition get_embeddings (data : gmap string (list string)) (col_name : string)
    : option Embedded :=
  texts ← encoder_input data col_name;
  let encoded_input := tokenizer texts in
  let sample_map := overflow_to_sample_mapping encoded_input in
  let attention_mask := attention_mask encoded_input in
  let model_output := sbert_model (input_ids encoded_input) attention_mask in
  cik ← data !! "cik";
  year ← data !! "year";
  section ← data !! "section";
  vectors ← mean_pooling model_output attention_mask sample_map;
  Some {| emb_cik := cik; emb_year := year; emb_section := section;
          emb_name := col_name +:+ "_embedding";
          emb_vectors := vectors |}.

(** The cell that prepares the input of the transformer:
    [wrap(train, SECTIONS_TO_PARSE, new_name='raw_sections')] followed by
    [datasets.concatenate_datasets(wrapped, axis=0)]. *)
Definition transformer_dataset (raw : Dataset) : option Dataset :=
  wrapped ← wrap raw SECTIONS_TO_PARSE "raw_sections";
  concatenate_datasets wrapped.

End GetEmbeddings.


(** ** Further table operations and cells of the notebook *)

(** Two batches of one table put end to end, column by column. *)
Definition append_batches (b1 b2 : gmap string (list string))
    : gmap string (list string) :=
  intersection_with (λ l1 l2, Some (l1 ++ l2)) b1 b2.

(** [PARSED_SECTIONS = set(train_parsed.column_names) - set(['cik', 'year'])];
    a list stands for the set, in some order. *)
Definition PARSED_SECTIONS (column_names : list string) : list string :=
  filter (λ c, c ∉ ["cik"; "year"]) column_names.

(** [d.filter(f)] for a function that may raise. *)
Fixpoint filter_raising {A} (f : A → option bool) (l : list A) : option (list A) :=
  match l with
  | [] => Some []
  | x :: rest =>
      keep ← f x;
      kept ← filter_raising f rest;
      Some (if keep : bool then x :: kept else kept)
  end.

Definition filter_rows_raising (f : gmap string string → option bool) (d : Dataset)
    : option Dataset :=
  kept ← filter_raising f (rows d);
  Some {| column_names := column_names d; rows := kept |}.

(** [d.select(indices)]: the rows at the given positions, in the given order;
    a position outside the table raises. *)
Definition select (indices : list nat) (d : Dataset) : option Dataset :=
  picked ← mapM (λ i, rows d !! i) indices;
  Some {| column_names := column_names d; rows := picked |}.

Definition START_YEAR : Z := 2010.
Definition END_YEAR : Z := 2016.


Section YearSplit.

(** [int(s)] of Python; [None] when it raises. *)
Variable int : string → option Z.

(** [int(row['year'])]; a row without the cell holds [None], on which [int]
    raises. *)
Definition year_of (row : gmap string string) : option Z :=
  row !! "year" ≫= int.

(** [int(sorted(set(train['year']))[-1])]: the years are strings and are
    sorted as strings.  With a [None] among the cells either [sorted] raises,
    on comparing [None] with a string, or [None] is the only year and [int]
    raises on it. *)
Definition latest_year (train : Dataset) : option Z :=
  years ← column "year" train;
  latest ← last (merge_sort String.le (remove_dups years));
  int latest.

(** The cell that follows the loading of the tables:
    [if int(sorted(set(train['year']))[-1]) >= END_YEAR: test = train.filter(...);
    train = train.filter(...)]. *)
Definition split_years (train test : Dataset) : option (Dataset * Dataset) :=
  latest ← latest_year train;
  if bool_decide (END_YEAR ≤ latest)%Z then
    test' ← filter_rows_raising
               (λ row, y ← year_of row; Some (bool_decide (y = END_YEAR))) train;
    train' ← filter_rows_raising
               (λ row, y ← year_of row;
                       Some (bool_decide (START_YEAR ≤ y)%Z
                             && bool_decide (y < END_YEAR)%Z)) train;
    Some (train', test')
  else Some (train, test).

(** [train = datasets.concatenate_datasets([dataset["train"],
    dataset["validation"]], axis=0)], [test = dataset["test"]], then the
    split. *)
Definition train_test (dataset_train dataset_validation dataset_test : Dataset)
    : option (Dataset * Dataset) :=
  train ← concatenate_datasets [dataset_train; dataset_validation];
  split_years train dataset_test.

End YearSplit.

(** The shapes of the tensors: [n] chunks of [s] tokens, [h] hidden units per
    token. *)
Definition tensor_shape (n s h : nat) (t : list (list (list Q))) : Prop :=
  length t = n ∧
  Forall (λ chunk, length chunk = s ∧ Forall (λ v : list Q, length v = h) chunk) t.

Definition mask_shape (n s : nat) (m : list (list Z)) : Prop :=
  length m = n ∧ Forall (λ chunk, length chunk = s) m.

(** Two tensors of token embeddings of the shape of the mask that hold the
    same vector wherever the mask entry is not zero. *)
Definition agree_where_attended (attention_mask : list (list Z))
    (t t' : list (list (list Q))) : Prop :=
  Forall3 (Forall3 (λ (m : Z) (v v' : list Q),
                      length v = length v' ∧ (m ≠ 0%Z → v = v')))
          attention_mask t t'.

(** ** Small concrete inputs, used to run the definitions *)

Module Demo.

(** A stand-in for spaCy: one sentence, a token per blank-separated word. *)
Definition token_of (w : string) : Token :=
  {| text := w;
     is_stop := bool_decide (w ∈ ["the"; "of"]);
     is_digit := bool_decide (w ∈ ["10"; "12"]);
     is_alpha := negb (bool_decide (w ∈ ["10"; "12"; "."]));
     is_punct := bool_decide (w = ".");
     is_space := false;
     lemma_ := w;
     pos_ := if bool_decide (w = ".") then "PUNCT" else "NOUN" |}.

Definition nlp (text : string) : list (list Token) := [token_of <$> String.words text].

(** A batch of two filings. *)
Definition examples : gmap string (list string) :=
  list_to_map
    [("cik", ["718413"; "1001039"]);
     ("year", ["2015"; "2015"]);
     ("filename", ["718413_2015.htm"; "1001039_2015.htm"]);
     ("section_1", ["the bank holds 10 branches ."; "the 10 ."]);
     ("section_1A", ["risk of loss"; ""])].

(** A stand-in for the tokenizer: a token per blank-separated word, its
    id the length of the word, between the markers 101 and 102; at most
    [max_len] words per chunk, a long text overflowing into further chunks;
    chunks padded with zeros to a common length. *)
Definition max_len : nat := 2.

Fixpoint chunk_go (cur rest : list Z) : list (list Z) :=
  match rest with
  | [] => [cur]
  | id :: rest' =>
      if (length cur <? max_len)%nat then chunk_go (cur ++ [id]) rest'
      else cur :: chunk_go [id] rest'
  end.

Definition chunks_of_text (text : string) : list (list Z) :=
  (λ ids, 101%Z :: ids ++ [102%Z])
    <$> chunk_go [] ((λ w, Z.of_nat (String.length w)) <$> String.words text).

Definition pad (n : nat) (chunk : list Z) : list Z :=
  chunk ++ replicate (n - length chunk) 0%Z.

Definition tokenizer (texts : list string) : Encoding :=
  let per_text := chunks_of_text <$> texts in
  let chunks := concat per_text in
  {| input_ids := pad (max_len + 2) <$> chunks;
     attention_mask :=
       (λ chunk, pad (max_len + 2) ((λ _, 1%Z) <$> chunk)) <$> chunks;
     overflow_to_sample_mapping :=
       concat (imap (λ i cs, replicate (length cs) i) per_text) |}.

(** A stand-in for the encoder: two hidden units per token. *)
Definition sbert_model (input_ids attention_mask : list (list Z)) : ModelOutput :=
  {| last_hidden_state :=
       (λ chunk : list Z, (λ id, [inject_Z id; 1%Q]) <$> chunk) <$> input_ids;
     pooler_output := [] |}.

(** A batch of [BATCH_SIZE] documents, and the first three of them. *)
Definition texts16 : list string :=
  ["a bb ccc"; "dddd"; ""; "e f g h i"; "jj"; "k"; "l m"; "n"; "o"; "p";
   "q r s"; "t"; "u"; "v"; "w x"; "y z"].

Definition batch16 : gmap string (list string) :=
  list_to_map
    [("cik", replicate 16 "718413"); ("year", replicate 16 "2015");
     ("section", replicate 16 "1"); ("raw_sections", texts16)].

Definition batch3 : gmap string (list string) :=
  list_to_map
    [("cik", replicate 3 "718413"); ("year", replicate 3 "2015");
     ("section", replicate 3 "1"); ("raw_sections", take 3 texts16)].

(** A stand-in for the trained model: a document vector is the list of
    words; the ranking depends on whether the document reads [alpha]. *)
Definition model : Doc2Vec (list string) Q :=
  {| infer_vector := λ words, words;
     most_similar := λ v topn,
       take topn (if bool_decide (v = ["alpha"])
                  then [(0%nat, 9 # 10); (1%nat, 1 # 10)]
                  else if bool_decide (v = ["gamma"])
                  then [(1%nat, 8 # 10)]
                  else [(0%nat, 6 # 10); (1%nat, 4 # 10)])%Q |}.

Definition wrapped_row (cik year section text : string) : gmap string string :=
  list_to_map [("cik", cik); ("year", year); ("section", section);
               ("parsed_sections", text)].

Definition wrapped_columns : list string :=
  ["cik"; "year"; "parsed_sections"; "section"].

(** The training table, and a validation sample of it that draws row 0
    twice, as [np.random.randint] may. *)
Definition train_table : Dataset :=
  {| column_names := wrapped_columns;
     rows := [ wrapped_row "718413" "2015" "1" "alpha";
               wrapped_row "1001039" "2015" "7" "beta" ] |}.

Definition valid_table : Dataset :=
  {| column_names := wrapped_columns;
     rows := [ wrapped_row "718413" "2015" "1" "alpha";
               wrapped_row "718413" "2015" "1" "alpha";
               wrapped_row "1001039" "2015" "7" "beta" ] |}.

(** Two sections of one filing, in the two possible orders. *)
Definition test_table : Dataset :=
  {| column_names := wrapped_columns;
     rows := [ wrapped_row "718413" "2016" "1" "alpha";
               wrapped_row "718413" "2016" "7" "gamma" ] |}.

Definition test_table_swapped : Dataset :=
  {| column_names := wrapped_columns;
     rows := [ wrapped_row "718413" "2016" "7" "gamma";
               wrapped_row "718413" "2016" "1" "alpha" ] |}.

Definition corpus (d : Dataset) : Corpus :=
  default (mkCorpus d []) (Corpus_init d "parsed_sections").

(** A raw table: two filings of company 718413 in 2015, one of 1001039. *)
Definition raw : Dataset :=
  {| column_names := ["cik"; "year"; "section_1"; "section_1A"; "section_7"; "section_7A"];
     rows :=
       [ list_to_map [("cik", "718413"); ("year", "2015");
                      ("section_1", "the bank holds 10 branches .");
                      ("section_1A", "risk of loss");
                      ("section_7", ""); ("section_7A", "")];
         list_to_map [("cik", "718413"); ("year", "2015");
                      ("section_1", "the bank holds 12 branches .");
                      ("section_1A", ""); ("section_7", ""); ("section_7A", "")];
         list_to_map [("cik", "1001039"); ("year", "2015");
                      ("section_1", ""); ("section_1A", "");
                      ("section_7", "results of operations");
                      ("section_7A", "")] ] |}.

(** The same table without the second filing of company 718413. *)
Definition raw_unique : Dataset :=
  {| column_names := column_names raw;
     rows := [ raw.(rows) !!! 0%nat; raw.(rows) !!! 2%nat ] |}.

(** A stand-in for [int]: a non-empty string of decimal digits. *)
Definition digit (c : Ascii.ascii) : option Z :=
  let n := Z.of_nat (nat_of_ascii c) in
  if bool_decide (48 ≤ n ≤ 57)%Z then Some (n - 48)%Z else None.

Fixpoint int_go (acc : Z) (s : string) : option Z :=
  match s with
  | EmptyString => Some acc
  | String c rest => d ← digit c; int_go (10 * acc + d)%Z rest
  end.

Definition int (s : string) : option Z :=
  match s with
  | EmptyString => None
  | _ => int_go 0 s
  end.

(** Loaded tables whose years run from 2009 to 2017. *)
Definition filing (cik year text : string) : gmap string string :=
  list_to_map [("cik", cik); ("year", year); ("section_1", text)].

Definition loaded_train : Dataset :=
  {| column_names := ["cik"; "year"; "section_1"];
     rows := [ filing "718413" "2009" "a"; filing "718413" "2016" "b";
               filing "1001039" "2012" "c" ] |}.


Definition loaded_test : Dataset :=
  {| column_names := ["cik"; "year"; "section_1"];
     rows := [ filing "1001039" "2018" "g" ] |}.

(** A validation table without the column [section_1]. *)
Definition loaded_validation_short : Dataset :=
  {| column_names := ["year"; "cik"];
     rows := [ list_to_map [("cik", "1001039"); ("year", "2016")] ] |}.

(** A table with a year that cannot be read, and a table without rows. *)
Definition loaded_unreadable : Dataset :=
  {| column_names := ["cik"; "year"; "section_1"];
     rows := [ filing "718413" "" "a"; filing "718413" "2016" "b" ] |}.

Definition loaded_empty : Dataset :=
  {| column_names := ["cik"; "year"; "section_1"]; rows := [] |}.

(** A batch of one filing. *)
Definition examples_one : gmap string (list string) :=
  list_to_map
    [("cik", ["718413"]); ("year", ["2016"]); ("filename", ["718413_2016.htm"]);
     ("section_1", ["the bank holds 12 branches ."]); ("section_1A", ["."])].

(** An encoder that differs from [sbert_model] on the padding tokens only. *)
Definition sbert_model_noisy (input_ids attention_mask : list (list Z))
    : ModelOutput :=
  {| last_hidden_state :=
       (λ chunk : list Z,
          (λ id, if bool_decide (id = 0%Z) then [7%Q; 5%Q]
                 else [inject_Z id; 1%Q]) <$> chunk) <$> input_ids;
     pooler_output := [] |}.

(** A stand-in for an [nlp] with a maximal length of 20 characters. *)
Definition nlp_max_length (text : string) : option (list (list Token)) :=
  if bool_decide (String.length text ≤ 20) then Some (nlp text) else None.

(** A batch of seventeen documents: one more than [BATCH_SIZE]. *)
Definition texts17 : list string := texts16 ++ ["zz"].

Definition batch17 : gmap string (list string) :=
  list_to_map
    [("cik", replicate 17 "718413"); ("year", replicate 17 "2015");
     ("section", replicate 17 "1"); ("raw_sections", texts17)].

End Demo.

(** * Properties *)

(** ** [parse_sections] *)

Lemma keep_token_passes (token : Token) :
  keep_token token = true ↔ passes_exclusion token.
Proof.
  unfold keep_token, passes_exclusion, any, str_in; simpl.
  rewrite negb_true_iff, !orb_false_iff, negb_false_iff, !bool_decide_eq_false.
  rewrite !elem_of_cons, elem_of_nil. tauto.
Qed.

Lemma inner_loop_tokens (sentence : Span) (acc : list Token) :
  foldl (λ acc token, if keep_token token then acc ++ [token] else acc) acc sentence
  = acc ++ filter (λ t, keep_token t = true) sentence.
Proof.
  revert acc. induction sentence as [|t sentence IH]; intros acc; cbn [foldl].
  - simpl. by rewrite app_nil_r.
  - rewrite IH. rewrite filter_cons. destruct (keep_token t) eqn:Hk.
    + rewrite decide_True by done. by rewrite <- app_assoc.
    + rewrite decide_False by congruence. done.
Qed.

Lemma inner_loop_texts (sentence : Span) (acc : list Token) :
  foldl (λ acc token, if keep_token token then acc ++ [text token] else acc)
        (text <$> acc) sentence
  = text <$> foldl (λ acc token, if keep_token token then acc ++ [token] else acc)
                   acc sentence.
Proof.
  revert acc. induction sentence as [|t sentence IH]; intros acc; cbn [foldl]; [done|].
  destruct (keep_token t); [|apply IH].
  rewrite <- IH. by rewrite fmap_app.
Qed.

(** The retained tokens are the tokens of the document, in order, that the
    condition keeps. *)
Lemma retained_tokens_filter (doc : Doc) :
  retained_tokens doc = filter (λ t, keep_token t = true) (concat doc).
Proof.
  unfold retained_tokens.
  enough (∀ acc, foldl (λ acc sentence,
                   foldl (λ acc token, if keep_token token then acc ++ [token] else acc)
                         acc sentence) acc doc
                 = acc ++ filter (λ t, keep_token t = true) (concat doc)) as H
    by apply (H []).
  induction doc as [|sentence doc IH]; intros acc; cbn [foldl concat].
  - simpl. by rewrite app_nil_r.
  - rewrite IH, inner_loop_tokens, filter_app. by rewrite <- app_assoc.
Qed.

(** [clean_sentence] holds the texts of the retained tokens. *)
Lemma clean_sentence_texts (doc : Doc) :
  clean_sentence doc = text <$> retained_tokens doc.
Proof.
  unfold clean_sentence, retained_tokens.
  enough (∀ acc,
    foldl (λ acc sentence,
             foldl (λ acc token, if keep_token token then acc ++ [text token] else acc)
                   acc sentence) (text <$> acc) doc
    = text <$> foldl (λ acc sentence,
                 foldl (λ acc token, if keep_token token then acc ++ [token] else acc)
                       acc sentence) acc doc) as H by apply (H []).
  induction doc as [|sentence doc IH]; intros acc; cbn [foldl]; [done|].
  rewrite inner_loop_texts. apply IH.
Qed.

Lemma clean_text_join (nlp : string → Doc) (text : string) :
  clean_text nlp text = join " " (Spacy.text <$> retained_tokens (nlp text)).
Proof.
  unfold clean_text. rewrite clean_sentence_texts.
  destruct (Spacy.text <$> retained_tokens (nlp text)); done.
Qed.

Lemma parsed_name_inj : Inj (=) (=) parsed_name.
Proof. intros a b H. unfold parsed_name in H. by simplify_eq/=. Qed.

Lemma parsed_name_not_key (section : string) :
  parsed_name section ≠ "cik" ∧ parsed_name section ≠ "year".
Proof. unfold parsed_name. split; intros H; simplify_eq/=. Qed.

(** The dict [sections] after the loop over the columns. *)
Lemma parse_columns_lookup nlp examples col_names sections sections' :
  parse_columns nlp examples col_names sections = Some sections' →
  ∀ col,
    (col ∈ col_names →
       ∃ texts, examples !! col = Some texts ∧
                sections' !! col = Some (clean_text nlp <$> texts)) ∧
    (col ∉ col_names → sections' !! col = sections !! col).
Proof.
  revert sections.
  induction col_names as [|c rest IH]; intros sections Hrun col; simpl in Hrun.
  - simplify_eq. split; [by intros ?%elem_of_nil | done].
  - destruct (examples !! c) as [texts|] eqn:Hc; simplify_option_eq.
    destruct (IH _ Hrun col) as [Hin Hout].
    split.
    + intros Hcol. destruct (decide (col ∈ rest)) as [|Hnot]; [by apply Hin|].
      apply elem_of_cons in Hcol as [->|]; [|done].
      exists texts. split; [done|]. rewrite (Hout Hnot). apply lookup_insert_eq.
    + intros Hcol. apply not_elem_of_cons in Hcol as [Hne Hrest].
      rewrite (Hout Hrest). by apply lookup_insert_ne.
Qed.

Lemma parse_columns_total nlp examples col_names sections :
  Forall (λ col, is_Some (examples !! col)) col_names →
  is_Some (parse_columns nlp examples col_names sections).
Proof.
  revert sections. induction col_names as [|c rest IH]; intros sections Hall; simpl.
  - done.
  - apply Forall_cons in Hall as [[texts Hc] Hrest]. rewrite Hc. simpl. by apply IH.
Qed.

(** The dict [res] after the loop over [sections]. *)
Lemma parsed_fold_lookup (base sections : gmap string (list string)) :
  let res := map_fold (λ section docs res, <[parsed_name section := docs]> res)
                      base sections in
  (∀ section, res !! parsed_name section
              = match sections !! section with
                | Some docs => Some docs
                | None => base !! parsed_name section
                end) ∧
  (∀ k, (∀ section, k ≠ parsed_name section) → res !! k = base !! k).
Proof.
  simpl. apply (map_fold_weak_ind (λ res sections,
    (∀ section, res !! parsed_name section
                = match sections !! section with
                  | Some docs => Some docs
                  | None => base !! parsed_name section
                  end) ∧
    (∀ k, (∀ section, k ≠ parsed_name section) → res !! k = base !! k))).
  - split; [intros section; by rewrite lookup_empty | done].
  - intros i x m r Hi [IH1 IH2]. split.
    + intros section. destruct (decide (i = section)) as [->|Hne].
      * by rewrite !lookup_insert_eq.
      * rewrite !lookup_insert_ne; [apply IH1 | done |].
        intros ?%parsed_name_inj. done.
    + intros k Hk. rewrite lookup_insert_ne; [by apply IH2|].
      intros <-. by apply (Hk i).
Qed.

Lemma parse_sections_lookup nlp examples col_names res :
  parse_sections nlp examples col_names = Some res →
  res !! "cik" = examples !! "cik" ∧
  res !! "year" = examples !! "year" ∧
  (∀ col, col ∈ col_names →
     ∃ texts, examples !! col = Some texts ∧
              res !! parsed_name col = Some (clean_text nlp <$> texts)) ∧
  (∀ k, is_Some (res !! k) →
     k = "cik" ∨ k = "year" ∨ ∃ col, col ∈ col_names ∧ k = parsed_name col).
Proof.
  unfold parse_sections. intros Hrun.
  destruct (parse_columns nlp examples col_names ∅) as [sections|] eqn:Hcols;
    [|done].
  destruct (examples !! "cik") as [cik|] eqn:Hcik; [|done].
  destruct (examples !! "year") as [year|] eqn:Hyear; [|done].
  simpl in Hrun. simplify_eq.
  pose proof (parse_columns_lookup _ _ _ _ _ Hcols) as Hsec.
  destruct (parsed_fold_lookup (<["year" := year]> {["cik" := cik]}) sections)
    as [Hparsed Hother].
  split; [|split; [|split]].
  - rewrite Hother by (intros s; apply not_eq_sym, parsed_name_not_key).
    by rewrite lookup_insert_ne, lookup_singleton_eq.
  - rewrite Hother by (intros s; apply not_eq_sym, parsed_name_not_key).
    by rewrite lookup_insert_eq.
  - intros col Hcol. destruct (Hsec col) as [Hin _].
    destruct (Hin Hcol) as (texts & Hex & Hs). exists texts. split; [done|].
    by rewrite Hparsed, Hs.
  - intros k Hk.
    destruct (decide (k = "cik")) as [|Hn1]; [by left|].
    destruct (decide (k = "year")) as [|Hn2]; [by right; left|].
    right; right.
    destruct (decide (k ∈ parsed_name <$> col_names)) as [Hk'|Hnone'].
    { apply list_elem_of_fmap in Hk' as (col & -> & Hcol). eauto. }
    assert (Hnone : ¬ ∃ col, col ∈ col_names ∧ k = parsed_name col).
    { intros (col & Hcol & ->). apply Hnone', list_elem_of_fmap. eauto. }
    exfalso.
    assert (res_none : ∀ section, k = parsed_name section → False).
    { intros section ->. rewrite Hparsed in Hk.
      destruct (decide (section ∈ col_names)) as [|Hnot]; [by apply Hnone; eauto|].
      destruct (Hsec section) as [_ Hout]. rewrite (Hout Hnot), lookup_empty in Hk.
      rewrite lookup_insert_ne, lookup_singleton_ne in Hk
        by (apply not_eq_sym, parsed_name_not_key).
      by destruct Hk. }
    rewrite Hother in Hk by (intros s Hs; by apply (res_none s)).
    rewrite lookup_insert_ne, lookup_singleton_ne in Hk by done.
    by destruct Hk.
Qed.

(** C2. Every token that [parse_sections] keeps for a cleaned document is a
    token of the parsed text that is not a stop word, not a digit token, is
    alphabetic, is neither punctuation nor whitespace, has a lemma other than
    [-PRON-] and a part-of-speech tag other than [PUNCT], [SYM] and [X]; the
    cleaned document is the blank-separated texts of those tokens. *)
Theorem parse_sections_retained_pass nlp examples col_names res :
  parse_sections nlp examples col_names = Some res →
  ∀ col, col ∈ col_names →
  ∃ texts,
    examples !! col = Some texts ∧
    res !! parsed_name col
      = Some ((λ text, join " " (Spacy.text <$> retained_tokens (nlp text))) <$> texts) ∧
    ∀ text token, text ∈ texts → token ∈ retained_tokens (nlp text) →
      token ∈ concat (nlp text) ∧ passes_exclusion token.
Proof.
  intros Hrun col Hcol.
  destruct (parse_sections_lookup _ _ _ _ Hrun) as (_ & _ & Hcols & _).
  destruct (Hcols col Hcol) as (texts & Hex & Hres).
  exists texts. split; [done|]. split.
  - rewrite Hres. f_equal. apply list_fmap_ext. intros _ text _.
    apply clean_text_join.
  - intros text token _ Htok. rewrite retained_tokens_filter in Htok.
    apply list_elem_of_filter in Htok as [Hkeep Hin].
    split; [done|]. by apply keep_token_passes.
Qed.

Lemma parse_sections_retained_pass_witness :
  ∃ texts,
    Demo.examples !! "section_1" = Some texts ∧
    default ∅ (parse_sections Demo.nlp Demo.examples ["section_1"; "section_1A"])
      !! parsed_name "section_1"
      = Some ((λ text, join " " (Spacy.text <$> retained_tokens (Demo.nlp text)))
                <$> texts) ∧
    ∀ text token, text ∈ texts → token ∈ retained_tokens (Demo.nlp text) →
      token ∈ concat (Demo.nlp text) ∧ passes_exclusion token.
Proof.
  apply (parse_sections_retained_pass Demo.nlp Demo.examples
           ["section_1"; "section_1A"]).
  - vm_compute. reflexivity.
  - apply elem_of_cons. left. reflexivity.
Defined.

(** C7. On a batch that has the columns [cik], [year] and every column of
    [col_names], [parse_sections] returns a record whose [cik] and [year]
    columns are those of the input, row for row; every listed section column
    comes back, under the name [parsed_<column>], as the blank-joined texts
    of its kept tokens; and the record has no other field. *)
Theorem parse_sections_keeps_keys nlp examples col_names cik year :
  examples !! "cik" = Some cik →
  examples !! "year" = Some year →
  Forall (λ col, is_Some (examples !! col)) col_names →
  ∃ res,
    parse_sections nlp examples col_names = Some res ∧
    res !! "cik" = Some cik ∧
    res !! "year" = Some year ∧
    (∀ i, (res !! "cik") ≫= (.!! i) = (examples !! "cik") ≫= (.!! i) ∧
          (res !! "year") ≫= (.!! i) = (examples !! "year") ≫= (.!! i)) ∧
    (∀ col texts, col ∈ col_names → examples !! col = Some texts →
       res !! parsed_name col
       = Some ((λ text,
                  join " " (Spacy.text <$> filter (λ t, keep_token t = true)
                                                  (concat (nlp text))))
                 <$> texts)) ∧
    (∀ k, is_Some (res !! k) →
       k = "cik" ∨ k = "year" ∨ ∃ col, col ∈ col_names ∧ k = parsed_name col).
Proof.
  intros Hcik Hyear Hcols.
  destruct (parse_columns_total nlp examples col_names ∅ Hcols) as [sections Hsec].
  assert (∃ res, parse_sections nlp examples col_names = Some res) as [res Hrun].
  { unfold parse_sections. rewrite Hsec, Hcik, Hyear. simpl. eauto. }
  exists res. split; [done|].
  destruct (parse_sections_lookup _ _ _ _ Hrun) as (Hc & Hy & Hparsed & Honly).
  rewrite Hc, Hy, Hcik, Hyear.
  repeat split; try done.
  intros col texts Hcol Hex.
  destruct (Hparsed col Hcol) as (texts' & Hex' & ->). simplify_eq.
  f_equal. apply list_fmap_ext. intros _ text _.
  by rewrite clean_text_join, retained_tokens_filter.
Qed.

Lemma parse_sections_keeps_keys_witness :
  ∃ res,
    parse_sections Demo.nlp Demo.examples ["section_1"; "section_1A"] = Some res ∧
    res !! "cik" = Some ["718413"; "1001039"] ∧
    res !! "year" = Some ["2015"; "2015"] ∧
    (∀ i, (res !! "cik") ≫= (.!! i) = (Demo.examples !! "cik") ≫= (.!! i) ∧
          (res !! "year") ≫= (.!! i) = (Demo.examples !! "year") ≫= (.!! i)) ∧
    (∀ col texts, col ∈ ["section_1"; "section_1A"] →
       Demo.examples !! col = Some texts →
       res !! parsed_name col
       = Some ((λ text,
                  join " " (Spacy.text <$> filter (λ t, keep_token t = true)
                                                  (concat (Demo.nlp text))))
                 <$> texts)) ∧
    (∀ k, is_Some (res !! k) →
       k = "cik" ∨ k = "year" ∨
       ∃ col, col ∈ ["section_1"; "section_1A"] ∧ k = parsed_name col).
Proof.
  apply (parse_sections_keeps_keys Demo.nlp Demo.examples
           ["section_1"; "section_1A"] ["718413"; "1001039"] ["2015"; "2015"]).
  - reflexivity.
  - reflexivity.
  - repeat constructor; eexists; reflexivity.
Defined.

(** The cleaned batch of the demo input, computed. *)
Example parse_sections_demo :
  map_to_list <$> parse_sections Demo.nlp Demo.examples ["section_1"; "section_1A"]
  = Some [("cik", ["718413"; "1001039"]);
          ("year", ["2015"; "2015"]);
          ("parsed_section_1A", ["risk loss"; ""]);
          ("parsed_section_1", ["bank holds branches"; ""])].
Proof. vm_compute. reflexivity. Qed.
(** ** [wrap] *)

Lemma split_nonempty (sep : Ascii.ascii) (s : string) : split sep s ≠ [].
Proof.
  induction s as [|c s IH]; simpl; [done|].
  case_bool_decide; [done|]. by destruct (split sep s).
Qed.

Lemma last_split_is_Some (sep : Ascii.ascii) (s : string) :
  is_Some (last (split sep s)).
Proof.
  destruct (split sep s) as [|piece pieces] eqn:Hs.
  - by apply split_nonempty in Hs.
  - rewrite last_lookup. apply lookup_lt_is_Some. simpl. lia.
Qed.






Lemma filter_fmap_list {A B} (f : A → B) (P : B → Prop) `{!∀ y, Decision (P y)}
    (l : list A) :
  filter P (f <$> l) = f <$> filter (λ x, P (f x)) l.
Proof.
  induction l as [|x l IH]; [done|]. rewrite fmap_cons, !filter_cons.
  destruct (decide (P (f x))); by rewrite IH.
Qed.

(** One row of the table that [wrap] builds for column [col]. *)
Lemma wrapped_row_lookup (col new_name section : string) (src : gmap string string) :
  NoDup ["cik"; "year"; col] → col ≠ "section" →
  new_name ∉ ["cik"; "year"; col; "section"] →
  is_Some (src !! col) →
  let row := rename_cell col new_name
               (add_cell "section" section (select_row ["cik"; "year"; col] src)) in
  row !! "cik" = src !! "cik" ∧
  row !! "year" = src !! "year" ∧
  row !! "section" = Some section ∧
  row !! new_name = src !! col ∧
  (∀ k, is_Some (row !! k) → k ∈ ["cik"; "year"; new_name; "section"]).
Proof.
  intros Hnd Hsec Hnew [cell Hcell]. simpl.
  apply NoDup_cons in Hnd as [Hcik Hnd]. apply NoDup_cons in Hnd as [Hyear _].
  repeat setoid_rewrite not_elem_of_cons in Hcik.
  repeat setoid_rewrite not_elem_of_cons in Hyear.
  repeat setoid_rewrite not_elem_of_cons in Hnew.
  destruct Hcik as (Hcy & Hcc & _). destruct Hyear as (Hyc & _).
  destruct Hnew as (Hn1 & Hn2 & Hn3 & Hn4 & _).
  assert (Hsel : ∀ k, select_row ["cik"; "year"; col] src !! k
                      = if decide (k ∈ ["cik"; "year"; col]) then src !! k else None).
  { intros k. unfold select_row. rewrite map_lookup_filter.
    destruct (src !! k) as [v|]; simpl; [|by case_decide].
    unfold guard. simpl. repeat case_decide; done. }
  unfold rename_cell, add_cell.
  rewrite lookup_insert_ne by done. rewrite Hsel, decide_True, Hcell
    by (rewrite !elem_of_cons; tauto).
  repeat split.
  - rewrite lookup_insert_ne, lookup_delete_ne, lookup_insert_ne by done.
    rewrite Hsel, decide_True; [done|]. rewrite !elem_of_cons; tauto.
  - rewrite lookup_insert_ne, lookup_delete_ne, lookup_insert_ne by done.
    rewrite Hsel, decide_True; [done|]. rewrite !elem_of_cons; tauto.
  - rewrite lookup_insert_ne, lookup_delete_ne by done. apply lookup_insert_eq.
  - apply lookup_insert_eq.
  - intros k Hk. rewrite !elem_of_cons.
    destruct (decide (k = new_name)) as [|Hk1]; [tauto|].
    rewrite lookup_insert_ne in Hk by done.
    destruct (decide (k = col)) as [->|Hk2];
      [rewrite lookup_delete_eq in Hk; by destruct Hk|].
    rewrite lookup_delete_ne in Hk by done.
    destruct (decide (k = "section")) as [|Hk3]; [tauto|].
    rewrite lookup_insert_ne, Hsel in Hk by done.
    case_decide as Hin; [|by destruct Hk].
    rewrite !elem_of_cons, elem_of_nil in Hin. tauto.
Qed.

(** What a successful iteration of the loop of [wrap] returns. *)
Lemma wrap_column_inv (data : Dataset) (new_name col : string) (out : Dataset) :
  wrap_column data new_name col = Some out →
  ∃ section,
    last (split "_" col) = Some section ∧
    NoDup ["cik"; "year"; col] ∧
    Forall (λ c, c ∈ column_names data) ["cik"; "year"; col] ∧
    col ≠ "section" ∧
    (new_name ∉ ["cik"; "year"; col; "section"]) ∧
    column_names out = ["cik"; "year"; new_name; "section"] ∧
    rows out
    = (λ src, rename_cell col new_name
                (add_cell "section" section (select_row ["cik"; "year"; col] src)))
        <$> filter (λ src, src !! col ≠ Some "") (rows data).
Proof.
  unfold wrap_column, select_columns. intros Hrun.
  case_bool_decide as Hsel; [|done]. destruct Hsel as [Hnd Hcols]. simpl in Hrun.
  destruct (last (split "_" col)) as [section|] eqn:Hlast; [|done]. simpl in Hrun.
  unfold add_column in Hrun. case_bool_decide as Hadd; [|done].
  destruct Hadd as [Hsec _]. simpl in Hrun, Hsec.
  unfold rename_column in Hrun. case_bool_decide as Hren; [|done].
  destruct Hren as (_ & Hnew & _). simpl in Hrun, Hnew. simplify_eq.
  assert (Hcs : col ≠ "section").
  { intros ->. apply Hsec. rewrite !elem_of_cons. tauto. }
  assert (Hcik : col ≠ "cik" ∧ col ≠ "year").
  { apply NoDup_cons in Hnd as [H1 Hnd]. apply NoDup_cons in Hnd as [H2 _].
    repeat setoid_rewrite not_elem_of_cons in H1.
    repeat setoid_rewrite not_elem_of_cons in H2. split; intros ->; tauto. }
  exists section. simpl. repeat split; try done.
  - repeat case_bool_decide; try done; destruct Hcik; congruence.
  - unfold num_rows. simpl. rewrite zip_with_replicate_r_eq by done.
    rewrite <- list_fmap_compose.
    rewrite (filter_fmap_list (select_row ["cik"; "year"; col])
               (λ row, bool_decide (row !! col ≠ Some "") = true)).
    rewrite <- list_fmap_compose. f_equal.
    apply list_filter_iff. intros src. rewrite bool_decide_eq_true.
    unfold select_row. rewrite map_lookup_filter.
    destruct (src !! col) as [v|]; simpl; [|done].
    rewrite option_guard_True; [done|]. simpl. rewrite !elem_of_cons. tauto.
Qed.

Lemma wf_lookup (d : Dataset) (row : gmap string string) (col : string) :
  wf d → row ∈ rows d → col ∈ column_names d → is_Some (row !! col).
Proof.
  unfold wf. rewrite Forall_forall. intros Hwf Hrow Hcol.
  apply elem_of_dom. rewrite (Hwf row Hrow). by apply elem_of_list_to_set.
Qed.

(** The rows that one iteration of [wrap] returns, against the rows of the
    input whose cell in column [col] is not the empty string. *)
Lemma wrap_column_rows (data : Dataset) (new_name col : string) (out : Dataset) :
  wf data →
  wrap_column data new_name col = Some out →
  ∃ section,
    last (split "_" col) = Some section ∧
    Forall2 (λ src row,
               ∃ cik year text,
                 src !! "cik" = Some cik ∧ src !! "year" = Some year ∧
                 src !! col = Some text ∧ text ≠ "" ∧
                 row !! "cik" = Some cik ∧ row !! "year" = Some year ∧
                 row !! "section" = Some section ∧
                 row !! new_name = Some text ∧
                 dom row = list_to_set (C := gset string) (column_names out))
            (filter (λ src, src !! col ≠ Some "") (rows data)) (rows out).
Proof.
  intros Hwf Hrun.
  destruct (wrap_column_inv _ _ _ _ Hrun)
    as (section & Hlast & Hnd & Hcols & Hsec & Hnew & Hnames & Hrows).
  exists section. split; [done|]. rewrite Hrows, Hnames.
  apply Forall2_fmap_r, Forall_Forall2_diag, Forall_forall.
  intros src [Htext Hsrc]%list_elem_of_filter.
  rewrite !Forall_cons in Hcols. destruct Hcols as (Hc1 & Hc2 & Hc3 & _).
  destruct (wf_lookup data src "cik" Hwf Hsrc Hc1) as [cik Hcik].
  destruct (wf_lookup data src "year" Hwf Hsrc Hc2) as [year Hyear].
  destruct (wf_lookup data src col Hwf Hsrc Hc3) as [text Hcell].
  destruct (wrapped_row_lookup col new_name section src Hnd Hsec Hnew)
    as (R1 & R2 & R3 & R4 & R5); [by eauto|].
  exists cik, year, text. rewrite R1, R2, R3, R4.
  repeat split; try done; try congruence.
  apply set_eq. intros k. rewrite elem_of_dom, elem_of_list_to_set. split.
  - apply R5.
  - rewrite !elem_of_cons, elem_of_nil.
    intros [->|[->|[->|[->|[]]]]]; rewrite ?R1, ?R2, ?R3, ?R4; eauto.
Qed.



(** ** Keys of the wrapped records *)

Lemma NoDup_fmap_eq {A B} (f : A → B) (l : list A) (x y : A) :
  NoDup (f <$> l) → x ∈ l → y ∈ l → f x = f y → x = y.
Proof.
  induction l as [|z l IH]; [by intros _ ?%elem_of_nil|].
  rewrite fmap_cons, NoDup_cons, !elem_of_cons.
  intros [Hz Hl] [->|Hx] [->|Hy] Hf; [done| | |by apply IH].
  - exfalso. apply Hz. rewrite Hf. by apply list_elem_of_fmap_2.
  - exfalso. apply Hz. rewrite <- Hf. by apply list_elem_of_fmap_2.
Qed.

Lemma concatenate_datasets_rows (dsets : list Dataset) (out : Dataset) :
  concatenate_datasets dsets = Some out → rows out = concat (rows <$> dsets).
Proof.
  unfold concatenate_datasets. destruct dsets as [|d dsets]; [done|].
  by intros [= <-].
Qed.

(** The keys of the records of one column: the [cik] and [year] of the
    rows with a text, and the section of the column. *)
Lemma wrap_column_keys (data : Dataset) (new_name col : string) (out : Dataset) :
  wf data →
  wrap_column data new_name col = Some out →
  ∃ section,
    last (split "_" col) = Some section ∧
    key_of <$> rows out
    = (λ src, cik ← src !! "cik"; year ← src !! "year"; Some (cik, year, section))
        <$> filter (λ src, src !! col ≠ Some "") (rows data) ∧
    Forall (λ src, is_Some (src !! "cik") ∧ is_Some (src !! "year"))
           (filter (λ src, src !! col ≠ Some "") (rows data)).
Proof.
  intros Hwf Hrun.
  destruct (wrap_column_rows _ _ _ _ Hwf Hrun) as (section & Hlast & Hrows).
  exists section. split; [done|].
  induction Hrows as [|src row srcs rows' Hrow _ [IH1 IH2]]; [done|].
  destruct Hrow as (cik & year & text & Hc & Hy & _ & _ & Rc & Ry & Rs & _).
  rewrite !fmap_cons, IH1. split.
  - f_equal. unfold key_of. by rewrite Hc, Hy, Rc, Ry, Rs.
  - constructor; [|done]. rewrite Hc, Hy. eauto.
Qed.

(** C5, as the code has it. [wrap] adds no key and removes none: when no two
    rows of the input share [(cik, year)] and no two listed columns share
    the part after the last underscore, no two records of the concatenated
    output share [(cik, year, section)]. *)
Theorem wrapped_keys_unique
    (data : Dataset) (col_names : list string) (new_name : string)
    (wrapped : list Dataset) (out : Dataset) :
  wf data →
  NoDup ((λ row : gmap string string, (row !! "cik", row !! "year")) <$> rows data) →
  NoDup ((λ col, last (split "_" col)) <$> col_names) →
  wrap data col_names new_name = Some wrapped →
  concatenate_datasets wrapped = Some out →
  Forall (λ row, is_Some (key_of row)) (rows out) ∧
  NoDup (key_of <$> rows out).
Proof.
  intros Hwf Hpairs Hcols Hwrap Hcat.
  rewrite (concatenate_datasets_rows _ _ Hcat). clear Hcat out.
  apply mapM_Some_1 in Hwrap.
  induction Hwrap as [|col out cols outs Hcol Hrest IH]; [by split; constructor|].
  simpl in Hcol. rewrite fmap_cons in Hcols. apply NoDup_cons in Hcols as [Hfresh Hcols].
  destruct (IH Hcols) as [IHsome IHnd]. clear IH.
  destruct (wrap_column_keys _ _ _ _ Hwf Hcol) as (section & Hlast & Hkeys & Hsrc).
  rewrite fmap_cons. cbn [concat]. rewrite fmap_app, Forall_app, NoDup_app.
  assert (Hhere : ∀ k, k ∈ key_of <$> rows out →
                       ∃ cik year, k = Some (cik, year, section)).
  { intros k. rewrite Hkeys. intros (src & -> & Hin)%list_elem_of_fmap.
    rewrite Forall_forall in Hsrc. destruct (Hsrc src Hin) as [[c ->] [y ->]]. eauto. }
  assert (Hthere : ∀ k, k ∈ key_of <$> concat (rows <$> outs) →
                        ∀ cik year, k ≠ Some (cik, year, section)).
  { clear -Hwf Hrest Hfresh Hlast. intros k Hk cik year ->.
    induction Hrest as [|col' out' cols outs Hcol' Hrest IH]; [by apply elem_of_nil in Hk|].
    rewrite fmap_cons in Hfresh. apply not_elem_of_cons in Hfresh as [Hne Hfresh].
    rewrite fmap_cons in Hk. cbn [concat] in Hk. rewrite fmap_app in Hk.
    apply elem_of_app in Hk as [Hk|Hk]; [|by apply IH].
    simpl in Hcol'.
    destruct (wrap_column_keys _ _ _ _ Hwf Hcol') as (section' & Hlast' & Hkeys' & Hsrc').
    rewrite Hkeys' in Hk. apply list_elem_of_fmap in Hk as (src & Heq & Hin).
    rewrite Forall_forall in Hsrc'. destruct (Hsrc' src Hin) as [[c Hc] [y Hy]].
    rewrite Hc, Hy in Heq. simpl in Heq. simplify_eq. congruence. }
  repeat split.
  - apply Forall_forall. intros row Hrow.
    destruct (Hhere (key_of row)) as (c & y & ->); [by apply list_elem_of_fmap_2|].
    eauto.
  - done.
  - rewrite Hkeys. apply NoDup_fmap_2_strong.
    + intros x y Hx Hy Heq. rewrite Forall_forall in Hsrc.
      destruct (Hsrc x Hx) as [[cx Hcx] [yx Hyx]].
      destruct (Hsrc y Hy) as [[cy Hcy] [yy Hyy]].
      apply list_elem_of_filter in Hx as [_ Hx]. apply list_elem_of_filter in Hy as [_ Hy].
      apply (NoDup_fmap_eq _ _ x y Hpairs Hx Hy).
      rewrite Hcx, Hyx, Hcy, Hyy in *. simpl in Heq. congruence.
    + apply NoDup_filter. by apply NoDup_fmap_1 in Hpairs.
  - intros k Hk Hk'. destruct (Hhere k Hk) as (c & y & ->).
    by apply (Hthere _ Hk' c y).
  - done.
Qed.

Lemma wrapped_keys_unique_witness :
  Forall (λ row, is_Some (key_of row))
         (rows (default Demo.raw_unique
                  (wrap Demo.raw_unique SECTIONS_TO_PARSE "parsed_sections"
                     ≫= concatenate_datasets))) ∧
  NoDup (key_of <$>
         rows (default Demo.raw_unique
                 (wrap Demo.raw_unique SECTIONS_TO_PARSE "parsed_sections"
                    ≫= concatenate_datasets))).
Proof.
  apply (wrapped_keys_unique Demo.raw_unique SECTIONS_TO_PARSE "parsed_sections"
           (default [] (wrap Demo.raw_unique SECTIONS_TO_PARSE "parsed_sections"))).
  - repeat constructor; vm_compute; reflexivity.
  - apply (bool_decide_unpack _). vm_compute. exact I.
  - apply (bool_decide_unpack _). vm_compute. exact I.
  - vm_compute. reflexivity.
  - vm_compute. reflexivity.
Defined.

(** C5 as stated fails: the table [Demo.raw] holds two filings of company
    718413 for 2015, both with a text in [section_1], and the wrapped output
    holds the key [(718413, 2015, 1)] twice. *)
Lemma wrapped_keys_unique_counterexample :
  wf Demo.raw ∧
  ∃ out,
    wrap Demo.raw SECTIONS_TO_PARSE "raw_sections" ≫= concatenate_datasets = Some out ∧
    key_of <$> rows out
    = [Some ("718413", "2015", "1"); Some ("718413", "2015", "1");
       Some ("718413", "2015", "1A"); Some ("1001039", "2015", "7")] ∧
    ¬ NoDup (key_of <$> rows out).
Proof.
  split; [repeat constructor; vm_compute; reflexivity|].
  eexists. split; [vm_compute; reflexivity|]. split; [vm_compute; reflexivity|].
  intros Hnd. apply NoDup_cons in Hnd as [Hnotin _]. apply Hnotin. left.
Qed.

(** ** The input of the sentence encoder *)

Lemma batch_lookup (d : Dataset) (col : string) :
  batch d !! col = column col d.
Proof.
  unfold batch.
  assert (∀ cols, (list_to_map (omap (λ c, (c,.) <$> column c d) cols)
                     : gmap string (list string)) !! col
                  = if decide (col ∈ cols) then column col d else None) as Hgen.
  { induction cols as [|c cols IH]; [done|].
    change (omap (λ c, (c,.) <$> column c d) (c :: cols))
      with (match (c,.) <$> column c d with
            | Some y => y :: omap (λ c, (c,.) <$> column c d) cols
            | None => omap (λ c, (c,.) <$> column c d) cols
            end).
    destruct (column c d) as [cells|] eqn:Hc; cbn [fmap option_fmap option_map].
    - rewrite list_to_map_cons. destruct (decide (c = col)) as [->|Hne].
      + rewrite lookup_insert_eq, decide_True by left. by rewrite Hc.
      + rewrite lookup_insert_ne by done. rewrite IH.
        destruct (decide (col ∈ cols));
          [rewrite decide_True by (by right)
          |rewrite decide_False by (by apply not_elem_of_cons)]; done.
    - rewrite IH. destruct (decide (c = col)) as [->|Hne].
      + rewrite Hc. by repeat case_decide.
      + destruct (decide (col ∈ cols));
          [rewrite decide_True by (by right)
          |rewrite decide_False by (by apply not_elem_of_cons)]; done. }
  rewrite Hgen. case_decide as Hin; [done|].
  unfold column. by rewrite bool_decide_eq_false_2.
Qed.

Lemma union_step_known (acc cols : list string) :
  Forall (λ c, c ∈ acc) cols →
  foldl (λ acc c, if decide (c ∈ acc) then acc else acc ++ [c]) acc cols = acc.
Proof.
  induction 1 as [|c cols Hc _ IH]; [done|]. simpl. by rewrite decide_True.
Qed.

Lemma union_step_new (acc cols : list string) :
  NoDup (acc ++ cols) →
  foldl (λ acc c, if decide (c ∈ acc) then acc else acc ++ [c]) acc cols
  = acc ++ cols.
Proof.
  revert acc. induction cols as [|c cols IH]; intros acc Hnd; simpl.
  - by rewrite app_nil_r.
  - rewrite decide_False.
    + rewrite IH; rewrite <- app_assoc; [done|]. exact Hnd.
    + apply NoDup_app in Hnd as (_ & Hdisj & _). intros Hin.
      apply (Hdisj c Hin). left.
Qed.

(** Tables with the same columns: the result has these columns. *)
Lemma union_columns_same (cols : list string) (dsets : list Dataset) :
  NoDup cols → dsets ≠ [] →
  Forall (λ d, column_names d = cols) dsets →
  union_columns dsets = cols.
Proof.
  intros Hnd Hne Hall. destruct Hall as [|d dsets Hd Hrest]; [done|].
  unfold union_columns. rewrite fmap_cons. cbn [concat].
  rewrite foldl_app, Hd, (union_step_new [] cols) by done. simpl.
  apply union_step_known. clear Hne Hd.
  induction Hrest as [|d' dsets' Hd' _ IH]; [constructor|].
  rewrite fmap_cons. cbn [concat]. apply Forall_app. split; [|done].
  rewrite Hd'. by apply Forall_forall.
Qed.

Lemma concatenate_datasets_columns (dsets : list Dataset) (out : Dataset) :
  concatenate_datasets dsets = Some out → column_names out = union_columns dsets.
Proof.
  unfold concatenate_datasets. destruct dsets as [|d dsets]; [done|].
  by intros [= <-].
Qed.

(** The four columns of a table that [wrap] builds are distinct. *)
Lemma wrapped_columns_NoDup (new_name col : string) :
  new_name ∉ ["cik"; "year"; col; "section"] →
  NoDup ["cik"; "year"; new_name; "section"].
Proof.
  intros Hnew. repeat setoid_rewrite not_elem_of_cons in Hnew.
  destruct Hnew as (H1 & H2 & _ & H4 & _).
  repeat constructor; rewrite ?not_elem_of_cons, ?elem_of_nil;
    intuition congruence.
Qed.

(** C4, as the code has it. The table that the notebook prepares for the
    transformer has the columns [cik], [year], [raw_sections] and [section];
    [get_embeddings] hands the column it is asked for to the tokenizer
    unchanged; and each text of [raw_sections] is the text of a section of
    a raw row, as it was loaded. *)
Theorem encoder_input_is_raw_text
    (tokenizer : list string → Encoding)
    (sbert_model : list (list Z) → list (list Z) → ModelOutput)
    (raw d : Dataset) :
  wf raw →
  transformer_dataset raw = Some d →
  column_names d = ["cik"; "year"; "raw_sections"; "section"] ∧
  ∃ texts,
    encoder_input (batch d) "raw_sections" = Some texts ∧
    Forall2 (λ row text, row !! "raw_sections" = Some text) (rows d) texts ∧
    Forall (λ text, ∃ src col, src ∈ rows raw ∧ col ∈ SECTIONS_TO_PARSE ∧
                               src !! col = Some text) texts ∧
    ∀ r, get_embeddings tokenizer sbert_model (batch d) "raw_sections" = Some r →
         let encoded_input := tokenizer texts in
         mean_pooling (sbert_model (input_ids encoded_input)
                                   (attention_mask encoded_input))
                      (attention_mask encoded_input)
                      (overflow_to_sample_mapping encoded_input)
         = Some (emb_vectors r).
Proof.
  intros Hwf Hrun. unfold transformer_dataset in Hrun.
  destruct (wrap raw SECTIONS_TO_PARSE "raw_sections") as [wrapped|] eqn:Hwrap;
    [|done]. simpl in Hrun.
  pose proof (concatenate_datasets_rows _ _ Hrun) as Hrows.
  apply mapM_Some_1 in Hwrap.
  assert (Hnames : column_names d = ["cik"; "year"; "raw_sections"; "section"]).
  { rewrite (concatenate_datasets_columns _ _ Hrun).
    destruct Hwrap as [|col out cols outs Hcol Hrest]; [done|]. simpl in Hcol.
    destruct (wrap_column_inv _ _ _ _ Hcol) as (_ & _ & _ & _ & _ & Hnew & Hout & _).
    apply union_columns_same; [by eapply wrapped_columns_NoDup | done |].
    constructor; [done|]. eapply Forall2_Forall_r; [exact Hrest|].
    apply Forall_forall. intros col' _ out' Hcol'. simpl in Hcol'.
    by destruct (wrap_column_inv _ _ _ _ Hcol') as (_ & _ & _ & _ & _ & _ & ? & _). }
  split; [done|].
  assert (Hall : Forall (λ row, ∃ text src col,
                           row !! "raw_sections" = Some text ∧ src ∈ rows raw ∧
                           col ∈ SECTIONS_TO_PARSE ∧ src !! col = Some text)
                        (rows d)).
  { rewrite Hrows. clear Hrows Hrun Hnames.
    induction Hwrap as [|col out cols outs Hcol _ IH]; [constructor|].
    rewrite fmap_cons. cbn [concat]. apply Forall_app. split.
    - simpl in Hcol.
      destruct (wrap_column_rows _ _ _ _ Hwf Hcol) as (section & _ & Hcorr).
      apply Forall_forall. intros row [i Hi]%list_elem_of_lookup.
      destruct (Forall2_lookup_r _ _ _ _ _ Hcorr Hi) as (src & Hsrc & Hrow).
      destruct Hrow as (cik & year & text & _ & _ & Htext & _ & _ & _ & _ & Hnew & _).
      exists text, src, col. repeat split; try done.
      + apply list_elem_of_lookup_2 in Hsrc.
        by apply list_elem_of_filter in Hsrc as [_ ?].
      + left.
    - eapply Forall_impl; [exact IH|]. intros row (text & src & c & ? & ? & ? & ?).
      exists text, src, c. repeat split; try done. by right. }
  assert (is_Some (mapM (λ row : gmap string string, row !! "raw_sections") (rows d)))
    as [texts Htexts].
  { apply mapM_is_Some. eapply Forall_impl; [exact Hall|].
    intros row (text & _ & _ & Ht & _). simpl. rewrite Ht. by eexists. }
  assert (Hinput : encoder_input (batch d) "raw_sections" = Some texts).
  { unfold encoder_input. rewrite batch_lookup. unfold column.
    rewrite bool_decide_eq_true_2; [done|]. rewrite Hnames.
    rewrite !elem_of_cons. tauto. }
  exists texts. split; [done|]. apply mapM_Some_1 in Htexts. split; [done|]. split.
  - clear Hinput Hrows. revert Hall.
    induction Htexts as [|row text rows' texts' Hrow _ IH]; intros Hall; [constructor|].
    apply Forall_cons in Hall as [(text' & src & col & Ht & ? & ? & ?) Hall].
    constructor; [|by apply IH]. exists src, col. simplify_eq. done.
  - intros r. unfold get_embeddings. rewrite Hinput. simpl.
    intros Hr. repeat (match type of Hr with
                       | context [?o ≫= _] => destruct o eqn:?; simpl in Hr; [|done]
                       end).
    by simplify_eq.
Qed.

(** ** [mean_pooling] *)

(** The positions found by [np.where], counted from [k]. *)
Lemma where_from (i k : nat) (l : list nat) (p : nat) :
  p ∈ omap (λ q : nat * nat, if bool_decide (q.2 = i) then Some q.1 else None)
           (imap (λ j x, (k + j, x)) l)
  ↔ ∃ j, p = k + j ∧ l !! j = Some i.
Proof.
  rewrite list_elem_of_omap. split.
  - intros ([q x] & Hin & Hq). simpl in Hq. case_bool_decide; [|done].
    simplify_eq. apply list_elem_of_lookup in Hin as [j Hj].
    rewrite list_lookup_imap in Hj.
    destruct (l !! j) as [y|] eqn:Hl; simplify_eq/=. eauto.
  - intros (j & -> & Hj). exists (k + j, i). split.
    + apply list_elem_of_lookup. exists j. by rewrite list_lookup_imap, Hj.
    + simpl. by rewrite bool_decide_eq_true_2.
Qed.

Lemma np_where_eq_elem (sample_map : list nat) (i p : nat) :
  p ∈ np_where_eq sample_map i ↔ sample_map !! p = Some i.
Proof.
  unfold np_where_eq.
  change (imap pair sample_map) with (imap (λ j x, (0 + j, x)) sample_map).
  rewrite where_from. split; [by intros (j & -> & Hj) | by exists p].
Qed.

(** [np.where] lists the positions in increasing order. *)
Lemma where_from_sorted (i k : nat) (l : list nat) :
  let found := omap (λ q : nat * nat, if bool_decide (q.2 = i) then Some q.1 else None)
                    (imap (λ j x, (k + j, x)) l) in
  StronglySorted lt found ∧ Forall (λ p, k ≤ p) found.
Proof.
  simpl. revert k. induction l as [|x l IH]; intros k.
  - split; constructor.
  - rewrite imap_cons.
    rewrite (imap_ext _ (λ j y, (S k + j, y))) by (intros; simpl; f_equal; lia).
    destruct (IH (S k)) as [IHs IHf].
    change (omap ?f (?a :: ?r)) with (match f a with
                                      | Some y => y :: omap f r
                                      | None => omap f r
                                      end).
    assert (Hweak : Forall (λ p, k ≤ p)
              (omap (λ q : nat * nat, if bool_decide (q.2 = i) then Some q.1 else None)
                    (imap (λ j y, (S k + j, y)) l))).
    { eapply Forall_impl; [exact IHf|]. simpl. lia. }
    simpl. case_bool_decide.
    + split.
      * constructor; [done|]. eapply Forall_impl; [exact IHf|]. simpl. lia.
      * constructor; [lia | done].
    + done.
Qed.

Lemma np_where_eq_nil (sample_map : list nat) (i : nat) :
  np_where_eq sample_map i = [] ↔ i ∉ sample_map.
Proof.
  split.
  - intros Hnil [p Hp]%list_elem_of_lookup.
    apply np_where_eq_elem in Hp. rewrite Hnil in Hp. by apply elem_of_nil in Hp.
  - intros Hnot. destruct (np_where_eq sample_map i) as [|p ps] eqn:Hw; [done|].
    exfalso. apply Hnot. apply (list_elem_of_lookup_2 _ p), np_where_eq_elem.
    rewrite Hw. left.
Qed.

Lemma slice_bounds_Some (sample_map : list nat) (i : nat) :
  i ∈ sample_map →
  ∃ s_idx e_idx,
    slice_bounds sample_map i = Some (s_idx, e_idx) ∧
    s_idx < e_idx ≤ length sample_map ∧
    sample_map !! s_idx = Some i ∧ sample_map !! (e_idx - 1) = Some i.
Proof.
  intros Hin. unfold slice_bounds.
  destruct (np_where_eq sample_map i) as [|p ps] eqn:Hw.
  { by apply np_where_eq_nil in Hw. }
  destruct (last_is_Some (p :: ps)) as [_ [e He]]; [done|].
  rewrite He. simpl. exists p, (e + 1). split; [done|].
  assert (Hp : sample_map !! p = Some i).
  { apply np_where_eq_elem. rewrite Hw. left. }
  assert (Hel : sample_map !! e = Some i).
  { apply np_where_eq_elem. rewrite Hw. by apply last_Some_elem_of. }
  replace (e + 1 - 1) with e by lia.
  apply lookup_lt_Some in Hel as Hlt. repeat split; try done; try lia.
  pose proof (where_from_sorted i 0 sample_map) as [Hsorted _]. simpl in Hsorted.
  change (omap _ (imap _ sample_map)) with (np_where_eq sample_map i) in Hsorted.
  rewrite Hw in Hsorted. apply StronglySorted_inv in Hsorted as [_ Hall].
  destruct ps as [|p' ps]; [simpl in He; simplify_eq; lia|].
  rewrite last_cons_cons in He. apply last_Some_elem_of in He.
  rewrite Forall_forall in Hall. specialize (Hall e He). lia.
Qed.

Lemma slice_bounds_None (sample_map : list nat) (i : nat) :
  i ∉ sample_map → slice_bounds sample_map i = None.
Proof.
  intros Hnot. unfold slice_bounds.
  by rewrite (proj2 (np_where_eq_nil sample_map i) Hnot).
Qed.

Lemma pool_document_is_Some token_embeddings input_mask_expanded sample_map i :
  is_Some (pool_document token_embeddings input_mask_expanded sample_map i)
  ↔ i ∈ sample_map.
Proof.
  unfold pool_document. split.
  - intros Hsome. destruct (decide (i ∈ sample_map)) as [|Hnot]; [done|].
    rewrite (slice_bounds_None _ _ Hnot) in Hsome. by destruct Hsome.
  - intros Hin. destruct (slice_bounds_Some _ _ Hin) as (s & e & -> & _). by eexists.
Qed.

(** C8. [mean_pooling] returns a result exactly when every index below
    [BATCH_SIZE] occurs in [sample_map].  For an index that occurs, the first
    and the last position of [np.where(sample_map == i)[0]] exist and bound a
    non-empty slice within [sample_map]; for an index that does not occur,
    the array is empty and the lookup of its first position raises. *)
Theorem mean_pooling_total_iff
    (model_output : ModelOutput) (attention_mask : list (list Z))
    (sample_map : list nat) :
  (is_Some (mean_pooling model_output attention_mask sample_map)
   ↔ ∀ i, i < BATCH_SIZE → i ∈ sample_map) ∧
  (∀ i, i ∈ sample_map →
     ∃ s_idx e_idx,
       np_where_eq sample_map i !! 0 = Some s_idx ∧
       last (np_where_eq sample_map i) = Some (e_idx - 1) ∧
       slice_bounds sample_map i = Some (s_idx, e_idx) ∧
       s_idx < e_idx ≤ length sample_map) ∧
  (∀ i, i < BATCH_SIZE → i ∉ sample_map →
     np_where_eq sample_map i = [] ∧
     np_where_eq sample_map i !! 0 = None ∧
     mean_pooling model_output attention_mask sample_map = None).
Proof.
  assert (Hiff : is_Some (mean_pooling model_output attention_mask sample_map)
                 ↔ ∀ i, i < BATCH_SIZE → i ∈ sample_map).
  { unfold mean_pooling. rewrite mapM_is_Some, Forall_forall.
    split.
    - intros Hall i Hi.
      apply (pool_document_is_Some (last_hidden_state model_output)
               (expand_mask attention_mask)), Hall, elem_of_seq. lia.
    - intros Hall i Hi%elem_of_seq. unfold compose.
      apply pool_document_is_Some, Hall. lia. }
  split; [done|]. split.
  - intros i Hin.
    destruct (slice_bounds_Some _ _ Hin) as (s & e & Hb & Hlt & _).
    exists s, e. pose proof Hb as Hb'. unfold slice_bounds in Hb.
    destruct (np_where_eq sample_map i !! 0) as [s'|]; [|done]. simpl in Hb.
    destruct (last (np_where_eq sample_map i)) as [e'|]; [|done]. simpl in Hb.
    simplify_eq. repeat split; try done; try lia. f_equal. lia.
  - intros i Hi Hnot. pose proof (proj2 (np_where_eq_nil sample_map i) Hnot) as Hnil.
    rewrite Hnil. repeat split; try done.
    destruct (mean_pooling model_output attention_mask sample_map) eqn:Hm; [|done].
    exfalso. apply Hnot. apply Hiff; [by eexists | done].
Qed.

(** A batch of three documents: index 3 is missing from [sample_map]. *)
Example mean_pooling_short_batch :
  overflow_to_sample_mapping (Demo.tokenizer (take 3 Demo.texts16)) = [0; 0; 1; 2] ∧
  get_embeddings Demo.tokenizer Demo.sbert_model Demo.batch3 "raw_sections" = None.
Proof. split; vm_compute; reflexivity. Qed.

(** ** The denominator *)

Lemma clip_by_value_lower (t lo : Q) : (lo <= clip_by_value t lo None)%Q.
Proof. unfold clip_by_value. apply Q.le_max_r. Qed.

Lemma reduce_sum_zero (t : list (list (list Q))) :
  Forall (Forall (Forall (λ x, x == 0)%Q)) t → (reduce_sum t == 0)%Q.
Proof.
  unfold reduce_sum. intros Hzero.
  assert (Hflat : Forall (λ x, x == 0)%Q (concat (concat t))).
  { induction Hzero as [|chunk t Hchunk _ IH]; [constructor|].
    cbn [concat]. rewrite concat_app. apply Forall_app. split; [|done].
    clear -Hchunk. induction Hchunk as [|row chunk Hrow _ IH]; [constructor|].
    cbn [concat]. by apply Forall_app. }
  enough (∀ acc, foldl Qplus acc (concat (concat t)) == acc)%Q as H by apply H.
  induction Hflat as [|x l Hx _ IH]; intros acc; simpl; [reflexivity|].
  rewrite IH, Hx. ring.
Qed.

Lemma expand_mask_zero (attention_mask : list (list Z)) :
  Forall (Forall (λ m, m = 0%Z)) attention_mask →
  Forall (Forall (Forall (λ x, x == 0)%Q)) (expand_mask attention_mask).
Proof.
  unfold expand_mask. intros Hzero. apply Forall_fmap.
  eapply Forall_impl; [exact Hzero|]. intros chunk Hchunk. simpl.
  apply Forall_fmap. eapply Forall_impl; [exact Hchunk|]. intros m ->. simpl.
  by repeat constructor.
Qed.

Lemma slice_expand_mask (s_idx e_idx : nat) (attention_mask : list (list Z)) :
  slice s_idx e_idx (expand_mask attention_mask)
  = expand_mask (slice s_idx e_idx attention_mask).
Proof. unfold slice, expand_mask. by rewrite fmap_drop, fmap_take. Qed.

(** C9. Whatever the batch, the vector of a document is [sum_embeddings]
    divided, entry by entry, by a [sum_mask] that is at least [1e-7], hence
    not zero; when all mask entries of the document's chunks are zero,
    [sum_mask] is [1e-7]. *)
Theorem mean_pooling_denominator_clipped
    (model_output : ModelOutput) (attention_mask : list (list Z))
    (sample_map : list nat) (i s_idx e_idx : nat) :
  slice_bounds sample_map i = Some (s_idx, e_idx) →
  let sum_mask := sum_mask_of (expand_mask attention_mask) s_idx e_idx in
  pool_document (last_hidden_state model_output) (expand_mask attention_mask)
                sample_map i
  = Some ((λ x, x / sum_mask)%Q
            <$> sum_embeddings_of (last_hidden_state model_output)
                                  (expand_mask attention_mask) s_idx e_idx) ∧
  (clip_min <= sum_mask)%Q ∧
  (0 < sum_mask)%Q ∧
  ¬ (sum_mask == 0)%Q ∧
  (Forall (Forall (λ m, m = 0%Z)) (slice s_idx e_idx attention_mask) →
   (sum_mask == clip_min)%Q).
Proof.
  intros Hb sum_mask.
  assert (Hlow : (clip_min <= sum_mask)%Q) by apply clip_by_value_lower.
  assert (Hpos : (0 < sum_mask)%Q).
  { eapply Qlt_le_trans; [|exact Hlow]. reflexivity. }
  repeat split.
  - unfold pool_document. by rewrite Hb.
  - done.
  - done.
  - intros Hz. rewrite Hz in Hpos. by apply Qlt_irrefl in Hpos.
  - intros Hzero. unfold sum_mask, sum_mask_of, clip_by_value.
    apply Q.max_r. rewrite slice_expand_mask.
    rewrite (reduce_sum_zero _ (expand_mask_zero _ Hzero)). discriminate.
Qed.

Lemma mean_pooling_denominator_clipped_witness :
  let mask := attention_mask (Demo.tokenizer Demo.texts16) in
  let sample_map := overflow_to_sample_mapping (Demo.tokenizer Demo.texts16) in
  let model_output := Demo.sbert_model (input_ids (Demo.tokenizer Demo.texts16)) mask in
  let sum_mask := sum_mask_of (expand_mask mask) 4 7 in
  pool_document (last_hidden_state model_output) (expand_mask mask) sample_map 3
  = Some ((λ x, x / sum_mask)%Q
            <$> sum_embeddings_of (last_hidden_state model_output)
                                  (expand_mask mask) 4 7) ∧
  (clip_min <= sum_mask)%Q ∧
  (0 < sum_mask)%Q ∧
  ¬ (sum_mask == 0)%Q ∧
  (Forall (Forall (λ m, m = 0%Z)) (slice 4 7 mask) → (sum_mask == clip_min)%Q).
Proof.
  apply (mean_pooling_denominator_clipped
           (Demo.sbert_model (input_ids (Demo.tokenizer Demo.texts16))
                             (attention_mask (Demo.tokenizer Demo.texts16)))
           (attention_mask (Demo.tokenizer Demo.texts16))
           (overflow_to_sample_mapping (Demo.tokenizer Demo.texts16)) 3 4 7).
  vm_compute. reflexivity.
Defined.

(** With a mask of zeros the division is by [1e-7] and gives zeros. *)
Example mean_pooling_zero_mask :
  sum_mask_of (expand_mask [[0; 0]%Z]) 0 1 = clip_min ∧
  ∃ v, pool_document [[[5%Q; 7%Q]; [1%Q; 1%Q]]] (expand_mask [[0; 0]%Z]) [0] 0
       = Some v ∧
       Forall (λ x, x == 0)%Q v.
Proof.
  split; [reflexivity|]. eexists. split; [reflexivity|].
  repeat constructor.
Qed.

(** ** The pooled vector as a weighted average *)

(** A non-decreasing [sample_map] holds the chunks of a document side by
    side. *)
Lemma sorted_blocks (sample_map : list nat) (i : nat) :
  Sorted le sample_map →
  ∃ before n after,
    sample_map = before ++ replicate n i ++ after ∧
    Forall (λ x, x < i) before ∧ Forall (λ x, i < x) after.
Proof.
  intros Hs. apply Sorted_StronglySorted in Hs; [|intros ???; lia].
  induction Hs as [|x l _ IH Hx].
  - exists [], 0, []. split; [done|]. by split.
  - destruct IH as (before & n & after & -> & Hb & Ha).
    destruct (lt_eq_lt_dec x i) as [[Hlt| ->]|Hgt].
    + exists (x :: before), n, after. split; [done|]. split; [by constructor|done].
    + assert (before = []) as ->.
      { destruct before as [|b before]; [done|].
        apply Forall_cons in Hb as [Hb _]. apply Forall_cons in Hx as [Hx _]. lia. }
      exists [], (S n), after. split; [done|]. by split.
    + assert (before = []) as ->.
      { destruct before as [|b before]; [done|].
        apply Forall_cons in Hb as [Hb _]. apply Forall_cons in Hx as [Hx _]. lia. }
      assert (n = 0) as ->.
      { destruct n as [|n]; [done|]. simpl in Hx.
        apply Forall_cons in Hx as [Hx _]. lia. }
      exists [], 0, (x :: after). split; [done|]. split; [done|].
      by constructor.
Qed.

Lemma positions_from_app (i k : nat) (l1 l2 : list nat) :
  positions_from i k (l1 ++ l2)
  = positions_from i k l1 ++ positions_from i (k + length l1) l2.
Proof.
  unfold positions_from. rewrite imap_app, omap_app. do 2 f_equal.
  apply imap_ext. intros j x _. simpl. f_equal. lia.
Qed.

Lemma positions_from_none (i k : nat) (l : list nat) :
  Forall (λ x, x ≠ i) l → positions_from i k l = [].
Proof.
  intros Hne. destruct (positions_from i k l) as [|p ps] eqn:Hp; [done|].
  assert (p ∈ positions_from i k l) as Hin by (rewrite Hp; left).
  apply where_from in Hin as (j & _ & Hj).
  rewrite Forall_forall in Hne. exfalso.
  by apply (Hne i (list_elem_of_lookup_2 _ _ _ Hj)).
Qed.

Lemma positions_from_replicate (i k n : nat) :
  positions_from i k (replicate n i) = seq k n.
Proof.
  revert k. induction n as [|n IH]; intros k; [done|].
  change (replicate (S n) i) with ([i] ++ replicate n i).
  rewrite positions_from_app, IH. simpl.
  unfold positions_from. simpl. rewrite bool_decide_eq_true_2 by done.
  simpl. do 2 f_equal; lia.
Qed.

Lemma np_where_eq_blocks (before after : list nat) (n i : nat) :
  Forall (λ x, x < i) before → Forall (λ x, i < x) after →
  np_where_eq (before ++ replicate n i ++ after) i = seq (length before) n.
Proof.
  intros Hb Ha.
  change (np_where_eq ?l i) with (positions_from i 0 l).
  rewrite !positions_from_app, positions_from_replicate.
  rewrite !positions_from_none, app_nil_r; [done| |].
  - eapply Forall_impl; [exact Ha|]. simpl. lia.
  - eapply Forall_impl; [exact Hb|]. simpl. lia.
Qed.

Lemma document_chunks_blocks {A} (before after : list nat) (n i : nat) (t : list A) :
  Forall (λ x, x < i) before → Forall (λ x, i < x) after →
  document_chunks (before ++ replicate n i ++ after) i t
  = slice (length before) (length before + n) t.
Proof.
  intros Hb Ha. unfold slice, document_chunks.
  rewrite <- take_drop_commute. revert t.
  induction Hb as [|x before Hx _ IH]; intros t.
  - simpl. rewrite drop_0. revert t. induction n as [|n IHn]; intros t.
    + simpl. rewrite take_0. revert t.
      induction Ha as [|y after Hy _ IHa]; intros [|z t]; simpl; try done.
      rewrite bool_decide_eq_false_2 by lia. apply IHa.
    + destruct t as [|z t]; [done|]. simpl.
      rewrite bool_decide_eq_true_2 by done. f_equal. apply IHn.
  - destruct t as [|z t]; [by rewrite drop_nil, take_nil|]. simpl.
    rewrite bool_decide_eq_false_2 by lia. apply IH.
Qed.

Lemma Qmax_left (x y : Q) : (y <= x)%Q → Qmax x y = x.
Proof.
  intros Hle. unfold Qmax, GenericMinMax.gmax.
  destruct (x ?= y)%Q eqn:Hc; try done.
  apply Qlt_alt in Hc. exfalso. by apply (Qlt_not_le x y).
Qed.

(** On a non-decreasing [sample_map], the iteration for a document that has
    chunks sums over exactly the chunks of the document, and divides by the
    clipped sum of their mask entries. *)
Lemma pool_document_chunks
    (token_embeddings : list (list (list Q))) (attention_mask : list (list Z))
    (sample_map : list nat) (i : nat) :
  Sorted le sample_map →
  i ∈ sample_map →
  pool_document token_embeddings (expand_mask attention_mask) sample_map i
  = Some ((λ x, x / clip_by_value
                      (reduce_sum (document_chunks sample_map i
                                     (expand_mask attention_mask)))
                      clip_min None)%Q
            <$> reduce_sum_01
                  (tensor_mul (document_chunks sample_map i token_embeddings)
                              (document_chunks sample_map i
                                 (expand_mask attention_mask)))).
Proof.
  intros Hsorted Hin.
  destruct (sorted_blocks sample_map i Hsorted) as (before & n & after & Hsm & Hb & Ha).
  assert (Hn : 0 < n).
  { destruct n as [|n]; [|lia]. exfalso. subst sample_map. simpl in Hin.
    rewrite elem_of_app in Hin. rewrite Forall_forall in Hb, Ha.
    destruct Hin as [Hin|Hin]; [apply Hb in Hin | apply Ha in Hin]; lia. }
  assert (Hbounds : slice_bounds sample_map i
                    = Some (length before, length before + n)).
  { unfold slice_bounds. rewrite Hsm, (np_where_eq_blocks _ _ _ _ Hb Ha).
    rewrite last_lookup, length_seq, !lookup_seq_lt by lia. simpl.
    f_equal. f_equal; lia. }
  unfold pool_document. rewrite Hbounds. simpl.
  unfold sum_embeddings_of, sum_mask_of.
  rewrite Hsm. by rewrite !(document_chunks_blocks _ _ _ _ _ Hb Ha).
Qed.

Lemma document_chunks_expand_mask (attention_mask : list (list Z))
    (sample_map : list nat) (i : nat) :
  document_chunks sample_map i (expand_mask attention_mask)
  = expand_mask (document_chunks sample_map i attention_mask).
Proof.
  unfold document_chunks, expand_mask. revert attention_mask.
  induction sample_map as [|x sm IH]; intros [|chunk am]; simpl; try done.
  case_bool_decide; simpl; by rewrite IH.
Qed.

Lemma reduce_sum_expand_mask (attention_mask : list (list Z)) :
  (reduce_sum (expand_mask attention_mask)
   == inject_Z (foldr Z.add 0%Z (concat attention_mask)))%Q.
Proof.
  unfold reduce_sum.
  assert (Hflat : concat (concat (expand_mask attention_mask))
                  = inject_Z <$> concat attention_mask).
  { assert (Hrow : ∀ chunk : list Z,
              concat ((λ m, [inject_Z m]) <$> chunk) = inject_Z <$> chunk).
    { induction chunk as [|m chunk IH]; [done|]. rewrite !fmap_cons. cbn [concat].
      by rewrite IH. }
    unfold expand_mask. induction attention_mask as [|chunk am IH]; [done|].
    rewrite fmap_cons. cbn [concat]. by rewrite concat_app, fmap_app, IH, Hrow. }
  rewrite Hflat.
  enough (∀ l acc, foldl Qplus acc (inject_Z <$> l)
                   == acc + inject_Z (foldr Z.add 0%Z l))%Q as H.
  { rewrite H. ring. }
  induction l as [|m l IH]; intros acc; simpl.
  - ring.
  - rewrite IH, inject_Z_plus. ring.
Qed.

(** *** From the tensor operations to sums over the tokens *)

Lemma Qsum_ext {A} (f g : A → Q) (l : list A) :
  (∀ x, x ∈ l → f x == g x)%Q → (Qsum (f <$> l) == Qsum (g <$> l))%Q.
Proof.
  induction l as [|x l IH]; intros Hfg; simpl; [reflexivity|].
  rewrite (Hfg x) by left. rewrite IH; [reflexivity|].
  intros y Hy. apply Hfg. by right.
Qed.

Lemma vadd_lookup (u v : list Q) (j : nat) (x y : Q) :
  u !! j = Some x → v !! j = Some y → vadd u v !! j = Some (x + y)%Q.
Proof.
  revert v j. induction u as [|a u IH]; intros [|b v] [|j]; simpl; try done.
  - by intros [= ->] [= ->].
  - apply IH.
Qed.

Lemma vadd_same_length (u v : list Q) :
  length u = length v → length (vadd u v) = length v.
Proof.
  revert v. induction u as [|a u IH]; intros [|b v]; simpl; try done.
  intros [= Hlen]. by rewrite IH.
Qed.

(** [reduce_sum_01], one hidden unit at a time. *)
Lemma foldl_vadd_length (h : nat) (acc : list Q) (vs : list (list Q)) :
  length acc = h → Forall (λ v, length v = h) vs →
  length (foldl vadd acc vs) = h.
Proof.
  intros Hacc Hvs. revert acc Hacc.
  induction Hvs as [|v vs Hv _ IH]; intros acc Hacc; simpl; [done|].
  apply IH. rewrite vadd_same_length; congruence.
Qed.

Lemma foldl_vadd_lookup (h : nat) (acc : list Q) (vs : list (list Q))
    (j : nat) (x : Q) :
  length acc = h → Forall (λ v, length v = h) vs →
  acc !! j = Some x →
  ∃ y, foldl vadd acc vs !! j = Some y ∧
       (y == x + Qsum ((λ v, default 0 (v !! j)) <$> vs))%Q.
Proof.
  intros Hacc Hvs. revert acc x Hacc.
  induction Hvs as [|v vs Hv _ IH]; intros acc x Hacc Hx.
  - exists x. split; [done|]. simpl. ring.
  - destruct (lookup_lt_is_Some_2 v j) as [y Hy].
    { apply lookup_lt_Some in Hx. lia. }
    destruct (IH (vadd acc v) (x + y)%Q) as (z & Hz & Hsum).
    + rewrite vadd_same_length; congruence.
    + by apply vadd_lookup.
    + exists z. split; [done|]. rewrite Hsum, fmap_cons, Hy.
      unfold Qsum. cbn [foldr from_option id]. ring.
Qed.

Lemma reduce_sum_01_units (h : nat) (vs : list (list Q)) :
  vs ≠ [] → Forall (λ v, length v = h) vs →
  Forall2 Qeq (foldl vadd [] vs)
    ((λ j, Qsum ((λ v : list Q, default 0%Q (v !! j)) <$> vs)) <$> seq 0 h).
Proof.
  intros Hne Hvs. destruct Hvs as [|v vs Hv Hvs]; [done|]. simpl.
  apply Forall2_same_length_lookup_2.
  - rewrite length_fmap, length_seq. by apply foldl_vadd_length.
  - intros j x y Hx Hy. rewrite list_lookup_fmap in Hy.
    destruct (seq 0 h !! j) as [j'|] eqn:Hj; [|done].
    apply lookup_seq in Hj as [-> _]. simpl in Hy. injection Hy as <-.
    destruct (lookup_lt_is_Some_2 v j) as [x0 Hx0].
    { apply lookup_lt_Some in Hx.
      rewrite (foldl_vadd_length h v vs Hv Hvs) in Hx. lia. }
    destruct (foldl_vadd_lookup h v vs j x0 Hv Hvs Hx0) as (z & Hz & Hsum).
    rewrite Hx in Hz. injection Hz as <-. by rewrite Hsum, Hx0.
Qed.

(** The product of the embeddings with the expanded mask, token by token. *)
Lemma tensor_mul_tokens (embeddings : list (list (list Q))) (mask : list (list Z)) :
  concat (tensor_mul embeddings (expand_mask mask))
  = (λ token : Z * list Q, (λ y, y * inject_Z token.1)%Q <$> token.2)
      <$> concat (zip_with zip mask embeddings).
Proof.
  assert (Hrow : ∀ (chunk : list (list Q)) (ms : list Z),
            zip_with mul_row chunk ((λ m, [inject_Z m]) <$> ms)
            = (λ token : Z * list Q, (λ y, y * inject_Z token.1)%Q <$> token.2)
                <$> zip ms chunk).
  { induction chunk as [|v chunk IH]; intros [|m ms]; simpl; try done.
    by rewrite IH. }
  unfold tensor_mul, expand_mask. revert mask.
  induction embeddings as [|chunk embeddings IH]; intros [|ms mask]; simpl; try done.
  by rewrite fmap_app, IH, Hrow.
Qed.

Lemma zip_chunks_masks (mask : list (list Z)) (embeddings : list (list (list Q))) :
  Forall2 (λ ms chunk, length ms = length chunk) mask embeddings →
  (concat (zip_with zip mask embeddings)).*1 = concat mask.
Proof.
  induction 1 as [|ms chunk mask embeddings Hlen _ IH]; simpl; [done|].
  rewrite fmap_app, IH. f_equal. apply fst_zip. lia.
Qed.

Lemma document_chunks_Forall {A} (P : A → Prop) (sample_map : list nat) (i : nat)
    (t : list A) :
  Forall P t → Forall P (document_chunks sample_map i t).
Proof.
  intros Hall. apply Forall_forall. intros x Hx. unfold document_chunks in Hx.
  apply list_elem_of_omap in Hx as ([k y] & Hin & Hy). simpl in Hy.
  case_bool_decide; [|done]. simplify_eq.
  apply elem_of_zip_r in Hin. rewrite Forall_forall in Hall. by apply Hall.
Qed.

Lemma document_chunks_length {A B} (sample_map : list nat) (i : nat)
    (t : list A) (t' : list B) :
  length t = length t' →
  length (document_chunks sample_map i t) = length (document_chunks sample_map i t').
Proof.
  unfold document_chunks. revert t t'.
  induction sample_map as [|x sm IH]; intros [|y t] [|y' t']; simpl; try done.
  intros [= Hlen]. case_bool_decide; simpl; [f_equal|]; by apply IH.
Qed.

Lemma document_chunks_nonempty {A} (sample_map : list nat) (i : nat) (t : list A) :
  length t = length sample_map → i ∈ sample_map →
  document_chunks sample_map i t ≠ [].
Proof.
  unfold document_chunks. revert t.
  induction sample_map as [|x sm IH]; intros [|y t] Hlen Hin; simpl in *; try done.
  - by apply elem_of_nil in Hin.
  - case_bool_decide as Hx; [done|]. simpl. apply IH; [lia|].
    apply elem_of_cons in Hin as [->|Hin]; done.
Qed.

(** The tokens of a document under the shapes of the tensors: they are not
    empty, each has [h] hidden units, and their mask entries are the mask
    entries of the chunks of the document. *)
Lemma document_tokens_shape (n s h : nat) (token_embeddings : list (list (list Q)))
    (attention_mask : list (list Z)) (sample_map : list nat) (i : nat) :
  tensor_shape n s h token_embeddings → mask_shape n s attention_mask →
  length sample_map = n → 0 < s → i ∈ sample_map →
  let tokens := document_tokens token_embeddings attention_mask sample_map i in
  tokens ≠ [] ∧ Forall (λ token, length token.2 = h) tokens ∧
  tokens.*1 = concat (document_chunks sample_map i attention_mask).
Proof.
  intros [Hn Hshape] [Hm Hmask] Hsm Hs Hin. unfold document_tokens.
  pose proof (document_chunks_Forall _ sample_map i _ Hshape) as HE.
  pose proof (document_chunks_Forall _ sample_map i _ Hmask) as HM.
  pose proof (document_chunks_length sample_map i attention_mask token_embeddings
                ltac:(lia)) as Hlen.
  pose proof (document_chunks_nonempty sample_map i attention_mask ltac:(lia) Hin)
    as Hne.
  remember (document_chunks sample_map i token_embeddings) as E eqn:HeqE.
  remember (document_chunks sample_map i attention_mask) as M eqn:HeqM.
  clear HeqE HeqM. simpl.
  assert (Hpair : Forall2 (λ ms chunk, length ms = length chunk) M E).
  { apply Forall2_same_length_lookup_2; [done|]. intros k ms chunk Hms Hchunk.
    rewrite Forall_forall in HM. rewrite Forall_forall in HE.
    rewrite (HM ms (list_elem_of_lookup_2 _ _ _ Hms)).
    by destruct (HE chunk (list_elem_of_lookup_2 _ _ _ Hchunk)) as [-> _]. }
  split; [|split].
  - destruct Hpair as [|ms chunk M E Hmc _]; [done|]. simpl.
    apply Forall_cons in HM as [Hms _]. destruct ms as [|m ms]; [simpl in *; lia|].
    destruct chunk as [|v chunk]; [done|]. done.
  - clear Hne Hlen HM. induction Hpair as [|ms chunk M E _ _ IH]; simpl; [constructor|].
    apply Forall_cons in HE as [[_ Hchunk] HE]. apply Forall_app. split; [|by apply IH].
    apply Forall_forall. intros [m v] Hmv. apply elem_of_zip_r in Hmv.
    rewrite Forall_forall in Hchunk. by apply Hchunk.
  - by apply zip_chunks_masks.
Qed.

Lemma mask_total_masks (tokens : list (Z * list Q)) :
  (mask_total tokens == inject_Z (foldr Z.add 0%Z tokens.*1))%Q.
Proof.
  unfold mask_total.
  induction tokens as [|token tokens IH]; simpl; [reflexivity|].
  unfold Qsum in IH. by rewrite IH, inject_Z_plus.
Qed.

(** The hypothesis on the mask holds for a mask of zeros and ones that has a
    one among the tokens of the document, as a tokenizer produces it. *)
Lemma mask_total_binary (tokens : list (Z * list Q)) :
  Forall (λ token, token.1 = 0 ∨ token.1 = 1)%Z tokens →
  Exists (λ token, token.1 = 1%Z) tokens →
  (clip_min <= mask_total tokens)%Q.
Proof.
  intros Hbin Hone. rewrite mask_total_masks.
  assert (Hge : (1 <= foldr Z.add 0 tokens.*1)%Z).
  { assert (Hnn : ∀ l : list (Z * list Q),
              Forall (λ token, token.1 = 0 ∨ token.1 = 1)%Z l →
              (0 <= foldr Z.add 0 l.*1)%Z).
    { induction 1 as [|token l Hm _ IH]; [done|].
      rewrite fmap_cons. cbn [foldr]. lia. }
    induction Hone as [token l Hm|token l _ IH];
      apply Forall_cons in Hbin as [Hm' Hl]; rewrite fmap_cons; cbn [foldr].
    - specialize (Hnn l Hl). lia.
    - specialize (IH Hl). lia. }
  apply Qle_trans with (y := inject_Z 1); [discriminate|].
  rewrite <- Zle_Qle. done.
Qed.

(** The iteration of [mean_pooling] for a document whose mask entries sum
    to at least [1e-7] computes the weighted average of the specification,
    one hidden unit at a time. *)
Lemma pool_document_weighted_average (n s h : nat)
    (token_embeddings : list (list (list Q))) (attention_mask : list (list Z))
    (sample_map : list nat) (i : nat) :
  Sorted le sample_map →
  tensor_shape n s h token_embeddings → mask_shape n s attention_mask →
  length sample_map = n → 0 < s → i ∈ sample_map →
  let tokens := document_tokens token_embeddings attention_mask sample_map i in
  (clip_min <= mask_total tokens)%Q →
  ∃ v, pool_document token_embeddings (expand_mask attention_mask) sample_map i
       = Some v ∧
       Forall2 Qeq v (weighted_average tokens <$> seq 0 h).
Proof.
  intros Hsorted Hte Ham Hsm Hs Hin tokens Hclip.
  destruct (document_tokens_shape n s h _ _ _ i Hte Ham Hsm Hs Hin)
    as (Hne & Hunits & Hmasks). fold tokens in Hne, Hunits, Hmasks.
  rewrite pool_document_chunks by done. eexists. split; [reflexivity|].
  rewrite document_chunks_expand_mask.
  assert (Htotal : (reduce_sum (expand_mask (document_chunks sample_map i attention_mask))
                    == mask_total tokens)%Q).
  { by rewrite reduce_sum_expand_mask, <- Hmasks, mask_total_masks. }
  unfold clip_by_value. rewrite Qmax_left by (by rewrite Htotal).
  unfold reduce_sum_01. rewrite tensor_mul_tokens.
  change (concat (zip_with zip (document_chunks sample_map i attention_mask)
                    (document_chunks sample_map i token_embeddings)))
    with tokens.
  set (scaled := λ token : Z * list Q, (λ y, y * inject_Z token.1)%Q <$> token.2).
  assert (Hsums : Forall2 Qeq (foldl vadd [] (scaled <$> tokens))
                    ((λ j, Qsum ((λ v : list Q, default 0%Q (v !! j))
                                   <$> (scaled <$> tokens))) <$> seq 0 h)).
  { apply reduce_sum_01_units.
    - by destruct tokens.
    - apply Forall_fmap. eapply Forall_impl; [exact Hunits|].
      intros token Hlen. unfold scaled. simpl. by rewrite length_fmap. }
  apply Forall2_same_length_lookup_2.
  - apply Forall2_length in Hsums. rewrite length_fmap in Hsums.
    rewrite !length_fmap. exact Hsums.
  - intros j x y Hx Hy. rewrite list_lookup_fmap in Hx. rewrite list_lookup_fmap in Hy.
    destruct (foldl vadd [] (scaled <$> tokens) !! j) as [x0|] eqn:Hx0;
      [|simpl in Hx; discriminate Hx].
    destruct (seq 0 h !! j) as [j'|] eqn:Hj; [|simpl in Hy; discriminate Hy].
    simpl in Hx, Hy. injection Hx as <-. injection Hy as <-.
    assert (Hu : (x0 == Qsum ((λ v : list Q, default 0%Q (v !! j'))
                                <$> (scaled <$> tokens)))%Q).
    { eapply (Forall2_lookup_lr _ _ _ j _ _ Hsums Hx0).
      by rewrite list_lookup_fmap, Hj. }
    rewrite Hu, Htotal. unfold weighted_average, weighted_sum.
    apply Qdiv_comp; [|reflexivity].
    rewrite <- list_fmap_compose. apply Qsum_ext. intros token _.
    unfold compose, scaled. rewrite list_lookup_fmap.
    destruct (token.2 !! j') as [e|]; simpl; ring.
Qed.

(** C3, as the code has it.  For a batch that [get_embeddings] maps to a
    result, with the chunks of each document side by side in
    [overflow_to_sample_mapping], there is a vector for each of the first
    [BATCH_SIZE] documents and for no other document.  When the token
    embeddings and the mask have one shape, the vector of a document whose
    mask entries sum to at least [1e-7] is, hidden unit by hidden unit, the
    weighted average of the specification: the sum over the tokens of the
    chunks of the document of the embedding times the mask entry, divided by
    the sum of these mask entries. *)
Theorem get_embeddings_weighted_average
    (tokenizer : list string → Encoding)
    (sbert_model : list (list Z) → list (list Z) → ModelOutput)
    (data : gmap string (list string)) (col_name : string)
    (texts : list string) (r : Embedded) :
  data !! col_name = Some texts →
  Sorted le (overflow_to_sample_mapping (tokenizer texts)) →
  get_embeddings tokenizer sbert_model data col_name = Some r →
  let encoded_input := tokenizer texts in
  let sample_map := overflow_to_sample_mapping encoded_input in
  let mask := attention_mask encoded_input in
  let token_embeddings :=
    last_hidden_state (sbert_model (input_ids encoded_input) mask) in
  length (emb_vectors r) = BATCH_SIZE ∧
  (∀ i, i < BATCH_SIZE → i ∈ sample_map) ∧
  (∀ i, BATCH_SIZE ≤ i → emb_vectors r !! i = None) ∧
  ∀ n s h,
    tensor_shape n s h token_embeddings → mask_shape n s mask →
    length sample_map = n → 0 < s →
    ∀ i, i < BATCH_SIZE →
         let tokens := document_tokens token_embeddings mask sample_map i in
         (clip_min <= mask_total tokens)%Q →
         ∃ v, emb_vectors r !! i = Some v ∧
              Forall2 Qeq v (weighted_average tokens <$> seq 0 h).
Proof.
  intros Htexts Hsorted Hrun. simpl.
  unfold get_embeddings, encoder_input in Hrun. rewrite Htexts in Hrun. simpl in Hrun.
  destruct (data !! "cik") as [cik|]; [|done]. simpl in Hrun.
  destruct (data !! "year") as [year|]; [|done]. simpl in Hrun.
  destruct (data !! "section") as [section|]; [|done]. simpl in Hrun.
  destruct (mean_pooling _ _ _) as [vectors|] eqn:Hpool; [|done].
  simpl in Hrun. simplify_eq. simpl.
  unfold mean_pooling in Hpool. apply mapM_Some_1 in Hpool.
  assert (Hlen : length vectors = BATCH_SIZE).
  { apply Forall2_length in Hpool. by rewrite length_seq in Hpool. }
  assert (Hall : ∀ i, i < BATCH_SIZE →
                      i ∈ overflow_to_sample_mapping (tokenizer texts)).
  { intros i Hi.
    destruct (Forall2_lookup_l _ _ _ i i Hpool) as (v & Hv & Hdoc);
      [by apply lookup_seq_lt|].
    apply (pool_document_is_Some
             (last_hidden_state
                (sbert_model (input_ids (tokenizer texts))
                   (attention_mask (tokenizer texts))))
             (expand_mask (attention_mask (tokenizer texts)))).
    rewrite Hdoc. by eexists. }
  split; [done|]. split; [done|]. split.
  - intros i Hi. apply lookup_ge_None. lia.
  - intros n s h Hte Ham Hsm Hs i Hi Hmask.
    destruct (Forall2_lookup_l _ _ _ i i Hpool) as (v & Hv & Hdoc);
      [by apply lookup_seq_lt|].
    destruct (pool_document_weighted_average n s h _ _ _ i Hsorted Hte Ham Hsm Hs
                (Hall i Hi) Hmask) as (v' & Hv' & Havg).
    exists v. split; [done|]. rewrite Hv' in Hdoc. by injection Hdoc as <-.
Qed.

Lemma get_embeddings_weighted_average_witness :
  let encoded_input := Demo.tokenizer Demo.texts16 in
  let sample_map := overflow_to_sample_mapping encoded_input in
  let mask := attention_mask encoded_input in
  let token_embeddings :=
    last_hidden_state (Demo.sbert_model (input_ids encoded_input) mask) in
  let tokens := document_tokens token_embeddings mask sample_map 3 in
  let r := default (mkEmbedded [] [] [] "" [])
             (get_embeddings Demo.tokenizer Demo.sbert_model Demo.batch16
                "raw_sections") in
  length (emb_vectors r) = BATCH_SIZE ∧
  ∃ v, emb_vectors r !! 3 = Some v ∧
       Forall2 Qeq v (weighted_average tokens <$> seq 0 2).
Proof.
  destruct (get_embeddings_weighted_average Demo.tokenizer Demo.sbert_model
              Demo.batch16 "raw_sections" Demo.texts16
              (default (mkEmbedded [] [] [] "" [])
                 (get_embeddings Demo.tokenizer Demo.sbert_model Demo.batch16
                    "raw_sections")))
    as (Hlen & _ & _ & Hvec).
  - reflexivity.
  - apply (bool_decide_unpack _). vm_compute. exact I.
  - vm_compute. reflexivity.
  - split; [exact Hlen|]. apply (Hvec 20 4 2).
    + unfold tensor_shape. apply (bool_decide_unpack _). vm_compute. exact I.
    + unfold mask_shape. apply (bool_decide_unpack _). vm_compute. exact I.
    + vm_compute. reflexivity.
    + lia.
    + unfold BATCH_SIZE. lia.
    + vm_compute. discriminate.
Defined.

(** A batch of seventeen documents meets every hypothesis, and
    [get_embeddings] returns on it with seventeen keys and sixteen vectors:
    the last document, which has a chunk and a text of its own, has no
    vector.  A batch of three documents raises. *)
Lemma get_embeddings_weighted_average_counterexample :
  let encoded_input := Demo.tokenizer Demo.texts17 in
  let sample_map := overflow_to_sample_mapping encoded_input in
  ∃ r,
    Demo.batch17 !! "raw_sections" = Some Demo.texts17 ∧
    Demo.texts17 !! 16 = Some "zz" ∧
    Sorted le sample_map ∧ 16 ∈ sample_map ∧
    get_embeddings Demo.tokenizer Demo.sbert_model Demo.batch17 "raw_sections"
    = Some r ∧
    length (emb_cik r) = 17 ∧
    length (emb_vectors r) = 16 ∧
    emb_vectors r !! 16 = None ∧
    get_embeddings Demo.tokenizer Demo.sbert_model Demo.batch3 "raw_sections"
    = None.
Proof.
  simpl. eexists. split; [reflexivity|]. split; [reflexivity|].
  split; [apply (bool_decide_unpack _); vm_compute; exact I|].
  split; [apply (bool_decide_unpack _); vm_compute; exact I|].
  split; [vm_compute; reflexivity|].
  repeat split; vm_compute; reflexivity.
Qed.

(** The fourth document of the demo batch: three chunks, eleven tokens with
    a mask entry of one, and one padding token. *)
Example weighted_average_demo :
  let encoded_input := Demo.tokenizer Demo.texts16 in
  let sample_map := overflow_to_sample_mapping encoded_input in
  let mask := attention_mask encoded_input in
  let token_embeddings :=
    last_hidden_state (Demo.sbert_model (input_ids encoded_input) mask) in
  let tokens := document_tokens token_embeddings mask sample_map 3 in
  sample_map
  = [0; 0; 1; 2; 3; 3; 3; 4; 5; 6; 7; 8; 9; 10; 10; 11; 12; 13; 14; 15] ∧
  length tokens = 12 ∧
  (mask_total tokens == 11)%Q ∧
  (weighted_average tokens 0 == 614 # 11)%Q ∧
  (weighted_average tokens 1 == 1)%Q ∧
  (emb_vectors <$> get_embeddings Demo.tokenizer Demo.sbert_model Demo.batch16
                     "raw_sections") ≫= (.!! 3)
  = Some [614 # 11; 11 # 11].
Proof. repeat split; vm_compute; reflexivity. Qed.

(** ** [eval_model] *)

Section EvalModelFacts.

Context {Vector Sim : Type}.
Variable simple_preprocess : string → list string.

Local Abbreviation Key := (string * string * string)%type.
Local Abbreviation Top :=
  (gmap (string * string * string) (string * string * string * Sim)).

(** The loop is a fold of [add_entry] over the entries of the documents. *)
Lemma eval_loop_entries (test train : Corpus) (model : Doc2Vec Vector Sim)
    (topn : nat) (doc_ids : list nat) (st : EvalState Sim) :
  eval_loop simple_preprocess test train model topn doc_ids st
  = entries ← mapM (doc_entry simple_preprocess test train model topn) doc_ids;
    Some (foldl add_entry st entries).
Proof.
  revert st. induction doc_ids as [|doc_id rest IH]; intros st; [done|].
  cbn [eval_loop mapM]. unfold eval_doc.
  destruct (doc_entry simple_preprocess test train model topn doc_id) as [e|];
    [|done].
  simpl. rewrite IH.
  by destruct (mapM (doc_entry simple_preprocess test train model topn) rest).
Qed.

Lemma top_foldl_snoc (st : EvalState Sim) (entries : list (DocEntry Sim))
    (e : DocEntry Sim) :
  top (foldl add_entry st (entries ++ [e]))
  = <[entry_key e := entry_value e]> (top (foldl add_entry st entries)).
Proof. by rewrite foldl_app. Qed.

(** [top] is a dict: one entry per key, the last document of a key wins. *)
Lemma top_foldl_lookup (st : EvalState Sim) (entries : list (DocEntry Sim)) (k : Key) :
  top (foldl add_entry st entries) !! k
  = match last (filter (λ e, entry_key e = k) entries) with
    | Some e => Some (entry_value e)
    | None => top st !! k
    end.
Proof.
  induction entries as [|e entries IH] using rev_ind; [done|].
  rewrite top_foldl_snoc, filter_app, filter_cons, filter_nil.
  destruct (decide (entry_key e = k)) as [<-|Hne].
  - by rewrite lookup_insert_eq, last_snoc.
  - rewrite lookup_insert_ne by done. by rewrite app_nil_r.
Qed.

Lemma top_foldl_size (entries : list (DocEntry Sim)) :
  let t := top (foldl add_entry {| top := ∅; sim_docs := ∅ |} entries) in
  size t ≤ length entries ∧ (entries ≠ [] → 0 < size t).
Proof.
  cbv zeta. induction entries as [|e entries IH] using rev_ind.
  - split; [cbn [foldl top]; by rewrite map_size_empty | done].
  - rewrite top_foldl_snoc, length_app. simpl. destruct IH as [IH _]. split.
    + destruct (top (foldl add_entry {| top := ∅; sim_docs := ∅ |} entries)
                  !! entry_key e) eqn:Hk.
      * rewrite map_size_insert_Some by done. lia.
      * rewrite map_size_insert_None by done. lia.
    + intros _. apply Nat.neq_0_lt_0. intros Hz%map_size_empty_inv.
      by apply insert_non_empty in Hz.
Qed.

(** A counting loop over a dict counts the entries that pass its test. *)
Lemma count_loop (P : Key * (Key * Sim) → Prop) `{!∀ kv, Decision (P kv)}
    (f : Key → Key * Sim → nat → nat) (t : Top) :
  (∀ k v n, f k v n = if decide (P (k, v)) then S n else n) →
  map_fold f 0 t = size (filter P t).
Proof.
  intros Hf. apply (map_fold_weak_ind (λ n m, n = size (filter P m))).
  - by rewrite map_filter_empty, map_size_empty.
  - intros k v m n Hk ->. rewrite Hf. case_decide as Hp.
    + rewrite map_filter_insert_True by done.
      rewrite map_size_insert_None; [done|].
      by rewrite map_lookup_filter, Hk.
    + rewrite map_filter_insert_not' by (done || by intros ? ?; simplify_eq).
      done.
Qed.

Lemma count_same_document_size (t : Top) :
  count_same_document t = size (filter (λ kv : Key * (Key * Sim), kv.2.1 = kv.1) t).
Proof.
  unfold count_same_document. apply count_loop.
  intros [[c y] s] [[[c' y'] s'] sim] n. simpl.
  repeat case_bool_decide; case_decide; simplify_eq/=; done.
Qed.

Lemma count_same_company_size (t : Top) :
  count_same_company t
  = size (filter (λ kv : Key * (Key * Sim), kv.2.1.1.1 = kv.1.1.1) t).
Proof.
  unfold count_same_company. apply count_loop.
  intros [[c y] s] [[[c' y'] s'] sim] n. simpl.
  repeat case_bool_decide; case_decide; simplify_eq/=; done.
Qed.

Lemma filter_size_le (P : Key * (Key * Sim) → Prop) `{!∀ kv, Decision (P kv)}
    (t : Top) :
  size (filter P t) ≤ size t.
Proof. apply map_subseteq_size, map_filter_subseteq. Qed.

(** With pairwise distinct keys no entry is overwritten. *)
Lemma top_foldl_distinct (P : Key * (Key * Sim) → Prop) `{!∀ kv, Decision (P kv)}
    (entries : list (DocEntry Sim)) :
  NoDup (entry_key <$> entries) →
  let t := top (foldl add_entry {| top := ∅; sim_docs := ∅ |} entries) in
  size t = length entries ∧
  size (filter P t)
  = length (filter (λ e, P (entry_key e, entry_value e)) entries).
Proof.
  cbv zeta. induction entries as [|e entries IH] using rev_ind; intros Hnd.
  - cbn [foldl top]. by rewrite map_filter_empty, map_size_empty.
  - rewrite fmap_app in Hnd. apply NoDup_app in Hnd as (Hnd & Hfresh & _).
    destruct (IH Hnd) as [IH1 IH2]. clear IH.
    assert (Hnone : top (foldl add_entry {| top := ∅; sim_docs := ∅ |} entries)
                      !! entry_key e = None).
    { rewrite top_foldl_lookup.
      destruct (last (filter (λ e0, entry_key e0 = entry_key e) entries))
        as [e'|] eqn:Hlast; [|apply lookup_empty].
      apply last_Some_elem_of, list_elem_of_filter in Hlast as [Hk Hin].
      exfalso. apply (Hfresh (entry_key e)).
      - rewrite <- Hk. by apply list_elem_of_fmap_2.
      - left. }
    rewrite top_foldl_snoc, filter_app, !length_app, filter_cons, filter_nil.
    split.
    + rewrite map_size_insert_None by done. simpl. lia.
    + case_decide as Hp.
      * rewrite map_filter_insert_True by done.
        rewrite map_size_insert_None by (by rewrite map_lookup_filter, Hnone).
        simpl. lia.
      * rewrite map_filter_insert_not' by (done || by rewrite Hnone).
        simpl. lia.
Qed.

Lemma ratio_bounds (n d : nat) : n ≤ d → 0 < d → (0 <= ratio n d <= 1)%Q.
Proof.
  intros Hle Hd. unfold ratio. split.
  - apply Qle_shift_div_l.
    + change 0%Q with (inject_Z 0). rewrite <- Zlt_Qlt. lia.
    + rewrite Qmult_0_l. change 0%Q with (inject_Z 0). rewrite <- Zle_Qle. lia.
  - apply Qle_shift_div_r.
    + change 0%Q with (inject_Z 0). rewrite <- Zlt_Qlt. lia.
    + rewrite Qmult_1_l. rewrite <- Zle_Qle. lia.
Qed.

End EvalModelFacts.

Section EvalModelAccuracy.

Context {Vector Sim : Type}.
Variable simple_preprocess : string → list string.

(** C1, as the code has it. On a non-empty test corpus whose documents can
    all be looked up, [eval_model] prints two percentages.  Each is 100
    times a ratio between 0 and 1: the number of entries of [top] whose
    stored first retrieval has the key (the company) of the entry, divided
    by the number of entries of [top].  [top] holds one entry per key, the
    last document evaluated with it; when the keys of the test documents
    are pairwise distinct, the entries are the evaluated documents. *)
Theorem eval_model_accuracies (test train : Corpus) (model : Doc2Vec Vector Sim)
    (topn : nat) (entries : list (DocEntry Sim)) :
  0 < Corpus_len test →
  mapM (doc_entry simple_preprocess test train model topn)
       (seq 0 (Corpus_len test)) = Some entries →
  ∃ r,
    eval_model simple_preprocess test train model topn = Some r ∧
    let t := top (returned r) in
    let hits_doc :=
      size (filter (λ kv : _ * (_ * Sim), kv.2.1 = kv.1) t) in
    let hits_cik :=
      size (filter (λ kv : _ * (_ * Sim), kv.2.1.1.1 = kv.1.1.1) t) in
    (∀ k, t !! k = entry_value <$> last (filter (λ e, entry_key e = k) entries)) ∧
    0 < size t ≤ Corpus_len test ∧
    printed_same_document r = (ratio hits_doc (size t) * 100)%Q ∧
    printed_same_company r = (ratio hits_cik (size t) * 100)%Q ∧
    (0 <= ratio hits_doc (size t) <= 1)%Q ∧
    (0 <= ratio hits_cik (size t) <= 1)%Q ∧
    (NoDup (entry_key <$> entries) →
       size t = Corpus_len test ∧
       hits_doc = hits_same_document entries ∧
       hits_cik = hits_same_company entries).
Proof.
  intros Hlen Hentries.
  pose proof (length_mapM _ _ _ Hentries) as Hn. rewrite length_seq in Hn.
  set (st := foldl add_entry {| top := ∅; sim_docs := ∅ |} entries).
  destruct (top_foldl_size entries) as [Hsize Hpos]. fold st in Hsize, Hpos.
  assert (Hne : entries ≠ []) by (intros ->; simpl in Hn; lia).
  specialize (Hpos Hne).
  assert (Hrun : eval_model simple_preprocess test train model topn
            = Some {| printed_same_document :=
                        (ratio (count_same_document (top st)) (size (top st)) * 100)%Q;
                      printed_same_company :=
                        (ratio (count_same_company (top st)) (size (top st)) * 100)%Q;
                      returned := st |}).
  { unfold eval_model. rewrite eval_loop_entries, Hentries. simpl. fold st.
    unfold percentage. rewrite bool_decide_eq_false_2 by lia. done. }
  eexists. split; [exact Hrun|]. cbn [returned printed_same_document printed_same_company].
  rewrite count_same_document_size, count_same_company_size.
  split.
  { intros k. unfold st. rewrite top_foldl_lookup.
    by destruct (last (filter (λ e, entry_key e = k) entries)). }
  split; [lia|]. split; [done|]. split; [done|].
  split; [apply ratio_bounds; [apply filter_size_le | done]|].
  split; [apply ratio_bounds; [apply filter_size_le | done]|].
  intros Hnd. subst st.
  destruct (top_foldl_distinct (λ kv, kv.2.1 = kv.1) entries Hnd) as [E1 E2].
  destruct (top_foldl_distinct (λ kv, kv.2.1.1.1 = kv.1.1.1) entries Hnd) as [_ E3].
  cbv zeta in E1, E2, E3. rewrite E1, E2, E3. done.
Qed.

End EvalModelAccuracy.

Lemma eval_model_accuracies_witness :
  ∃ r,
    eval_model String.words (Demo.corpus Demo.train_table)
               (Demo.corpus Demo.train_table) Demo.model 10 = Some r ∧
    let entries :=
      default [] (mapM (doc_entry String.words (Demo.corpus Demo.train_table)
                          (Demo.corpus Demo.train_table) Demo.model 10)
                       (seq 0 2)) in
    let t := top (returned r) in
    let hits_doc := size (filter (λ kv : _ * (_ * Q), kv.2.1 = kv.1) t) in
    let hits_cik := size (filter (λ kv : _ * (_ * Q), kv.2.1.1.1 = kv.1.1.1) t) in
    0 < size t ≤ Corpus_len (Demo.corpus Demo.train_table) ∧
    printed_same_document r = (ratio hits_doc (size t) * 100)%Q ∧
    printed_same_company r = (ratio hits_cik (size t) * 100)%Q ∧
    (0 <= ratio hits_doc (size t) <= 1)%Q ∧
    (0 <= ratio hits_cik (size t) <= 1)%Q ∧
    size t = Corpus_len (Demo.corpus Demo.train_table) ∧
    hits_doc = hits_same_document entries ∧
    hits_cik = hits_same_company entries.
Proof.
  destruct (eval_model_accuracies String.words (Demo.corpus Demo.train_table)
              (Demo.corpus Demo.train_table) Demo.model 10
              (default [] (mapM (doc_entry String.words (Demo.corpus Demo.train_table)
                                   (Demo.corpus Demo.train_table) Demo.model 10)
                                (seq 0 2))))
    as (r & Hr & _ & Hsize & Hp1 & Hp2 & Hb1 & Hb2 & Hdistinct).
  - vm_compute. lia.
  - vm_compute. reflexivity.
  - exists r. split; [exact Hr|]. cbv zeta.
    split; [exact Hsize|]. split; [exact Hp1|]. split; [exact Hp2|].
    split; [exact Hb1|]. split; [exact Hb2|].
    apply Hdistinct. apply (bool_decide_unpack _). vm_compute. exact I.
Defined.

(** C1 as stated fails. The validation sample [Demo.valid_table] has three
    documents, the first drawn twice; two of the three retrieve themselves
    first, and all three evaluations are made.  [top] keeps two entries, one
    of them matching, and the printed value is 50, not two thirds and not
    two thirds of 100; it is not in the interval from 0 to 1 either. *)
Lemma eval_model_accuracies_counterexample :
  let test := Demo.corpus Demo.valid_table in
  let train := Demo.corpus Demo.train_table in
  ∃ entries r,
    Corpus_len test = 3 ∧
    mapM (doc_entry String.words test train Demo.model 10) (seq 0 3) = Some entries ∧
    hits_same_document entries = 2 ∧
    eval_model String.words test train Demo.model 10 = Some r ∧
    size (top (returned r)) = 2 ∧
    (printed_same_document r == 50)%Q ∧
    ¬ (printed_same_document r == ratio 2 3)%Q ∧
    ¬ (printed_same_document r == ratio 2 3 * 100)%Q ∧
    ¬ (printed_same_document r <= 1)%Q.
Proof.
  do 2 eexists. split; [reflexivity|].
  split; [vm_compute; reflexivity|].
  split; [vm_compute; reflexivity|].
  split; [vm_compute; reflexivity|].
  split; [vm_compute; reflexivity|].
  repeat split; vm_compute; congruence.
Qed.

(** ** The order of the rows *)

Lemma column_lookup (d : Dataset) (col : string) (cells : list string) (i : nat) :
  column col d = Some cells →
  cells !! i = rows d !! i ≫= (.!! col).
Proof.
  unfold column. case_bool_decide; [|done]. intros Hm%mapM_Some_1.
  revert i. induction Hm as [|row cell rows' cells' Hrow _ IH]; intros [|i]; simpl; done.
Qed.

Lemma column_is_Some (d : Dataset) (col : string) :
  wf d → col ∈ column_names d → is_Some (column col d).
Proof.
  intros Hwf Hcol. unfold column. rewrite bool_decide_eq_true_2 by done.
  apply mapM_is_Some, Forall_forall. intros row Hrow. simpl.
  by apply (wf_lookup d).
Qed.

Lemma iloc_row (d : Dataset) (col : string) (i : nat) :
  wf d → col ∈ column_names d →
  iloc d col i = rows d !! i ≫= (.!! col).
Proof.
  intros Hwf Hcol. unfold iloc.
  destruct (column_is_Some d col Hwf Hcol) as [cells Hcells].
  rewrite Hcells. simpl. by apply column_lookup.
Qed.

Lemma mapM_seq_lookup {A B} (g : A → option B) (l : list A) :
  mapM (λ i, l !! i ≫= g) (seq 0 (length l)) = mapM g l.
Proof.
  enough (∀ k, mapM (λ i, l !! i ≫= g) (seq k (length (drop k l)))
               = mapM g (drop k l)) as H by apply (H 0).
  intros k. remember (length (drop k l)) as n eqn:Hn. revert k Hn.
  induction n as [|n IH]; intros k Hn.
  - symmetry in Hn. apply length_zero_iff_nil in Hn. by rewrite Hn.
  - destruct (drop k l) as [|x rest] eqn:Hd; [done|]. simpl in Hn.
    assert (Hx : l !! k = Some x).
    { rewrite <- (Nat.add_0_r k), <- lookup_drop, Hd. done. }
    assert (Hrest : drop (S k) l = rest).
    { replace (S k) with (k + 1) by lia. by rewrite <- drop_drop, Hd. }
    cbn [seq mapM]. rewrite Hx. simpl.
    rewrite (IH (S k)) by (rewrite Hrest; lia). by rewrite Hrest.
Qed.

Section RowOrder.

Context {Vector Sim : Type}.
Variable simple_preprocess : string → list string.

(** An iteration of the loop depends on the row of the document alone. *)
Lemma doc_entry_row (d : Dataset) (col_name : string) (test train : Corpus)
    (model : Doc2Vec Vector Sim) (topn doc_id : nat) :
  wf d →
  Forall (λ c, c ∈ column_names d) ["cik"; "year"; "section"] →
  Corpus_init d col_name = Some test →
  doc_entry simple_preprocess test train model topn doc_id
  = rows d !! doc_id ≫= row_entry simple_preprocess train model topn col_name.
Proof.
  intros Hwf Hcols Hinit. unfold Corpus_init in Hinit.
  destruct (column col_name d) as [cells|] eqn:Hcells; [|done].
  simpl in Hinit. simplify_eq.
  rewrite !Forall_cons in Hcols. destruct Hcols as (Hc1 & Hc2 & Hc3 & _).
  unfold doc_entry, Corpus_iter. cbn [data df].
  rewrite list_lookup_imap, (column_lookup _ _ _ _ Hcells).
  rewrite !iloc_row by done.
  destruct (rows d !! doc_id) as [row|]; [|done]. simpl.
  unfold row_entry. destruct (row !! col_name) as [line|]; [|done]. simpl.
  done.
Qed.

Lemma entries_of_rows (d : Dataset) (col_name : string) (test train : Corpus)
    (model : Doc2Vec Vector Sim) (topn : nat) :
  wf d →
  Forall (λ c, c ∈ column_names d) ["cik"; "year"; "section"] →
  Corpus_init d col_name = Some test →
  mapM (doc_entry simple_preprocess test train model topn)
       (seq 0 (Corpus_len test))
  = mapM (row_entry simple_preprocess train model topn col_name) (rows d).
Proof.
  intros Hwf Hcols Hinit.
  assert (Hlen : Corpus_len test = length (rows d)).
  { unfold Corpus_init in Hinit.
    destruct (column col_name d) as [cells|] eqn:Hcells; [|done].
    simpl in Hinit. simplify_eq. unfold Corpus_len. simpl.
    unfold column in Hcells. case_bool_decide; [|done].
    symmetry. by eapply length_mapM. }
  rewrite Hlen.
  rewrite <- (mapM_seq_lookup
                (row_entry simple_preprocess train model topn col_name) (rows d)).
  apply mapM_ext. intros doc_id.
  by apply doc_entry_row.
Qed.

End RowOrder.

Lemma mapM_Permutation {A B} (g : A → option B) (l l' : list A) (k : list B) :
  l ≡ₚ l' → mapM g l = Some k → ∃ k', mapM g l' = Some k' ∧ k ≡ₚ k'.
Proof.
  intros Hperm. revert k.
  induction Hperm as [|x l l' _ IH|x y l|l l' l'' _ IH1 _ IH2]; intros k Hk.
  - exists k. by split.
  - cbn [mapM] in *. destruct (g x) as [b|]; [|done]. simpl in *.
    destruct (mapM g l) as [bs|]; [|done]. injection Hk as <-.
    destruct (IH bs eq_refl) as (bs' & -> & Hbs). exists (b :: bs'). simpl.
    split; [done | by apply perm_skip].
  - cbn [mapM] in *. destruct (g y) as [b|]; [|done]. simpl in *.
    destruct (g x) as [a|]; [|done]. simpl in *.
    destruct (mapM g l) as [bs|]; [|done]. injection Hk as <-.
    exists (a :: b :: bs). split; [done | apply perm_swap].
  - destruct (IH1 k Hk) as (k' & Hk' & Hp1).
    destruct (IH2 k' Hk') as (k'' & Hk'' & Hp2).
    exists k''. split; [done | by etrans].
Qed.

Lemma wf_Permutation (d d' : Dataset) :
  column_names d' = column_names d → rows d' ≡ₚ rows d → wf d → wf d'.
Proof. unfold wf. intros -> ->. done. Qed.

Section RowOrderTop.

Context {Vector Sim : Type}.
Variable simple_preprocess : string → list string.

Lemma row_entry_key (train : Corpus) (model : Doc2Vec Vector Sim) (topn : nat)
    (col_name : string) (row : gmap string string) (e : DocEntry Sim) :
  row_entry simple_preprocess train model topn col_name row = Some e →
  key_of row = Some (entry_key e).
Proof.
  unfold row_entry, key_of. intros He.
  destruct (row !! col_name); [|done]. simpl in He.
  destruct (row !! "cik"); [|done]. simpl in *.
  destruct (row !! "year"); [|done]. simpl in *.
  destruct (row !! "section"); [|done]. simpl in *.
  destruct (mapM _ _) as [top_n|]; [|done]. simpl in He.
  destruct (top_n !! 0); [|done]. simpl in He.
  destruct (_ !! 0); [|done]. simpl in He. by simplify_eq.
Qed.

Lemma entries_keys (train : Corpus) (model : Doc2Vec Vector Sim) (topn : nat)
    (col_name : string) (rows : list (gmap string string))
    (entries : list (DocEntry Sim)) :
  mapM (row_entry simple_preprocess train model topn col_name) rows = Some entries →
  key_of <$> rows = Some ∘ entry_key <$> entries.
Proof.
  intros Hm%mapM_Some_1.
  induction Hm as [|row e rows' es He _ IH]; [done|].
  rewrite !fmap_cons, IH. f_equal. by eapply row_entry_key.
Qed.

(** With pairwise distinct keys, [top] does not depend on the order in
    which the entries are written. *)
Lemma top_foldl_Permutation (st : EvalState Sim) (es es' : list (DocEntry Sim)) :
  NoDup (entry_key <$> es) → es ≡ₚ es' →
  top (foldl add_entry st es) = top (foldl add_entry st es').
Proof.
  intros Hnd Hperm. apply map_eq. intros k. rewrite !top_foldl_lookup.
  assert (Hshort : length (filter (λ e, entry_key e = k) es) ≤ 1).
  { clear Hperm. induction es as [|e es IH]; [simpl; lia|].
    rewrite fmap_cons in Hnd. apply NoDup_cons in Hnd as [Hfresh Hnd].
    rewrite filter_cons. case_decide as Hk; [|by apply IH].
    assert (filter (λ e0, entry_key e0 = k) es = []) as ->; [|simpl; lia].
    destruct (filter (λ e0, entry_key e0 = k) es) as [|e' rest] eqn:Hf; [done|].
    exfalso. apply Hfresh.
    assert (e' ∈ filter (λ e0, entry_key e0 = k) es) as Hin by (rewrite Hf; left).
    apply list_elem_of_filter in Hin as [Hk' Hin].
    rewrite Hk, <- Hk'. by apply list_elem_of_fmap_2. }
  assert (Hf : filter (λ e, entry_key e = k) es ≡ₚ filter (λ e, entry_key e = k) es')
    by by rewrite Hperm.
  destruct (filter (λ e, entry_key e = k) es) as [|e [|e2 rest]].
  - apply Permutation_nil_l in Hf. by rewrite <- Hf.
  - apply Permutation_singleton_l in Hf. by rewrite <- Hf.
  - simpl in Hshort. lia.
Qed.

(** C6, as the code has it. [Corpus] tags a document with its row position.
    [top] is keyed by [(cik, year, section)]: on a test table whose keys are
    pairwise distinct, evaluating the rows in another order gives the same
    [top] and prints the same two values. *)
Theorem eval_model_top_row_order
    (d d' : Dataset) (col_name : string) (test train : Corpus)
    (model : Doc2Vec Vector Sim) (topn : nat) (r : EvalResult Sim) :
  wf d →
  column_names d' = column_names d →
  rows d' ≡ₚ rows d →
  Forall (λ c, c ∈ column_names d) ["cik"; "year"; "section"] →
  NoDup (key_of <$> rows d) →
  Corpus_init d col_name = Some test →
  eval_model simple_preprocess test train model topn = Some r →
  (∀ i doc, Corpus_iter simple_preprocess test !! i = Some doc → tags doc = [i]) ∧
  ∃ test' r',
    Corpus_init d' col_name = Some test' ∧
    eval_model simple_preprocess test' train model topn = Some r' ∧
    top (returned r') = top (returned r) ∧
    printed_same_document r' = printed_same_document r ∧
    printed_same_company r' = printed_same_company r.
Proof.
  intros Hwf Hnames Hperm Hcols Hnd Hinit Hrun. split.
  { intros i doc Hdoc. unfold Corpus_iter in Hdoc.
    rewrite list_lookup_imap in Hdoc. destruct (df test !! i); by simplify_eq/=. }
  pose proof (wf_Permutation d d' Hnames Hperm Hwf) as Hwf'.
  assert (Hcol : col_name ∈ column_names d).
  { unfold Corpus_init, column in Hinit. by case_bool_decide. }
  destruct (column_is_Some d' col_name Hwf') as [cells' Hcells'];
    [by rewrite Hnames|].
  assert (Hinit' : Corpus_init d' col_name = Some {| data := d'; df := cells' |}).
  { unfold Corpus_init. by rewrite Hcells'. }
  exists {| data := d'; df := cells' |}.
  unfold eval_model in Hrun |- *. rewrite eval_loop_entries in Hrun |- *.
  rewrite (entries_of_rows _ d col_name test) in Hrun by done.
  rewrite (entries_of_rows _ d' col_name _ train model topn Hwf')
    by (done || by rewrite Hnames).
  destruct (mapM _ (rows d)) as [entries|] eqn:Hentries; [|done].
  destruct (mapM_Permutation _ _ (rows d') _ (symmetry Hperm) Hentries)
    as (entries' & Hentries' & Hes).
  rewrite Hentries'. simpl in Hrun |- *.
  assert (Hkeys : NoDup (entry_key <$> entries)).
  { rewrite (entries_keys _ _ _ _ _ _ Hentries), list_fmap_compose in Hnd.
    by apply NoDup_fmap_1 in Hnd. }
  rewrite <- (top_foldl_Permutation {| top := ∅; sim_docs := ∅ |} _ _ Hkeys Hes).
  destruct (percentage (count_same_document _) _) as [p1|]; [|done].
  destruct (percentage (count_same_company _) _) as [p2|]; [|done].
  simpl in Hrun |- *. simplify_eq. eexists. repeat split; try done.
  simpl. by rewrite <- (top_foldl_Permutation _ _ _ Hkeys Hes).
Qed.

End RowOrderTop.

Lemma eval_model_top_row_order_witness :
  (∀ i doc, Corpus_iter String.words (Demo.corpus Demo.test_table) !! i = Some doc →
            tags doc = [i]) ∧
  ∃ test' r',
    Corpus_init Demo.test_table_swapped "parsed_sections" = Some test' ∧
    eval_model String.words test' (Demo.corpus Demo.train_table) Demo.model 10
    = Some r' ∧
    let r := default (mkEvalResult 0 0 (mkEvalState ∅ ∅))
               (eval_model String.words (Demo.corpus Demo.test_table)
                  (Demo.corpus Demo.train_table) Demo.model 10) in
    top (returned r') = top (returned r) ∧
    printed_same_document r' = printed_same_document r ∧
    printed_same_company r' = printed_same_company r.
Proof.
  apply (eval_model_top_row_order String.words Demo.test_table
           Demo.test_table_swapped "parsed_sections"
           (Demo.corpus Demo.test_table)).
  - repeat constructor; vm_compute; reflexivity.
  - reflexivity.
  - apply perm_swap.
  - apply (bool_decide_unpack _). vm_compute. exact I.
  - apply (bool_decide_unpack _). vm_compute. exact I.
  - vm_compute. reflexivity.
  - vm_compute. reflexivity.
Defined.

(** C6 as stated fails. The two sections of one filing have distinct keys,
    yet evaluating them in the other order changes [sim_docs], which keeps
    for a company the counter of the document evaluated last; and the tag
    that [Corpus] gives a document is its row position, so the tagged
    documents of the two orders are not the same collection. *)
Lemma eval_model_row_order_counterexample :
  rows Demo.test_table_swapped ≡ₚ rows Demo.test_table ∧
  NoDup (key_of <$> rows Demo.test_table) ∧
  ∃ r r',
    eval_model String.words (Demo.corpus Demo.test_table)
               (Demo.corpus Demo.train_table) Demo.model 10 = Some r ∧
    eval_model String.words (Demo.corpus Demo.test_table_swapped)
               (Demo.corpus Demo.train_table) Demo.model 10 = Some r' ∧
    sim_docs (returned r) !! "718413" = Some {[ "1001039" := 1 ]} ∧
    sim_docs (returned r') !! "718413" = Some {[ "718413" := 1; "1001039" := 1 ]} ∧
    sim_docs (returned r) ≠ sim_docs (returned r') ∧
    ¬ (Corpus_iter String.words (Demo.corpus Demo.test_table)
       ≡ₚ Corpus_iter String.words (Demo.corpus Demo.test_table_swapped)).
Proof.
  split; [apply perm_swap|].
  split; [apply (bool_decide_unpack _); vm_compute; exact I|].
  do 2 eexists.
  split; [vm_compute; reflexivity|]. split; [vm_compute; reflexivity|].
  split; [vm_compute; reflexivity|]. split; [vm_compute; reflexivity|].
  split.
  - intros Heq. apply (f_equal (λ m, m !! "718413" ≫= (.!! "718413"))) in Heq.
    vm_compute in Heq. discriminate.
  - intros Hperm.
    assert (Hin : mkTaggedDocument ["alpha"] [0]
                  ∈ Corpus_iter String.words (Demo.corpus Demo.test_table_swapped)).
    { rewrite <- Hperm. left. }
    vm_compute in Hin.
    apply elem_of_cons in Hin as [Hin|Hin]; [discriminate|].
    apply elem_of_cons in Hin as [Hin|Hin]; [discriminate|].
    by apply elem_of_nil in Hin.
Qed.

Lemma encoder_input_is_raw_text_witness :
  let d := default Demo.raw (transformer_dataset Demo.raw) in
  column_names d = ["cik"; "year"; "raw_sections"; "section"] ∧
  ∃ texts,
    encoder_input (batch d) "raw_sections" = Some texts ∧
    Forall2 (λ row text, row !! "raw_sections" = Some text) (rows d) texts ∧
    Forall (λ text, ∃ src col, src ∈ rows Demo.raw ∧ col ∈ SECTIONS_TO_PARSE ∧
                               src !! col = Some text) texts ∧
    ∀ r, get_embeddings Demo.tokenizer Demo.sbert_model (batch d) "raw_sections"
         = Some r →
         let encoded_input := Demo.tokenizer texts in
         mean_pooling (Demo.sbert_model (input_ids encoded_input)
                                        (attention_mask encoded_input))
                      (attention_mask encoded_input)
                      (overflow_to_sample_mapping encoded_input)
         = Some (emb_vectors r).
Proof.
  apply (encoder_input_is_raw_text Demo.tokenizer Demo.sbert_model Demo.raw).
  - repeat constructor; vm_compute; reflexivity.
  - vm_compute. reflexivity.
Defined.

(** C4 as stated fails. On [Demo.raw] the texts that reach the tokenizer are
    the raw section texts; the cleaning pass would have turned them into
    other texts, and the table has no column of cleaned text. *)
Lemma encoder_input_is_raw_text_counterexample :
  ∃ d texts,
    transformer_dataset Demo.raw = Some d ∧
    encoder_input (batch d) "raw_sections" = Some texts ∧
    texts = ["the bank holds 10 branches ."; "the bank holds 12 branches .";
             "risk of loss"; "results of operations"] ∧
    clean_text Demo.nlp <$> texts
    = ["bank holds branches"; "bank holds branches"; "risk loss";
       "results operations"] ∧
    texts ≠ clean_text Demo.nlp <$> texts ∧
    encoder_input (batch d) "parsed_sections" = None.
Proof.
  do 2 eexists.
  split; [vm_compute; reflexivity|]. split; [vm_compute; reflexivity|].
  split; [reflexivity|]. split; [vm_compute; reflexivity|].
  split; [vm_compute; discriminate | vm_compute; reflexivity].
Qed.

Lemma mean_pooling_total_iff_witness :
  let encoded_input := Demo.tokenizer Demo.texts16 in
  let model_output := Demo.sbert_model (input_ids encoded_input)
                                       (attention_mask encoded_input) in
  let sample_map := overflow_to_sample_mapping encoded_input in
  (is_Some (mean_pooling model_output (attention_mask encoded_input) sample_map)
   ↔ ∀ i, i < BATCH_SIZE → i ∈ sample_map) ∧
  (∀ i, i ∈ sample_map →
     ∃ s_idx e_idx,
       np_where_eq sample_map i !! 0 = Some s_idx ∧
       last (np_where_eq sample_map i) = Some (e_idx - 1) ∧
       slice_bounds sample_map i = Some (s_idx, e_idx) ∧
       s_idx < e_idx ≤ length sample_map) ∧
  (∀ i, i < BATCH_SIZE → i ∉ sample_map →
     np_where_eq sample_map i = [] ∧
     np_where_eq sample_map i !! 0 = None ∧
     mean_pooling model_output (attention_mask encoded_input) sample_map = None).
Proof.
  exact (mean_pooling_total_iff
           (Demo.sbert_model (input_ids (Demo.tokenizer Demo.texts16))
                             (attention_mask (Demo.tokenizer Demo.texts16)))
           (attention_mask (Demo.tokenizer Demo.texts16))
           (overflow_to_sample_mapping (Demo.tokenizer Demo.texts16))).
Defined.

(** * Further properties of the code *)

(** ** Failure and batching of [parse_sections] *)

Lemma parse_sections_present
    (nlp : string → list (list Token)) (examples : gmap string (list string))
    (col_names : list string) (res : gmap string (list string)) :
  parse_sections nlp examples col_names = Some res →
  is_Some (examples !! "cik") ∧ is_Some (examples !! "year") ∧
  Forall (λ col, is_Some (examples !! col)) col_names.
Proof.
  intros Hrun.
  destruct (parse_sections_lookup _ _ _ _ Hrun) as (_ & _ & Hcols & _).
  unfold parse_sections in Hrun.
  destruct (parse_columns nlp examples col_names ∅); [|done]. simpl in Hrun.
  destruct (examples !! "cik"); [|done]. simpl in Hrun.
  destruct (examples !! "year"); [|done].
  split; [done|]. split; [done|]. apply Forall_forall. intros col Hcol.
  destruct (Hcols col Hcol) as (texts & -> & _). done.
Qed.

Lemma parse_sections_total
    (nlp : string → list (list Token)) (examples : gmap string (list string))
    (col_names : list string) :
  is_Some (examples !! "cik") → is_Some (examples !! "year") →
  Forall (λ col, is_Some (examples !! col)) col_names →
  is_Some (parse_sections nlp examples col_names).
Proof.
  intros [cik Hcik] [year Hyear] Hall.
  destruct (parse_columns_total nlp examples col_names ∅ Hall) as [s Hs].
  unfold parse_sections. rewrite Hs, Hcik, Hyear. done.
Qed.

(** The loop over the columns raises on the first listed column that the
    batch lacks, or that holds a text on which [nlp] raises. *)
Lemma raising_parse_columns_None
    (nlp : string → option Doc) (examples : gmap string (list string))
    (col_names : list string) (sections : gmap string (list string)) :
  parse_columns_raising nlp examples col_names sections = None
  ↔ ∃ col, col ∈ col_names ∧
      (examples !! col = None ∨
       ∃ texts text, examples !! col = Some texts ∧ text ∈ texts ∧
                     nlp text = None).
Proof.
  revert sections. induction col_names as [|col rest IH]; intros sections; simpl.
  - split; [done|]. intros (col & Hin & _). by apply elem_of_nil in Hin.
  - destruct (examples !! col) as [texts|] eqn:Hcol; simpl.
    + destruct (mapM (clean_text_raising nlp) texts) as [docs|] eqn:Hdocs; simpl.
      * rewrite IH. split.
        -- intros (col' & Hin & Hbad). exists col'. split; [by right|done].
        -- intros (col' & Hin & Hbad).
           apply elem_of_cons in Hin as [->|Hin]; [|by exists col'].
           exfalso. destruct Hbad as [Hnone|(texts' & text & Htexts & Htext & Hnlp)];
             [congruence|].
           rewrite Hcol in Htexts. injection Htexts as <-.
           apply mapM_Some_1 in Hdocs.
           apply list_elem_of_lookup in Htext as [k Hk].
           destruct (Forall2_lookup_l _ _ _ _ _ Hdocs Hk) as (doc & _ & Hdoc).
           unfold clean_text_raising in Hdoc. by rewrite Hnlp in Hdoc.
      * split; [|done]. intros _. exists col. split; [left|]. right.
        apply mapM_None in Hdocs. apply Exists_exists in Hdocs as (text & Hin & Hbad).
        exists texts, text. split; [done|]. split; [done|].
        unfold clean_text_raising in Hbad. by destruct (nlp text).
    + split; [|done]. intros _. exists col. split; [left|]. by left.
Qed.

(** Where the loop returns, it returns what the loop with an [nlp] that
    never raises returns. *)
Lemma raising_parse_columns_Some
    (nlp : string → option Doc) (nlp' : string → Doc)
    (examples : gmap string (list string))
    (col_names : list string) (sections res : gmap string (list string)) :
  (∀ text doc, nlp text = Some doc → nlp' text = doc) →
  parse_columns_raising nlp examples col_names sections = Some res →
  parse_columns nlp' examples col_names sections = Some res.
Proof.
  intros Hagree. revert sections.
  induction col_names as [|col rest IH]; intros sections; simpl; [done|].
  destruct (examples !! col) as [texts|]; simpl; [|done].
  destruct (mapM (clean_text_raising nlp) texts) as [docs|] eqn:Hdocs; simpl; [|done].
  assert (Heq : docs = clean_text nlp' <$> texts).
  { apply mapM_Some_1 in Hdocs. clear -Hdocs Hagree.
    induction Hdocs as [|text doc texts docs Hdoc _ IH]; [done|].
    rewrite fmap_cons, <- IH. f_equal.
    unfold clean_text_raising in Hdoc.
    destruct (nlp text) as [d|] eqn:Hnlp; [|done]. simpl in Hdoc.
    injection Hdoc as <-. unfold clean_text. by rewrite (Hagree _ _ Hnlp). }
  rewrite Heq. apply IH.
Qed.

(** X1. With an [nlp] that may raise, [parse_sections] raises exactly when the
    batch lacks the column [cik], the column [year] or one of the listed
    columns, or [nlp] raises on a text of a listed column.  When it returns,
    it returns what [parse_sections] returns with an [nlp] that never
    raises and agrees with it. *)
Theorem parse_sections_raises_iff
    (nlp : string → option Doc) (examples : gmap string (list string))
    (col_names : list string) :
  (parse_sections_raising nlp examples col_names = None
   ↔ examples !! "cik" = None ∨ examples !! "year" = None ∨
     ∃ col, col ∈ col_names ∧
       (examples !! col = None ∨
        ∃ texts text, examples !! col = Some texts ∧ text ∈ texts ∧
                      nlp text = None)) ∧
  ∀ (nlp' : string → Doc) (res : gmap string (list string)),
    (∀ text doc, nlp text = Some doc → nlp' text = doc) →
    parse_sections_raising nlp examples col_names = Some res →
    parse_sections nlp' examples col_names = Some res.
Proof.
  split.
  - unfold parse_sections_raising.
    destruct (parse_columns_raising nlp examples col_names ∅) as [sections|]
      eqn:Hcols; simpl.
    + assert (Hnone : ¬ ∃ col, col ∈ col_names ∧
                (examples !! col = None ∨
                 ∃ texts text, examples !! col = Some texts ∧ text ∈ texts ∧
                               nlp text = None)).
      { intros Hbad. apply raising_parse_columns_None with (sections := ∅) in Hbad.
        congruence. }
      destruct (examples !! "cik") as [cik|]; simpl; [|by split; [left|]].
      destruct (examples !! "year") as [year|]; simpl; [|by split; [right; left|]].
      split; [done|]. intros [?|[?|?]]; done.
    + split; [|done]. intros _. right. right.
      by apply raising_parse_columns_None in Hcols.
  - intros nlp' res Hagree. unfold parse_sections_raising, parse_sections.
    destruct (parse_columns_raising nlp examples col_names ∅) as [sections|]
      eqn:Hcols; simpl; [|done].
    by rewrite (raising_parse_columns_Some _ _ _ _ _ _ Hagree Hcols).
Qed.

(** A batch with a text longer than the maximal length of [nlp] raises; a
    batch of short texts is cleaned as by [nlp] itself. *)
Example parse_sections_long_text :
  parse_sections_raising Demo.nlp_max_length Demo.examples
                         ["section_1"; "section_1A"] = None ∧
  parse_sections_raising Demo.nlp_max_length Demo.examples ["section_1A"]
  = parse_sections Demo.nlp Demo.examples ["section_1A"] ∧
  is_Some (parse_sections Demo.nlp Demo.examples ["section_1A"]).
Proof. repeat split; vm_compute; try reflexivity. by eexists. Qed.

(** X2. [parse_sections] treats the rows of a batch one by one: when a batch is
    two batches put end to end, column by column, its result is the two
    results put end to end.  How a table is cut into batches has no effect
    on the cleaned table. *)
Theorem parse_sections_batches
    (nlp : string → list (list Token)) (b1 b2 : gmap string (list string))
    (col_names : list string) (res1 res2 : gmap string (list string)) :
  parse_sections nlp b1 col_names = Some res1 →
  parse_sections nlp b2 col_names = Some res2 →
  parse_sections nlp (append_batches b1 b2) col_names
  = Some (append_batches res1 res2).
Proof.
  intros H1 H2.
  assert (Happ : ∀ (m1 m2 : gmap string (list string)) col,
            append_batches m1 m2 !! col
            = l1 ← m1 !! col; l2 ← m2 !! col; Some (l1 ++ l2)).
  { intros m1 m2 col. unfold append_batches. rewrite lookup_intersection_with.
    by destruct (m1 !! col), (m2 !! col). }
  enough (∃ res, parse_sections nlp (append_batches b1 b2) col_names = Some res ∧
            ∀ k, res !! k = l1 ← res1 !! k; l2 ← res2 !! k; Some (l1 ++ l2))
    as (res & -> & Hres).
  { f_equal. apply map_eq. intros k. by rewrite Hres, Happ. }
  pose proof (Happ b1 b2) as Hb. generalize dependent (append_batches b1 b2).
  intros b Hb.
  destruct (parse_sections_lookup _ _ _ _ H1) as (Hc1 & Hy1 & Hcols1 & Honly1).
  destruct (parse_sections_lookup _ _ _ _ H2) as (Hc2 & Hy2 & Hcols2 & Honly2).
  destruct (parse_sections_present _ _ _ _ H1) as ([c1 Hbc1] & [y1 Hby1] & Hall1).
  destruct (parse_sections_present _ _ _ _ H2) as ([c2 Hbc2] & [y2 Hby2] & Hall2).
  destruct (parse_sections nlp b col_names) as [res|] eqn:Hrun.
  - exists res. split; [done|]. intros k.
    destruct (parse_sections_lookup _ _ _ _ Hrun) as (Hc & Hy & Hcols & Honly).
    destruct (decide (k = "cik")) as [->|Hk1].
    { by rewrite Hc, Hc1, Hc2, Hb. }
    destruct (decide (k = "year")) as [->|Hk2].
    { by rewrite Hy, Hy1, Hy2, Hb. }
    destruct (decide (k ∈ parsed_name <$> col_names)) as [Hin|Hnot].
    + apply list_elem_of_fmap in Hin as (col & -> & Hcol).
      destruct (Hcols col Hcol) as (texts & Hex & ->).
      destruct (Hcols1 col Hcol) as (texts1 & Hex1 & ->).
      destruct (Hcols2 col Hcol) as (texts2 & Hex2 & ->).
      rewrite Hb, Hex1, Hex2 in Hex. simpl in Hex. simplify_eq. simpl.
      by rewrite fmap_app.
    + assert (Hnone : ∀ r : gmap string (list string), (∀ k', is_Some (r !! k') →
                  k' = "cik" ∨ k' = "year" ∨
                  ∃ col, col ∈ col_names ∧ k' = parsed_name col) → r !! k = None).
      { intros r Hr. apply eq_None_not_Some. intros Hs.
        destruct (Hr k Hs) as [?|[?|(col & Hcol & ->)]]; try done.
        apply Hnot, list_elem_of_fmap. eauto. }
      by rewrite (Hnone res Honly), (Hnone res1 Honly1).
  - exfalso. destruct (parse_sections_total nlp b col_names) as [res Hres];
      [by rewrite Hb, Hbc1, Hbc2 | by rewrite Hb, Hby1, Hby2 | | congruence].
    apply Forall_forall. intros col Hcol. rewrite Forall_forall in Hall1, Hall2.
    destruct (Hall1 col Hcol) as [t1 Ht1]. destruct (Hall2 col Hcol) as [t2 Ht2].
    by rewrite Hb, Ht1, Ht2.
Qed.

(** ** The section labels of the two paths *)

Lemma split_after_separator (sep : Ascii.ascii) (front s : string) :
  ∃ pieces, pieces ≠ [] ∧
            split sep (front +:+ String sep s) = pieces ++ split sep s.
Proof.
  induction front as [|c front (pieces & Hne & IH)].
  - exists [""]. split; [done|]. change ("" +:+ String sep s) with (String sep s).
    cbn [split]. by rewrite bool_decide_eq_true_2.
  - change (String c front +:+ String sep s) with (String c (front +:+ String sep s)).
    cbn [split]. rewrite IH. case_bool_decide.
    + exists ("" :: pieces). done.
    + destruct pieces as [|p ps]; [done|]. exists (String c p :: ps). done.
Qed.

Lemma last_split_after_separator (sep : Ascii.ascii) (front s : string) :
  last (split sep (front +:+ String sep s)) = last (split sep s).
Proof.
  destruct (split_after_separator sep front s) as (pieces & _ & ->).
  destruct (last_split_is_Some sep s) as [piece Hpiece].
  rewrite Hpiece. apply last_Some in Hpiece as [l' ->].
  by rewrite app_assoc, last_snoc.
Qed.

(** X3. The columns that [PARSED_SECTIONS] takes from the cleaned table are the
    cleaned section columns, and [wrap] gives a cleaned column the section
    label of the raw column it was cleaned from. *)
Theorem parsed_sections_same_labels (col_names column_names : list string) :
  column_names ≡ₚ "cik" :: "year" :: (parsed_name <$> col_names) →
  PARSED_SECTIONS column_names ≡ₚ parsed_name <$> col_names ∧
  (λ col, last (split "_" col)) <$> PARSED_SECTIONS column_names
  ≡ₚ (λ col, last (split "_" col)) <$> col_names.
Proof.
  intros Hperm.
  assert (Hp : PARSED_SECTIONS column_names ≡ₚ parsed_name <$> col_names).
  { unfold PARSED_SECTIONS. rewrite Hperm.
    rewrite filter_cons_False by (intros Hn; apply Hn; left).
    rewrite filter_cons_False by (intros Hn; apply Hn; right; left).
    assert (Hall : ∀ l : list string, filter (λ c, c ∉ ["cik"; "year"]) (parsed_name <$> l)
                        = parsed_name <$> l).
    { induction l as [|c l IH]; [done|]. rewrite fmap_cons, filter_cons_True, IH; [done|].
      destruct (parsed_name_not_key c). rewrite !not_elem_of_cons. split_and!; try done.
      apply not_elem_of_nil. }
    by rewrite Hall. }
  split; [done|]. rewrite Hp, <- list_fmap_compose.
  rewrite (list_fmap_ext _ (λ col, last (split "_" col)) col_names); [done|].
  intros _ col _. unfold compose, parsed_name.
  change ("parsed_" +:+ col) with ("parsed" +:+ String "_" col).
  apply last_split_after_separator.
Qed.

(** ** When [wrap] returns, and what can be concatenated *)

Lemma wrap_column_is_Some (data : Dataset) (new_name col : string) :
  "cik" ∈ column_names data → "year" ∈ column_names data →
  col ∈ column_names data →
  col ∉ ["cik"; "year"; "section"] →
  new_name ∉ ["cik"; "year"; "section"; col] →
  new_name ≠ "" →
  is_Some (wrap_column data new_name col).
Proof.
  intros Hcik Hyear Hcol Hfresh Hnew Hnamed.
  repeat setoid_rewrite not_elem_of_cons in Hfresh.
  repeat setoid_rewrite not_elem_of_cons in Hnew.
  destruct Hfresh as (Hf1 & Hf2 & Hf3 & _). destruct Hnew as (Hn1 & Hn2 & Hn3 & Hn4 & _).
  unfold wrap_column, select_columns.
  rewrite bool_decide_eq_true_2; cycle 1.
  { split; [|by repeat constructor].
    repeat constructor; rewrite ?not_elem_of_cons, ?elem_of_nil; intuition congruence. }
  simpl. destruct (last_split_is_Some "_" col) as [section ->]. simpl.
  unfold add_column. rewrite bool_decide_eq_true_2; cycle 1.
  { split; [|by rewrite length_replicate]. simpl.
    rewrite !not_elem_of_cons, elem_of_nil. intuition congruence. }
  simpl. unfold rename_column. rewrite bool_decide_eq_true_2; [done|].
  simpl. split; [rewrite !elem_of_cons; tauto|]. split; [|done].
  rewrite !not_elem_of_cons, elem_of_nil. tauto.
Qed.

Lemma wrap_column_unnamed (data : Dataset) (col : string) :
  wrap_column data "" col = None.
Proof.
  unfold wrap_column.
  destruct (select_columns _ data) as [temp|]; [|done]. simpl.
  destruct (last (split "_" col)) as [section|]; [|done]. simpl.
  destruct (add_column _ _ _) as [temp'|]; [|done]. simpl.
  unfold rename_column. rewrite bool_decide_eq_false_2; [done|]. tauto.
Qed.

(** X4. [wrap] raises when a listed column is not a column of the table, and,
    for a non-empty list, when the table lacks [cik] or [year] or the new
    name is the empty string.  It returns one table per listed column when
    the table has [cik], [year] and the listed columns, no listed column is
    [cik], [year] or [section], and the new name is not empty and is none of
    these nor a listed column. *)
Theorem wrap_raises_or_returns
    (data : Dataset) (col_names : list string) (new_name : string) :
  (∀ col, col ∈ col_names → col ∉ column_names data →
          wrap data col_names new_name = None) ∧
  (col_names ≠ [] → ¬ ("cik" ∈ column_names data ∧ "year" ∈ column_names data) →
   wrap data col_names new_name = None) ∧
  (col_names ≠ [] → new_name = "" → wrap data col_names new_name = None) ∧
  ("cik" ∈ column_names data → "year" ∈ column_names data →
   Forall (λ col, col ∈ column_names data ∧ (col ∉ ["cik"; "year"; "section"]) ∧
                  col ≠ new_name) col_names →
   new_name ∉ ["cik"; "year"; "section"] →
   new_name ≠ "" →
   ∃ wrapped, wrap data col_names new_name = Some wrapped ∧
              length wrapped = length col_names).
Proof.
  assert (Hsel : ∀ col, ¬ Forall (λ c, c ∈ column_names data) ["cik"; "year"; col] →
                        wrap_column data new_name col = None).
  { intros col Hmiss. unfold wrap_column, select_columns.
    rewrite bool_decide_eq_false_2; [done|]. by intros [_ ?]. }
  split; [|split; [|split]].
  - intros col Hin Hmiss. unfold wrap. apply mapM_None, Exists_exists.
    exists col. split; [done|]. apply Hsel. rewrite !Forall_cons. tauto.
  - intros Hne Hkeys. unfold wrap. apply mapM_None.
    destruct col_names as [|col rest]; [done|]. left.
    apply Hsel. rewrite !Forall_cons. tauto.
  - intros Hne ->. unfold wrap. apply mapM_None.
    destruct col_names as [|col rest]; [done|]. left.
    apply wrap_column_unnamed.
  - intros Hcik Hyear Hcols Hnew Hnamed.
    destruct (mapM_is_Some_2 (wrap_column data new_name) col_names) as [wrapped Hw].
    + eapply Forall_impl; [exact Hcols|]. intros col (Hc & Hf & Hne). simpl.
      apply wrap_column_is_Some; try done.
      rewrite !not_elem_of_cons in *. rewrite elem_of_nil. intuition congruence.
    + exists wrapped. split; [done|]. symmetry. by eapply length_mapM.
Qed.

Lemma wrap_column_wf (data : Dataset) (new_name col : string) (out : Dataset) :
  wf data → wrap_column data new_name col = Some out →
  column_names out = ["cik"; "year"; new_name; "section"] ∧ wf out ∧
  num_rows out = length (filter (λ src, src !! col ≠ Some "") (rows data)).
Proof.
  intros Hwf Hrun.
  destruct (wrap_column_inv _ _ _ _ Hrun) as (_ & _ & _ & _ & _ & _ & Hnames & _).
  destruct (wrap_column_rows _ _ _ _ Hwf Hrun) as (section & _ & Hrows).
  split; [done|]. split.
  - unfold wf. eapply Forall2_Forall_r; [exact Hrows|].
    apply Forall_forall. intros src _ row (? & ? & ? & ? & ? & ? & ? & ? & ? & ? & ? & ?).
    done.
  - unfold num_rows. symmetry. by eapply Forall2_length.
Qed.

(** X5. On a table, every table that [wrap] returns has the four columns
    [cik], [year], the new name and [section], in every row.  For a
    non-empty list of columns the tables can be concatenated, and the row
    count of the result is, summed over the listed columns, the number of
    rows whose text in the column is not the empty string; for the empty
    list [wrap] returns no table and the concatenation raises. *)
Theorem wrap_concatenates
    (data : Dataset) (col_names : list string) (new_name : string)
    (wrapped : list Dataset) :
  wf data →
  wrap data col_names new_name = Some wrapped →
  Forall (λ out, column_names out = ["cik"; "year"; new_name; "section"] ∧ wf out)
         wrapped ∧
  (col_names = [] → wrapped = [] ∧ concatenate_datasets wrapped = None) ∧
  (col_names ≠ [] →
   ∃ out, concatenate_datasets wrapped = Some out ∧
          column_names out = ["cik"; "year"; new_name; "section"] ∧
          wf out ∧
          num_rows out
          = sum_list ((λ col, length (filter (λ src, src !! col ≠ Some "")
                                             (rows data))) <$> col_names)).
Proof.
  intros Hwf Hrun. apply mapM_Some_1 in Hrun.
  assert (Hnd : col_names ≠ [] → NoDup ["cik"; "year"; new_name; "section"]).
  { intros Hne. destruct Hrun as [|col out cols outs Hcol _]; [done|].
    destruct (wrap_column_inv _ _ _ _ Hcol) as (_ & _ & _ & _ & _ & Hnew & _).
    by eapply wrapped_columns_NoDup. }
  assert (Hall : Forall2 (λ col out,
            column_names out = ["cik"; "year"; new_name; "section"] ∧ wf out ∧
            num_rows out = length (filter (λ src, src !! col ≠ Some "") (rows data)))
            col_names wrapped).
  { eapply Forall2_impl; [exact Hrun|]. intros col out Hcol.
    by apply wrap_column_wf. }
  clear Hrun. split; [|split].
  - eapply Forall2_Forall_r; [exact Hall|]. apply Forall_forall. tauto.
  - intros ->. apply Forall2_nil_inv_l in Hall as ->. done.
  - intros Hne. specialize (Hnd Hne).
    destruct Hall as [|col out cols outs (Hn & Hw & Hr) Hrest]; [done|].
    assert (Hsame : union_columns (out :: outs)
                    = ["cik"; "year"; new_name; "section"]).
    { apply union_columns_same; [exact Hnd | done |].
      constructor; [done|]. eapply Forall2_Forall_r; [exact Hrest|].
      apply Forall_forall. by intros ? _ d' (-> & _). }
    eexists. split; [reflexivity|].
    cbn [column_names rows]. split; [done|]. split.
    + unfold wf. cbn [column_names rows]. rewrite Hsame, fmap_cons. cbn [concat].
      apply Forall_app. split; [unfold wf in Hw; by rewrite Hn in Hw|].
      clear -Hrest. induction Hrest as [|c o cs os (Hn & Hw & _) _ IH]; [constructor|].
      rewrite fmap_cons. cbn [concat]. apply Forall_app. split; [|done].
      unfold wf in Hw. by rewrite Hn in Hw.
    + unfold num_rows. cbn [rows]. rewrite !fmap_cons. cbn [concat sum_list sum_list_with].
      rewrite length_app. f_equal; [exact Hr|].
      clear -Hrest. induction Hrest as [|c o cs os (_ & _ & Hr) _ IH]; [done|].
      rewrite !fmap_cons. cbn [concat]. simpl. rewrite length_app, IH. by f_equal.
Qed.

(** Runs of the statements above on the concrete inputs. *)

Lemma parse_sections_batches_witness :
  parse_sections Demo.nlp (append_batches Demo.examples Demo.examples_one)
                 ["section_1"; "section_1A"]
  = Some (append_batches
            (default ∅ (parse_sections Demo.nlp Demo.examples
                          ["section_1"; "section_1A"]))
            (default ∅ (parse_sections Demo.nlp Demo.examples_one
                          ["section_1"; "section_1A"]))).
Proof.
  apply (parse_sections_batches Demo.nlp Demo.examples Demo.examples_one
           ["section_1"; "section_1A"]).
  - vm_compute. reflexivity.
  - vm_compute. reflexivity.
Defined.

Lemma parsed_sections_same_labels_witness :
  let column_names :=
    ["parsed_section_7"; "cik"; "parsed_section_1A"; "parsed_section_7A";
     "year"; "parsed_section_1"] in
  PARSED_SECTIONS column_names ≡ₚ parsed_name <$> SECTIONS_TO_PARSE ∧
  (λ col, last (split "_" col)) <$> PARSED_SECTIONS column_names
  ≡ₚ (λ col, last (split "_" col)) <$> SECTIONS_TO_PARSE.
Proof.
  apply (parsed_sections_same_labels SECTIONS_TO_PARSE).
  apply (bool_decide_unpack _). vm_compute. exact I.
Defined.

Lemma wrap_raises_or_returns_witness :
  wrap Demo.raw ["section_1"; "section_2"] "raw_sections" = None ∧
  wrap Demo.raw SECTIONS_TO_PARSE "" = None ∧
  ∃ wrapped, wrap Demo.raw SECTIONS_TO_PARSE "raw_sections" = Some wrapped ∧
             length wrapped = length SECTIONS_TO_PARSE.
Proof.
  split; [|split].
  - apply (proj1 (wrap_raises_or_returns Demo.raw ["section_1"; "section_2"]
                    "raw_sections") "section_2");
      apply (bool_decide_unpack _); vm_compute; exact I.
  - apply (proj1 (proj2 (proj2 (wrap_raises_or_returns Demo.raw SECTIONS_TO_PARSE
                                  ""))));
      [discriminate | reflexivity].
  - apply (proj2 (proj2 (proj2 (wrap_raises_or_returns Demo.raw SECTIONS_TO_PARSE
                                  "raw_sections"))));
      apply (bool_decide_unpack _); vm_compute; exact I.
Defined.

Lemma wrap_concatenates_witness :
  ∃ out,
    concatenate_datasets
      (default [] (wrap Demo.raw SECTIONS_TO_PARSE "parsed_sections")) = Some out ∧
    column_names out = ["cik"; "year"; "parsed_sections"; "section"] ∧
    wf out ∧ num_rows out = 4.
Proof.
  destruct (wrap_concatenates Demo.raw SECTIONS_TO_PARSE "parsed_sections"
              (default [] (wrap Demo.raw SECTIONS_TO_PARSE "parsed_sections")))
    as (_ & _ & Hout).
  - repeat constructor; vm_compute; reflexivity.
  - vm_compute. reflexivity.
  - destruct Hout as (out & Hcat & Hcols & Hwf & Hrows); [done|].
    exists out. split; [exact Hcat|]. split; [exact Hcols|]. split; [exact Hwf|].
    rewrite Hrows. vm_compute. reflexivity.
Defined.

(** ** The split by year *)


Section YearSplitFacts.

Variable int : string → option Z.



End YearSplitFacts.

Lemma filter_raising_None {A} (f : A → option bool) (l : list A) :
  Exists (λ x, f x = None) l → filter_raising f l = None.
Proof.
  induction 1 as [x l Hx|x l _ IH]; simpl.
  - by rewrite Hx.
  - destruct (f x); [|done]. simpl. by rewrite IH.
Qed.

Section YearSplitRaises.

Variable int : string → option Z.

(** X7. The split cell raises on a training table without rows (there is no
    greatest year to read), on a table without the column [year], and, when
    the greatest year string reads as [END_YEAR] or later, on any row whose
    year cannot be read as an integer. *)
Theorem split_years_raises (train test : Dataset) :
  (rows train = [] → split_years int train test = None) ∧
  ("year" ∉ column_names train → split_years int train test = None) ∧
  (∀ latest, latest_year int train = Some latest → (END_YEAR ≤ latest)%Z →
             Exists (λ row, year_of int row = None) (rows train) →
             split_years int train test = None).
Proof.
  split; [|split].
  - intros Hrows. unfold split_years, latest_year, column. rewrite Hrows.
    case_bool_decide; done.
  - intros Hcol. unfold split_years, latest_year, column.
    by rewrite bool_decide_eq_false_2.
  - intros latest Hlatest Hle Hbad. unfold split_years. rewrite Hlatest. simpl.
    rewrite bool_decide_eq_true_2 by done. unfold filter_rows_raising.
    rewrite (filter_raising_None
               (λ row, y ← year_of int row; Some (bool_decide (y = END_YEAR)))); [done|].
    eapply Exists_impl; [exact Hbad|]. intros row Hrow. simpl. by rewrite Hrow.
Qed.

End YearSplitRaises.

(** Runs of the statements above on the concrete inputs. *)


(** Tables with different columns are put end to end as well: the row of
    the validation table has no text. *)
Example train_test_differing_columns :
  ∃ train' test',
    train_test Demo.int Demo.loaded_train Demo.loaded_validation_short
               Demo.loaded_test = Some (train', test') ∧
    column_names test' = ["cik"; "year"; "section_1"] ∧
    rows test' = [ Demo.filing "718413" "2016" "b";
                   list_to_map [("cik", "1001039"); ("year", "2016")] ].
Proof. eexists _, _. repeat split; vm_compute; reflexivity. Qed.

Lemma split_years_raises_witness :
  split_years Demo.int Demo.loaded_empty Demo.loaded_test = None ∧
  split_years Demo.int Demo.loaded_unreadable Demo.loaded_test = None.
Proof.
  split.
  - apply (proj1 (split_years_raises Demo.int Demo.loaded_empty Demo.loaded_test)).
    reflexivity.
  - apply (proj2 (proj2 (split_years_raises Demo.int Demo.loaded_unreadable
                           Demo.loaded_test)) 2016%Z).
    + vm_compute. reflexivity.
    + vm_compute. discriminate.
    + apply Exists_cons_hd. vm_compute. reflexivity.
Defined.

(** The greatest year is the greatest year string: with a year of three
    digits in the table, a later year of four digits does not count. *)
Example latest_year_of_strings :
  latest_year Demo.int
    {| column_names := ["cik"; "year"; "section_1"];
       rows := [ Demo.filing "718413" "2016" "a";
                 Demo.filing "718413" "999" "b" ] |} = Some 999%Z.
Proof. vm_compute. reflexivity. Qed.

(** ** When [eval_model] returns, and what it stores *)

Lemma loc_key_is_Some (d : Dataset) (docid : nat) :
  wf d → Forall (λ c, c ∈ column_names d) ["cik"; "year"; "section"] →
  is_Some (loc_key d docid) ↔ docid < num_rows d.
Proof.
  intros Hwf Hcols. rewrite !Forall_cons in Hcols. destruct Hcols as (H1 & H2 & H3 & _).
  unfold loc_key, num_rows. rewrite !iloc_row by done. split.
  - intros [k Hk]. destruct (rows d !! docid) as [row|] eqn:Hrow; [|done].
    by apply lookup_lt_Some in Hrow.
  - intros Hlt. destruct (lookup_lt_is_Some_2 (rows d) docid Hlt) as [row Hrow].
    rewrite Hrow. simpl.
    assert (Hin : row ∈ rows d) by by eapply list_elem_of_lookup_2.
    destruct (wf_lookup d row "cik" Hwf Hin H1) as [? ->].
    destruct (wf_lookup d row "year" Hwf Hin H2) as [? ->].
    destruct (wf_lookup d row "section" Hwf Hin H3) as [? ->]. by eexists.
Qed.

Section EvalModelReturns.

Context {Vector Sim : Type}.
Variable simple_preprocess : string → list string.

Lemma row_entry_is_Some (d : Dataset) (col_name : string) (train : Corpus)
    (model : Doc2Vec Vector Sim) (topn : nat) (row : gmap string string) :
  wf d → wf (data train) →
  Forall (λ c, c ∈ column_names d) ["cik"; "year"; "section"; col_name] →
  Forall (λ c, c ∈ column_names (data train)) ["cik"; "year"; "section"] →
  row ∈ rows d →
  is_Some (row_entry simple_preprocess train model topn col_name row)
  ↔ ∃ line, row !! col_name = Some line ∧
      let sims := most_similar model
                    (infer_vector model (simple_preprocess line)) topn in
      sims ≠ [] ∧ Forall (λ s, s.1 < num_rows (data train)) sims.
Proof.
  intros Hwf Hwt Hcols Htrain Hrow.
  rewrite !Forall_cons in Hcols. destruct Hcols as (H1 & H2 & H3 & H4 & _).
  destruct (wf_lookup d row "cik" Hwf Hrow H1) as [cik Hcik].
  destruct (wf_lookup d row "year" Hwf Hrow H2) as [year Hyear].
  destruct (wf_lookup d row "section" Hwf Hrow H3) as [section Hsection].
  destruct (wf_lookup d row col_name Hwf Hrow H4) as [line Hline].
  unfold row_entry. rewrite Hline, Hcik, Hyear, Hsection. simpl.
  assert (Hlet : (∃ line0, Some line = Some line0 ∧
                    let sims := most_similar model
                                  (infer_vector model (simple_preprocess line0)) topn in
                    sims ≠ [] ∧ Forall (λ s, s.1 < num_rows (data train)) sims)
                 ↔ most_similar model (infer_vector model (simple_preprocess line)) topn
                     ≠ [] ∧
                   Forall (λ s, s.1 < num_rows (data train))
                     (most_similar model
                        (infer_vector model (simple_preprocess line)) topn)).
  { split; [by intros (? & [= <-] & ?) | by exists line]. }
  rewrite Hlet. clear Hlet.
  generalize (most_similar model (infer_vector model (simple_preprocess line)) topn).
  intros sims. split.
  - intros [e He].
    destruct (mapM (loc_key (data train)) sims.*1) as [top_n|] eqn:Htop; [|done].
    simpl in He. destruct (top_n !! 0) as [first|] eqn:Hfirst; [|done]. simpl in He.
    destruct (sims !! 0) as [sim|] eqn:Hsim; [|done]. split.
    + intros Hnil. by rewrite Hnil in Hsim.
    + apply mapM_Some_1 in Htop.
      apply (Forall_fmap fst (λ docid, docid < num_rows (data train))).
      eapply Forall2_Forall_l; [exact Htop|].
      apply Forall_forall. intros k _ docid Hk.
      apply (loc_key_is_Some (data train)); [done..|by eexists].
  - intros [Hne Hrange].
    destruct (mapM_is_Some_2 (loc_key (data train)) sims.*1) as [top_n Htop].
    { apply (Forall_fmap fst (λ docid, is_Some (loc_key (data train) docid))).
      eapply Forall_impl; [exact Hrange|]. intros s Hs. simpl.
      by apply (loc_key_is_Some (data train)). }
    rewrite Htop. simpl. pose proof (length_mapM _ _ _ Htop) as Hlen.
    rewrite length_fmap in Hlen.
    destruct sims as [|s sims']; [done|]. destruct top_n as [|k top_n]; [done|].
    simpl. by eexists.
Qed.

(** X8. On tables, [eval_model] returns exactly when the test corpus is not
    empty and, for every test document, [most_similar] gives at least one
    neighbour and only neighbours that are rows of the training table.  An
    empty corpus divides by zero; no neighbour ([topn = 0]) or a neighbour
    outside the table raises in the loop. *)
Theorem eval_model_returns_iff (d : Dataset) (col_name : string)
    (test train : Corpus) (model : Doc2Vec Vector Sim) (topn : nat) :
  wf d → wf (data train) →
  Forall (λ c, c ∈ column_names d) ["cik"; "year"; "section"] →
  Forall (λ c, c ∈ column_names (data train)) ["cik"; "year"; "section"] →
  Corpus_init d col_name = Some test →
  is_Some (eval_model simple_preprocess test train model topn)
  ↔ df test ≠ [] ∧
    Forall (λ line,
              let sims := most_similar model
                            (infer_vector model (simple_preprocess line)) topn in
              sims ≠ [] ∧ Forall (λ s, s.1 < num_rows (data train)) sims)
           (df test).
Proof.
  intros Hwf Hwt Hcols Htrain Hinit.
  assert (Hcol : col_name ∈ column_names d).
  { unfold Corpus_init, column in Hinit. by case_bool_decide. }
  assert (Hdf : Forall2 (λ row line, row !! col_name = Some line) (rows d) (df test)).
  { unfold Corpus_init in Hinit.
    destruct (column col_name d) as [cells|] eqn:Hcells; [|done].
    simpl in Hinit. simplify_eq. simpl. unfold column in Hcells.
    case_bool_decide; [|done]. by apply mapM_Some_1 in Hcells. }
  assert (Hentries : is_Some (mapM (row_entry simple_preprocess train model topn col_name)
                                   (rows d))
            ↔ Forall (λ line,
                 let sims := most_similar model
                               (infer_vector model (simple_preprocess line)) topn in
                 sims ≠ [] ∧ Forall (λ s, s.1 < num_rows (data train)) sims)
                (df test)).
  { rewrite mapM_is_Some. split.
    - intros Hall. eapply Forall2_Forall_r; [exact Hdf|].
      apply Forall_forall. intros row Hrow line Hline.
      rewrite Forall_forall in Hall. specialize (Hall row Hrow). simpl in Hall.
      apply (row_entry_is_Some d) in Hall as (line' & Hl & Hs); try done.
      + by simplify_eq.
      + rewrite !Forall_cons in *. tauto.
    - intros Hall. apply Forall_forall. intros row Hrow. simpl.
      apply (row_entry_is_Some d); try done.
      + rewrite !Forall_cons in *. tauto.
      + apply list_elem_of_lookup in Hrow as [i Hi].
        destruct (Forall2_lookup_l _ _ _ _ _ Hdf Hi) as (line & Hline & Hl).
        exists line. split; [done|]. rewrite Forall_forall in Hall.
        apply Hall. by eapply list_elem_of_lookup_2. }
  unfold eval_model. rewrite eval_loop_entries.
  rewrite (entries_of_rows _ d col_name test) by done.
  rewrite <- Hentries. split.
  - intros [r Hr].
    destruct (mapM _ (rows d)) as [entries|] eqn:Hm; [|done]. simpl in Hr.
    split; [|by eexists]. intros Hnil.
    apply Forall2_length in Hdf. rewrite Hnil in Hdf.
    apply length_zero_iff_nil in Hdf. rewrite Hdf in Hm. simpl in Hm.
    injection Hm as <-. vm_compute in Hr. done.
  - intros [Hne [entries Hm]]. rewrite Hm. simpl.
    destruct (top_foldl_size entries) as [_ Hpos].
    assert (entries ≠ []) as Hne'.
    { intros ->. apply length_mapM in Hm. apply Forall2_length in Hdf.
      destruct (df test); [done|]. simpl in *. lia. }
    specialize (Hpos Hne'). unfold percentage.
    rewrite bool_decide_eq_false_2 by lia. by eexists.
Qed.

(** X9. Whenever [eval_model] returns, the printed same-document accuracy is
    at most the printed same-company accuracy: an entry of [top] whose first
    neighbour has its key has, in particular, its company. *)
Theorem eval_model_document_le_company (test train : Corpus)
    (model : Doc2Vec Vector Sim) (topn : nat) (r : EvalResult Sim) :
  eval_model simple_preprocess test train model topn = Some r →
  (printed_same_document r <= printed_same_company r)%Q.
Proof.
  unfold eval_model. intros Hrun.
  destruct (eval_loop _ _ _ _ _ _ _) as [st|]; [|done]. simpl in Hrun.
  unfold percentage in Hrun. case_bool_decide as Hsize; [done|]. simpl in Hrun.
  simplify_eq. simpl.
  assert (Hcount : count_same_document (top st) ≤ count_same_company (top st)).
  { rewrite count_same_document_size, count_same_company_size.
    apply map_subseteq_size, map_subseteq_spec. intros k v.
    rewrite !map_lookup_filter_Some. intros [Hk Hp]. split; [done|].
    simpl in *. by rewrite Hp. }
  apply Qmult_le_compat_r; [|done].
  apply Qmult_le_compat_r.
  - rewrite <- Zle_Qle. lia.
  - apply Qinv_le_0_compat. change 0%Q with (inject_Z 0). rewrite <- Zle_Qle. lia.
Qed.

End EvalModelReturns.

(** ** [sim_docs] and the counters *)

Lemma Counter_snoc (xs : list string) (x : string) :
  Counter (xs ++ [x]) = <[x := S (default 0 (Counter xs !! x))]> (Counter xs).
Proof. unfold Counter. by rewrite foldl_app. Qed.

(** [Counter] maps a value to the number of its occurrences, and holds no
    value that does not occur. *)
Lemma Counter_lookup (xs : list string) (x : string) :
  Counter xs !! x
  = if decide (x ∈ xs) then Some (length (filter (λ y, y = x) xs)) else None.
Proof.
  induction xs as [|y xs IH] using rev_ind; [done|].
  rewrite Counter_snoc, filter_app, length_app, filter_cons, filter_nil.
  destruct (decide (y = x)) as [->|Hne].
  - rewrite lookup_insert_eq, IH.
    rewrite (decide_True (P := x ∈ xs ++ [x])) by (apply elem_of_app; right; left).
    destruct (decide (x ∈ xs)) as [Hin|Hnot]; simpl; [f_equal; lia|].
    f_equal. assert (filter (λ y, y = x) xs = []) as ->; [|done].
    destruct (filter (λ y, y = x) xs) as [|z zs] eqn:Hf; [done|].
    exfalso. apply Hnot. assert (z ∈ filter (λ y, y = x) xs) as Hz by (rewrite Hf; left).
    by apply list_elem_of_filter in Hz as [-> ?].
  - rewrite lookup_insert_ne, IH by done. simpl. rewrite Nat.add_0_r.
    destruct (decide (x ∈ xs)) as [Hin|Hnot].
    + rewrite (decide_True (P := x ∈ xs ++ [y])) by (apply elem_of_app; by left). done.
    + rewrite (decide_False (P := x ∈ xs ++ [y])); [done|].
      rewrite elem_of_app, list_elem_of_singleton. intros [?|?]; [done|congruence].
Qed.

Section EvalModelStores.

Context {Vector Sim : Type}.
Variable simple_preprocess : string → list string.

Lemma sim_docs_foldl_lookup (st : EvalState Sim) (entries : list (DocEntry Sim))
    (cik : string) :
  sim_docs (foldl add_entry st entries) !! cik
  = match last (filter (λ e, (entry_key e).1.1 = cik) entries) with
    | Some e => Some (entry_counter e)
    | None => sim_docs st !! cik
    end.
Proof.
  induction entries as [|e entries IH] using rev_ind; [done|].
  rewrite foldl_app, filter_app, filter_cons, filter_nil. cbn [foldl add_entry sim_docs].
  destruct (decide ((entry_key e).1.1 = cik)) as [<-|Hne].
  - by rewrite lookup_insert_eq, last_snoc.
  - rewrite lookup_insert_ne by done. by rewrite app_nil_r.
Qed.

(** X10. Whenever [eval_model] returns, [sim_docs] has an entry for exactly
    the companies that have an entry in [top], and the entry of a company is
    the counter of the last test document of that company, whatever its year
    and section. *)
Theorem eval_model_sim_docs (test train : Corpus) (model : Doc2Vec Vector Sim)
    (topn : nat) (r : EvalResult Sim) :
  eval_model simple_preprocess test train model topn = Some r →
  ∃ entries,
    mapM (doc_entry simple_preprocess test train model topn)
         (seq 0 (Corpus_len test)) = Some entries ∧
    (∀ cik, is_Some (sim_docs (returned r) !! cik)
            ↔ ∃ year section, is_Some (top (returned r) !! (cik, year, section))) ∧
    (∀ cik, sim_docs (returned r) !! cik
            = entry_counter <$> last (filter (λ e, (entry_key e).1.1 = cik) entries)).
Proof.
  unfold eval_model. rewrite eval_loop_entries. intros Hrun.
  destruct (mapM _ _) as [entries|]; [|simpl in Hrun; discriminate Hrun]. simpl in Hrun.
  destruct (percentage (count_same_document _) _);
    [|simpl in Hrun; discriminate Hrun]. simpl in Hrun.
  destruct (percentage (count_same_company _) _);
    [|simpl in Hrun; discriminate Hrun]. simpl in Hrun.
  simplify_eq. simpl.
  exists entries. split; [done|].
  assert (Hsim : ∀ cik,
            sim_docs (foldl add_entry {| top := ∅; sim_docs := ∅ |} entries) !! cik
            = entry_counter <$> last (filter (λ e, (entry_key e).1.1 = cik) entries)).
  { intros cik. rewrite sim_docs_foldl_lookup.
    by destruct (last (filter (λ e, (entry_key e).1.1 = cik) entries)). }
  split; [|done]. intros cik. rewrite Hsim. split.
  - intros [c Hc]. destruct (last _) as [e|] eqn:Hlast; [|done].
    apply last_Some_elem_of, list_elem_of_filter in Hlast as [Hk Hin].
    destruct (entry_key e) as [[c' y] s] eqn:Hkey. simpl in Hk. subst c'.
    exists y, s. rewrite top_foldl_lookup.
    destruct (last (filter (λ e0, entry_key e0 = (cik, y, s)) entries)) eqn:Hl;
      [by eexists|].
    exfalso. apply last_None in Hl.
    assert (e ∈ filter (λ e0, entry_key e0 = (cik, y, s)) entries) as He
      by by apply list_elem_of_filter.
    rewrite Hl in He. by apply elem_of_nil in He.
  - intros (y & s & [v Hv]). rewrite top_foldl_lookup in Hv.
    destruct (last (filter (λ e0, entry_key e0 = (cik, y, s)) entries)) as [e|] eqn:Hl;
      [|cbn [top] in Hv; by rewrite lookup_empty in Hv].
    apply last_Some_elem_of, list_elem_of_filter in Hl as [Hk Hin].
    destruct (last (filter (λ e0, (entry_key e0).1.1 = cik) entries)) eqn:Hl';
      [by eexists|].
    exfalso. apply last_None in Hl'.
    assert (e ∈ filter (λ e0, (entry_key e0).1.1 = cik) entries) as He.
    { apply list_elem_of_filter. by rewrite Hk. }
    rewrite Hl' in He. by apply elem_of_nil in He.
Qed.

(** X11. What the loop stores for a document: the key is the [cik], [year] and
    [section] of its row; the tuple put into [top] is the row of the first
    neighbour in the training table with the similarity of that neighbour;
    and the counter maps each company to the number of neighbours that are
    rows of the company, so that the counts add up over the neighbours. *)
Theorem doc_entry_stores (test train : Corpus) (model : Doc2Vec Vector Sim)
    (topn doc_id : nat) (e : DocEntry Sim) :
  doc_entry simple_preprocess test train model topn doc_id = Some e →
  ∃ line top_n first sim,
    df test !! doc_id = Some line ∧
    let sims := most_similar model
                  (infer_vector model (simple_preprocess line)) topn in
    Forall2 (λ s k, loc_key (data train) s.1 = Some k) sims top_n ∧
    sims !! 0 = Some sim ∧ top_n !! 0 = Some first ∧
    iloc (data test) "cik" doc_id = Some (entry_key e).1.1 ∧
    iloc (data test) "year" doc_id = Some (entry_key e).1.2 ∧
    iloc (data test) "section" doc_id = Some (entry_key e).2 ∧
    entry_value e = (first, sim.2) ∧
    ∀ company,
      entry_counter e !! company
      = if decide (company ∈ (λ k : string * string * string, k.1.1) <$> top_n)
        then Some (length (filter (λ k : string * string * string, k.1.1 = company)
                                  top_n))
        else None.
Proof.
  unfold doc_entry, Corpus_iter. rewrite list_lookup_imap. intros He.
  destruct (df test !! doc_id) as [line|]; [|done]. simpl in He.
  destruct (iloc (data test) "cik" doc_id) as [cik|]; [|done]. simpl in He.
  destruct (iloc (data test) "year" doc_id) as [year|]; [|done]. simpl in He.
  destruct (iloc (data test) "section" doc_id) as [section|]; [|done]. simpl in He.
  destruct (mapM _ _) as [top_n|] eqn:Htop; [|done]. simpl in He.
  destruct (top_n !! 0) as [first|] eqn:Hfirst; [|done]. simpl in He.
  destruct (most_similar model _ topn !! 0) as [sim|] eqn:Hsim; [|done].
  simpl in He. simplify_eq.
  exists line, top_n, first, sim. split; [done|]. cbn zeta. simpl.
  apply mapM_Some_1, Forall2_fmap_l in Htop.
  repeat split; try done.
  intros company. rewrite Counter_lookup.
  assert (Hlen : ∀ l : list (string * string * string),
            length (filter (λ y, y = company) ((λ k, k.1.1) <$> l))
            = length (filter (λ k, k.1.1 = company) l)).
  { induction l as [|k l IH]; [done|]. rewrite fmap_cons, !filter_cons.
    case_decide; simpl; by rewrite IH. }
  by rewrite Hlen.
Qed.

End EvalModelStores.

(** ** A corpus on selected rows *)

Section CorpusSelect.

Variable simple_preprocess : string → list string.

(** X12. A corpus built on [d.select(indices)], as the validation corpus is,
    exists whenever the corpus on [d] exists and the indices are rows of
    [d]; it has one document per index, with the words of the document of
    [d] at that index, and tags it with its position in the selection, not
    with the index.  An index that is not a row of [d] makes [select]
    raise. *)
Theorem Corpus_on_selection (d : Dataset) (col_name : string) (c : Corpus)
    (indices : list nat) :
  Corpus_init d col_name = Some c →
  (Forall (λ i, i < num_rows d) indices ↔ is_Some (select indices d)) ∧
  ∀ d', select indices d = Some d' →
    ∃ c', Corpus_init d' col_name = Some c' ∧
          Corpus_len c' = length indices ∧
          ∀ i index, indices !! i = Some index →
            ∃ doc, Corpus_iter simple_preprocess c !! index = Some doc ∧
                   tags doc = [index] ∧
                   Corpus_iter simple_preprocess c' !! i
                   = Some (mkTaggedDocument (words doc) [i]).
Proof.
  intros Hinit. split.
  - unfold select. split.
    + intros Hall.
      destruct (mapM_is_Some_2 (λ i, rows d !! i) indices) as [picked ->]; [|done].
      eapply Forall_impl; [exact Hall|]. intros i Hi. by apply lookup_lt_is_Some_2.
    + intros [d' Hd'].
      destruct (mapM (λ i, rows d !! i) indices) as [picked|] eqn:Hp; [|done].
      apply mapM_Some_1 in Hp. eapply Forall2_Forall_l; [exact Hp|].
      apply Forall_forall. intros row _ i Hi. by apply lookup_lt_Some in Hi.
  - intros d' Hsel. unfold select in Hsel.
    destruct (mapM (λ i, rows d !! i) indices) as [picked|] eqn:Hp; [|done].
    simpl in Hsel. simplify_eq. apply mapM_Some_1 in Hp.
    unfold Corpus_init in Hinit.
    destruct (column col_name d) as [cells|] eqn:Hcells; [|done].
    simpl in Hinit. simplify_eq.
    pose proof Hcells as Hcol. unfold column in Hcol. case_bool_decide as Hin; [|done].
    assert (Hcells' : mapM (λ row : gmap string string, row !! col_name) picked
                      = Some ((λ index, default "" (cells !! index)) <$> indices)).
    { apply mapM_Some_2. apply Forall2_fmap_r, Forall2_flip.
      eapply Forall2_impl; [exact Hp|]. intros index row Hrow. simpl.
      pose proof (column_lookup d col_name cells index Hcells) as Hc.
      rewrite Hrow in Hc. simpl in Hc.
      apply mapM_Some_1 in Hcol.
      destruct (Forall2_lookup_l _ _ _ _ _ Hcol Hrow) as (cell & Hcell & Hrc).
      by rewrite Hcell, Hrc. }
    eexists. split.
    { unfold Corpus_init, column. cbn [column_names rows].
      rewrite bool_decide_eq_true_2 by done. rewrite Hcells'. done. }
    unfold Corpus_len, Corpus_iter. cbn [df]. split; [by rewrite length_fmap|].
    intros i index Hi.
    destruct (Forall2_lookup_l _ _ _ _ _ Hp Hi) as (row & _ & Hrow).
    pose proof (column_lookup d col_name cells index Hcells) as Hc.
    rewrite Hrow in Hc. simpl in Hc. apply mapM_Some_1 in Hcol.
    destruct (Forall2_lookup_l _ _ _ _ _ Hcol Hrow) as (cell & Hcell & Hrc).
    exists (mkTaggedDocument (simple_preprocess cell) [index]).
    rewrite !list_lookup_imap, list_lookup_fmap, Hi, Hcell. simpl.
    by rewrite Hcell.
Qed.

End CorpusSelect.

(** Runs of the statements above on the concrete inputs. *)

Lemma eval_model_returns_iff_witness :
  is_Some (eval_model String.words (Demo.corpus Demo.test_table)
                      (Demo.corpus Demo.train_table) Demo.model 10) ∧
  ¬ is_Some (eval_model String.words (Demo.corpus Demo.test_table)
                        (Demo.corpus Demo.train_table) Demo.model 0).
Proof.
  assert (Hiff : ∀ topn,
            is_Some (eval_model String.words (Demo.corpus Demo.test_table)
                                (Demo.corpus Demo.train_table) Demo.model topn)
            ↔ df (Demo.corpus Demo.test_table) ≠ [] ∧
              Forall (λ line,
                        let sims := most_similar Demo.model
                                      (infer_vector Demo.model (String.words line))
                                      topn in
                        sims ≠ [] ∧
                        Forall (λ s, s.1 < num_rows (data (Demo.corpus Demo.train_table)))
                               sims)
                     (df (Demo.corpus Demo.test_table))).
  { intros topn.
    apply (eval_model_returns_iff String.words Demo.test_table "parsed_sections"
             (Demo.corpus Demo.test_table) (Demo.corpus Demo.train_table)
             Demo.model topn).
    - repeat constructor; vm_compute; reflexivity.
    - repeat constructor; vm_compute; reflexivity.
    - apply (bool_decide_unpack _). vm_compute. exact I.
    - apply (bool_decide_unpack _). vm_compute. exact I.
    - vm_compute. reflexivity. }
  split.
  - apply Hiff. split; [vm_compute; discriminate|].
    repeat constructor; vm_compute; (discriminate || lia).
  - intros Hsome. apply Hiff in Hsome as [_ Hall].
    apply Forall_cons in Hall as [[Hne _] _]. by apply Hne.
Defined.

Lemma eval_model_document_le_company_witness :
  ∃ r, eval_model String.words (Demo.corpus Demo.test_table)
                  (Demo.corpus Demo.train_table) Demo.model 10 = Some r ∧
       (printed_same_document r <= printed_same_company r)%Q.
Proof.
  destruct (eval_model String.words (Demo.corpus Demo.test_table)
              (Demo.corpus Demo.train_table) Demo.model 10) as [r|] eqn:Hrun;
    [|vm_compute in Hrun; discriminate Hrun].
  exists r. split; [reflexivity|].
  exact (eval_model_document_le_company String.words (Demo.corpus Demo.test_table)
           (Demo.corpus Demo.train_table) Demo.model 10 r Hrun).
Defined.

Lemma eval_model_sim_docs_witness :
  ∃ r, eval_model String.words (Demo.corpus Demo.test_table)
                  (Demo.corpus Demo.train_table) Demo.model 10 = Some r ∧
       (is_Some (sim_docs (returned r) !! "718413")
        ↔ ∃ year section, is_Some (top (returned r) !! ("718413", year, section))).
Proof.
  destruct (eval_model String.words (Demo.corpus Demo.test_table)
              (Demo.corpus Demo.train_table) Demo.model 10) as [r|] eqn:Hrun;
    [|vm_compute in Hrun; discriminate Hrun].
  exists r. split; [reflexivity|].
  destruct (eval_model_sim_docs String.words (Demo.corpus Demo.test_table)
              (Demo.corpus Demo.train_table) Demo.model 10 r Hrun)
    as (entries & _ & Hiff & _).
  exact (Hiff "718413").
Defined.

Lemma doc_entry_stores_witness :
  ∃ e, doc_entry String.words (Demo.corpus Demo.test_table)
                 (Demo.corpus Demo.train_table) Demo.model 10 1 = Some e ∧
       entry_key e = ("718413", "2016", "7") ∧
       entry_value e = (("1001039", "2015", "7"), (8 # 10)%Q).
Proof.
  destruct (doc_entry String.words (Demo.corpus Demo.test_table)
              (Demo.corpus Demo.train_table) Demo.model 10 1) as [e|] eqn:Hrun;
    [|vm_compute in Hrun; discriminate Hrun].
  exists e. split; [reflexivity|].
  destruct (doc_entry_stores String.words (Demo.corpus Demo.test_table)
              (Demo.corpus Demo.train_table) Demo.model 10 1 e Hrun)
    as (line & top_n & first & sim & Hline & Htop & Hsim & Hfirst & Hcik & Hyear
        & Hsection & Hvalue & _).
  vm_compute in Hline. injection Hline as <-.
  vm_compute in Hsim. injection Hsim as <-.
  apply Forall2_cons_inv_l in Htop as (k & rest & Hk & _ & ->).
  vm_compute in Hk. injection Hk as <-.
  injection Hfirst as <-.
  vm_compute in Hcik, Hyear, Hsection.
  destruct e as [[[cik year] section] value counter]. simpl in *.
  split; [congruence|]. exact Hvalue.
Defined.

Lemma Corpus_on_selection_witness :
  ∃ d', select [1; 0; 1] Demo.train_table = Some d' ∧
        ∃ c', Corpus_init d' "parsed_sections" = Some c' ∧
              Corpus_len c' = 3 ∧
              Corpus_iter String.words c' !! 2
              = Some (mkTaggedDocument ["beta"] [2]).
Proof.
  destruct (Corpus_on_selection String.words Demo.train_table "parsed_sections"
              (Demo.corpus Demo.train_table) [1; 0; 1]) as [Hiff Hsel].
  - vm_compute. reflexivity.
  - destruct (proj1 Hiff) as [d' Hd'].
    + repeat constructor; vm_compute; lia.
    + exists d'. split; [exact Hd'|].
      destruct (Hsel d' Hd') as (c' & Hc' & Hlen & Hdocs).
      exists c'. split; [exact Hc'|]. split; [exact Hlen|].
      destruct (Hdocs 2 1 eq_refl) as (doc & Hdoc & _ & ->).
      vm_compute in Hdoc. injection Hdoc as <-. reflexivity.
Defined.

(** ** The shape of the pooled vectors *)

Lemma vadd_length (h : nat) (u v : list Q) :
  length u = h → length v = h → length (vadd u v) = h.
Proof.
  revert h v. induction u as [|x u IH]; intros h [|y v] Hu Hv; simpl in *; try done.
  destruct h as [|h]; [done|]. f_equal. apply IH; lia.
Qed.

Lemma reduce_sum_01_length (h : nat) (t : list (list (list Q))) :
  Forall (Forall (λ v, length v = h)) t →
  concat t ≠ [] →
  length (reduce_sum_01 t) = h.
Proof.
  intros Hall Hne. unfold reduce_sum_01.
  assert (Hflat : Forall (λ v, length v = h) (concat t)).
  { clear Hne. induction Hall; [constructor|]. cbn [concat]. by apply Forall_app. }
  destruct (concat t) as [|v vs]; [done|].
  apply Forall_cons in Hflat as [Hv Hvs]. simpl. clear Hne.
  revert v Hv. induction Hvs as [|w ws Hw _ IH]; intros v Hv; simpl; [done|].
  apply IH. by apply vadd_length.
Qed.

Lemma slice_length {A} (s_idx e_idx : nat) (t : list A) :
  e_idx ≤ length t → length (slice s_idx e_idx t) = e_idx - s_idx.
Proof. intros Hle. unfold slice. rewrite length_drop, length_take. lia. Qed.

Lemma slice_Forall {A} (P : A → Prop) (s_idx e_idx : nat) (t : list A) :
  Forall P t → Forall P (slice s_idx e_idx t).
Proof. intros Hall. unfold slice. by apply Forall_drop, Forall_take. Qed.

(** X13. When the token embeddings have [n] chunks of [s >= 1] tokens with [h]
    hidden units, and the mask and [sample_map] have the matching shapes,
    every vector that [mean_pooling] returns has length [h], and there are
    [BATCH_SIZE] of them. *)
Theorem mean_pooling_shape (n s h : nat) (model_output : ModelOutput)
    (attention_mask : list (list Z)) (sample_map : list nat)
    (vectors : list (list Q)) :
  tensor_shape n s h (last_hidden_state model_output) →
  mask_shape n s attention_mask →
  length sample_map = n →
  0 < s →
  mean_pooling model_output attention_mask sample_map = Some vectors →
  length vectors = BATCH_SIZE ∧ Forall (λ v, length v = h) vectors.
Proof.
  intros [Hn Hemb] [Hmn Hmask] Hsm Hs Hrun.
  unfold mean_pooling in Hrun. apply mapM_Some_1 in Hrun. split.
  { apply Forall2_length in Hrun. by rewrite length_seq in Hrun. }
  eapply Forall2_Forall_r; [exact Hrun|]. apply Forall_forall.
  intros i _ v Hv. unfold pool_document in Hv.
  destruct (slice_bounds sample_map i) as [[s_idx e_idx]|] eqn:Hb; [|done].
  simpl in Hv. simplify_eq. rewrite length_fmap.
  assert (Hin : i ∈ sample_map).
  { destruct (decide (i ∈ sample_map)) as [|Hnot]; [done|].
    by rewrite (slice_bounds_None _ _ Hnot) in Hb. }
  destruct (slice_bounds_Some _ _ Hin) as (s' & e' & Hb' & Hlt & _).
  rewrite Hb in Hb'. simplify_eq.
  unfold sum_embeddings_of.
  set (E := slice s' e' (last_hidden_state model_output)).
  set (M := slice s' e' (expand_mask attention_mask)).
  assert (HE : Forall (λ chunk, length chunk = s ∧ Forall (λ v, length v = h) chunk) E)
    by by apply slice_Forall.
  assert (HM : Forall (λ chunk : list (list Q),
                         length chunk = s ∧ Forall (λ m, length m = 1) chunk) M).
  { apply slice_Forall. unfold expand_mask. apply Forall_fmap.
    eapply Forall_impl; [exact Hmask|]. intros chunk Hc. simpl.
    rewrite length_fmap. split; [done|]. apply Forall_fmap, Forall_forall. done. }
  assert (HlenE : length E = e' - s') by (apply slice_length; lia).
  assert (HlenM : length M = e' - s').
  { apply slice_length. unfold expand_mask. rewrite length_fmap. lia. }
  clearbody E M.
  assert (Hprod : Forall (λ chunk, length chunk = s ∧ Forall (λ v, length v = h) chunk)
                         (tensor_mul E M)).
  { clear HlenE HlenM. unfold tensor_mul. revert M HM.
    induction HE as [|c E' [Hc1 Hc2] _ IH]; intros M HM; [constructor|].
    destruct HM as [|cm M' [Hm1 Hm2] HM']; [constructor|].
    simpl. constructor; [|by apply IH]. split.
    - rewrite length_zip_with. lia.
    - clear -Hc2 Hm2. revert cm Hm2.
      induction Hc2 as [|v c' Hv _ IH]; intros cm Hm2; [constructor|].
      destruct Hm2 as [|m cm' Hm Hm2']; [constructor|]. simpl.
      constructor; [|by apply IH].
      destruct m as [|x [|??]]; simpl in Hm; try done. simpl. by rewrite length_fmap. }
  apply reduce_sum_01_length.
  - eapply Forall_impl; [exact Hprod|]. by intros ? [_ ?].
  - assert (Hlen : length (tensor_mul E M) = e' - s').
    { unfold tensor_mul. rewrite length_zip_with. lia. }
    destruct (tensor_mul E M) as [|c rest]; [simpl in Hlen; lia|].
    apply Forall_cons in Hprod as [[Hc _] _]. cbn [concat].
    destruct c; [simpl in Hc; lia | done].
Qed.

(** ** The size of a batch of [get_embeddings] *)

(** X14. Let the tokenizer map the chunks of a batch to the positions of its
    texts, every text having a chunk.  On a batch with the columns [cik],
    [year], [section] and the text column, [get_embeddings] returns exactly
    when the batch has at least [BATCH_SIZE] texts.  The result carries the
    three key columns unchanged, names the vectors [<column>_embedding], and
    has [BATCH_SIZE] vectors: for a longer batch the texts after the first
    [BATCH_SIZE] get no vector, and a missing column raises. *)
Theorem get_embeddings_batch_size
    (tokenizer : list string → Encoding)
    (sbert_model : list (list Z) → list (list Z) → ModelOutput)
    (data : gmap string (list string)) (col_name : string) (texts : list string) :
  data !! col_name = Some texts →
  list_to_set (C := gset nat) (overflow_to_sample_mapping (tokenizer texts))
  = set_seq 0 (length texts) →
  (is_Some (get_embeddings tokenizer sbert_model data col_name)
   ↔ is_Some (data !! "cik") ∧ is_Some (data !! "year") ∧
     is_Some (data !! "section") ∧ BATCH_SIZE ≤ length texts) ∧
  ∀ r, get_embeddings tokenizer sbert_model data col_name = Some r →
       data !! "cik" = Some (emb_cik r) ∧
       data !! "year" = Some (emb_year r) ∧
       data !! "section" = Some (emb_section r) ∧
       emb_name r = col_name +:+ "_embedding" ∧
       length (emb_vectors r) = BATCH_SIZE ∧
       (BATCH_SIZE < length texts → length (emb_vectors r) < length texts).
Proof.
  intros Htexts Hmap.
  assert (Hcover : (∀ i, i < BATCH_SIZE →
                      i ∈ overflow_to_sample_mapping (tokenizer texts))
                   ↔ BATCH_SIZE ≤ length texts).
  { assert (Hmem : ∀ i, i ∈ overflow_to_sample_mapping (tokenizer texts)
                        ↔ i < length texts).
    { intros i. rewrite <- (elem_of_list_to_set (C := gset nat)), Hmap, elem_of_set_seq.
      lia. }
    split.
    - intros Hall. specialize (Hall (BATCH_SIZE - 1)). rewrite Hmem in Hall.
      unfold BATCH_SIZE in *. lia.
    - intros Hle i Hi. apply Hmem. lia. }
  assert (Hpool : ∀ mo am,
            is_Some (mean_pooling mo am (overflow_to_sample_mapping (tokenizer texts)))
            ↔ BATCH_SIZE ≤ length texts).
  { intros mo am. rewrite <- Hcover. unfold mean_pooling.
    rewrite mapM_is_Some, Forall_forall. split.
    - intros Hall i Hi.
      apply (pool_document_is_Some (last_hidden_state mo) (expand_mask am)), Hall,
        elem_of_seq. lia.
    - intros Hall i Hi%elem_of_seq. unfold compose.
      apply pool_document_is_Some, Hall. lia. }
  unfold get_embeddings, encoder_input. rewrite Htexts. simpl. split.
  - split.
    + intros [r Hr].
      destruct (data !! "cik"); [|done]. simpl in Hr.
      destruct (data !! "year"); [|done]. simpl in Hr.
      destruct (data !! "section"); [|done]. simpl in Hr.
      destruct (mean_pooling _ _ _) as [vs|] eqn:Hm; [|done].
      repeat split; try done.
      apply (Hpool (sbert_model (input_ids (tokenizer texts))
                                (attention_mask (tokenizer texts)))
                   (attention_mask (tokenizer texts))). by rewrite Hm.
    + intros ([cik ->] & [year ->] & [section ->] & Hle). simpl.
      apply (Hpool (sbert_model (input_ids (tokenizer texts))
                                (attention_mask (tokenizer texts)))
                   (attention_mask (tokenizer texts))) in Hle as [vs ->].
      by eexists.
  - intros r Hr.
    destruct (data !! "cik"); [|done]. simpl in Hr.
    destruct (data !! "year"); [|done]. simpl in Hr.
    destruct (data !! "section"); [|done]. simpl in Hr.
    destruct (mean_pooling _ _ _) as [vs|] eqn:Hm; [|done].
    simpl in Hr. simplify_eq. simpl.
    assert (Hlen : length vs = BATCH_SIZE).
    { unfold mean_pooling in Hm. apply length_mapM in Hm.
      by rewrite length_seq in Hm. }
    repeat split; try done. lia.
Qed.

(** ** Padding *)

Lemma Forall3_take {A B C} (P : A → B → C → Prop) (n : nat) l k m :
  Forall3 P l k m → Forall3 P (take n l) (take n k) (take n m).
Proof.
  intros H. revert n. induction H as [|x y z l k m Hx _ IH]; intros [|n]; simpl;
    constructor; auto.
Qed.

Lemma Forall3_drop {A B C} (P : A → B → C → Prop) (n : nat) l k m :
  Forall3 P l k m → Forall3 P (drop n l) (drop n k) (drop n m).
Proof.
  intros H. revert n. induction H as [|x y z l k m Hx Hrest IH]; intros [|n]; simpl;
    try constructor; auto.
Qed.

Lemma vadd_Qeq (u u' v v' : list Q) :
  Forall2 Qeq u u' → Forall2 Qeq v v' → Forall2 Qeq (vadd u v) (vadd u' v').
Proof.
  intros Hu. revert v v'. induction Hu as [|x x' u u' Hx Hu IH]; intros v v' Hv.
  - simpl. exact Hv.
  - destruct Hv as [|y y' v v' Hy Hv]; simpl.
    + by constructor.
    + constructor; [by rewrite Hx, Hy | by apply IH].
Qed.

Lemma reduce_sum_01_Qeq (t t' : list (list (list Q))) :
  Forall2 (Forall2 (Forall2 Qeq)) t t' →
  Forall2 Qeq (reduce_sum_01 t) (reduce_sum_01 t').
Proof.
  intros Ht. unfold reduce_sum_01.
  assert (Hflat : Forall2 (Forall2 Qeq) (concat t) (concat t')).
  { induction Ht; [constructor|]. cbn [concat]. by apply Forall2_app. }
  assert (Hacc : Forall2 Qeq [] []) by constructor.
  revert Hacc. generalize (@nil Q) at 1 3. generalize (@nil Q).
  induction Hflat as [|v v' l l' Hv _ IH]; intros acc' acc Hacc; simpl; [done|].
  apply IH. by apply vadd_Qeq.
Qed.

Lemma mul_row_masked (m : Z) (v v' : list Q) :
  length v = length v' → (m ≠ 0%Z → v = v') →
  Forall2 Qeq (mul_row v [inject_Z m]) (mul_row v' [inject_Z m]).
Proof.
  intros Hlen Hsame. simpl. destruct (decide (m = 0%Z)) as [->|Hm].
  - apply Forall2_fmap. apply Forall2_same_length_lookup_2; [done|].
    intros i x y _ _. simpl. ring.
  - rewrite (Hsame Hm). apply Forall2_fmap, Forall_Forall2_diag, Forall_forall.
    intros x _. reflexivity.
Qed.

Lemma tensor_mul_masked (attention_mask : list (list Z))
    (t t' : list (list (list Q))) :
  agree_where_attended attention_mask t t' →
  Forall2 (Forall2 (Forall2 Qeq))
          (tensor_mul t (expand_mask attention_mask))
          (tensor_mul t' (expand_mask attention_mask)).
Proof.
  unfold agree_where_attended, tensor_mul, expand_mask.
  induction 1 as [|cm c c' am t t' Hc _ IH]; [constructor|].
  rewrite fmap_cons. simpl. constructor; [|exact IH].
  clear IH. induction Hc as [|m v v' cm c c' [Hlen Hsame] _ IH]; [constructor|].
  rewrite fmap_cons. simpl. constructor; [|exact IH].
  by apply (mul_row_masked m).
Qed.

(** X15. Padding has no effect: when two tensors of token embeddings have
    the shape of the mask and differ only at tokens whose mask entry is
    zero, [mean_pooling] raises on both or returns, document by document and
    entry by entry, equal rationals. *)
Theorem mean_pooling_ignores_padding (model_output model_output' : ModelOutput)
    (attention_mask : list (list Z)) (sample_map : list nat) :
  agree_where_attended attention_mask (last_hidden_state model_output)
                       (last_hidden_state model_output') →
  option_Forall2 (Forall2 (Forall2 Qeq))
    (mean_pooling model_output attention_mask sample_map)
    (mean_pooling model_output' attention_mask sample_map).
Proof.
  intros Hagree. unfold mean_pooling.
  assert (Hdoc : ∀ i, option_Forall2 (Forall2 Qeq)
            (pool_document (last_hidden_state model_output)
                           (expand_mask attention_mask) sample_map i)
            (pool_document (last_hidden_state model_output')
                           (expand_mask attention_mask) sample_map i)).
  { intros i. unfold pool_document.
    destruct (slice_bounds sample_map i) as [[s_idx e_idx]|]; [|constructor].
    simpl. constructor. apply Forall2_fmap.
    unfold sum_embeddings_of. rewrite slice_expand_mask.
    eapply Forall2_impl.
    - apply reduce_sum_01_Qeq, tensor_mul_masked.
      unfold agree_where_attended, slice. by apply Forall3_drop, Forall3_take.
    - intros x y Hxy. simpl. by rewrite Hxy. }
  induction (seq 0 BATCH_SIZE) as [|i rest IH]; [by repeat constructor|].
  cbn [mapM]. destruct (Hdoc i) as [v v' Hv|]; [|constructor]. simpl.
  destruct IH as [vs vs' Hvs|]; simpl; constructor. by constructor.
Qed.

(** Runs of the statements above on the concrete inputs. *)

Lemma mean_pooling_shape_witness :
  let encoded_input := Demo.tokenizer Demo.texts16 in
  let vectors :=
    default []
      (mean_pooling (Demo.sbert_model (input_ids encoded_input)
                       (attention_mask encoded_input))
                    (attention_mask encoded_input)
                    (overflow_to_sample_mapping encoded_input)) in
  length vectors = BATCH_SIZE ∧ Forall (λ v, length v = 2) vectors.
Proof.
  intros encoded_input vectors.
  apply (mean_pooling_shape 20 4 2
           (Demo.sbert_model (input_ids encoded_input) (attention_mask encoded_input))
           (attention_mask encoded_input)
           (overflow_to_sample_mapping encoded_input)).
  - unfold tensor_shape. apply (bool_decide_unpack _). vm_compute. exact I.
  - unfold mask_shape. apply (bool_decide_unpack _). vm_compute. exact I.
  - vm_compute. reflexivity.
  - lia.
  - vm_compute. reflexivity.
Defined.

Lemma get_embeddings_batch_size_witness :
  is_Some (get_embeddings Demo.tokenizer Demo.sbert_model Demo.batch16
             "raw_sections") ∧
  ¬ is_Some (get_embeddings Demo.tokenizer Demo.sbert_model Demo.batch3
               "raw_sections").
Proof.
  split.
  - apply (get_embeddings_batch_size Demo.tokenizer Demo.sbert_model Demo.batch16
             "raw_sections" Demo.texts16).
    + reflexivity.
    + apply (bool_decide_unpack _). vm_compute. exact I.
    + repeat split; try (eexists; reflexivity). vm_compute. lia.
  - intros Hsome.
    apply (get_embeddings_batch_size Demo.tokenizer Demo.sbert_model Demo.batch3
             "raw_sections" (take 3 Demo.texts16)) in Hsome.
    + destruct Hsome as (_ & _ & _ & Hle). vm_compute in Hle. lia.
    + reflexivity.
    + apply (bool_decide_unpack _). vm_compute. exact I.
Defined.

Lemma mean_pooling_ignores_padding_witness :
  let encoded_input := Demo.tokenizer Demo.texts16 in
  option_Forall2 (Forall2 (Forall2 Qeq))
    (mean_pooling (Demo.sbert_model (input_ids encoded_input)
                     (attention_mask encoded_input))
                  (attention_mask encoded_input)
                  (overflow_to_sample_mapping encoded_input))
    (mean_pooling (Demo.sbert_model_noisy (input_ids encoded_input)
                     (attention_mask encoded_input))
                  (attention_mask encoded_input)
                  (overflow_to_sample_mapping encoded_input)).
Proof.
  intros encoded_input. apply mean_pooling_ignores_padding.
  unfold agree_where_attended. vm_compute.
  repeat first
    [ apply Forall3_nil
    | apply Forall3_cons
    | apply conj;
      [ reflexivity
      | intros Hm; first [reflexivity | exfalso; apply Hm; reflexivity] ] ].
Defined.

(** ** The extreme values of the printed accuracies *)

Lemma percentage_extremes (accuracy len_top : nat) (p : Q) :
  accuracy ≤ len_top →
  percentage accuracy len_top = Some p →
  ((p == 100)%Q ↔ accuracy = len_top) ∧ ((p == 0)%Q ↔ accuracy = 0).
Proof.
  unfold percentage. intros Hle Hp. case_bool_decide as Hlen; [done|].
  injection Hp as <-.
  assert (Hpos : (0 < inject_Z (Z.of_nat len_top))%Q).
  { change 0%Q with (inject_Z 0). rewrite <- Zlt_Qlt. lia. }
  assert (Hne : ¬ (inject_Z (Z.of_nat len_top) == 0)%Q).
  { intros Hz. rewrite Hz in Hpos. by apply Qlt_irrefl in Hpos. }
  set (q := inject_Z (Z.of_nat accuracy)) in *.
  set (dq := inject_Z (Z.of_nat len_top)) in *.
  split; split.
  - intros Heq.
    assert (Hq : (q == dq)%Q).
    { assert (Hexp : (q == q / dq * 100 * (dq / 100))%Q) by (field; done).
      rewrite Hexp, Heq. field. }
    subst q dq. apply (proj1 (inject_Z_injective _ _)) in Hq. lia.
  - intros ->. subst q dq. field. done.
  - intros Heq.
    assert (Hq : (q == 0)%Q).
    { assert (Hexp : (q == q / dq * 100 * (dq / 100))%Q) by (field; done).
      rewrite Hexp, Heq. field. }
    subst q dq. change 0%Q with (inject_Z 0) in Hq.
    apply (proj1 (inject_Z_injective _ _)) in Hq. lia.
  - intros ->. subst q dq. simpl. field. done.
Qed.

Section MapFilterSize.

Context {K : Type} `{Countable K} {A : Type}.
Variable P : K * A → Prop.
Context `{!∀ kv, Decision (P kv)}.

Lemma filter_size_full (t : gmap K A) :
  size (filter P t) = size t ↔ map_Forall (λ k v, P (k, v)) t.
Proof.
  split.
  - intros Hsize k v Hk.
    assert (Heq : filter P t = t).
    { apply map_subseteq_size_eq; [apply map_filter_subseteq | lia]. }
    rewrite <- Heq in Hk. by apply map_lookup_filter_Some in Hk as [_ Hp].
  - intros Hall. by rewrite map_filter_id.
Qed.

Lemma filter_size_none (t : gmap K A) :
  size (filter P t) = 0 ↔ map_Forall (λ k v, ¬ P (k, v)) t.
Proof.
  rewrite map_size_empty_iff. split.
  - intros Hempty k v Hk Hp.
    by apply (map_filter_empty_not_lookup P t k v Hempty Hp).
  - intros Hall. apply map_empty. intros k. apply map_lookup_filter_None.
    right. intros v Hk Hp. by eapply Hall.
Qed.

End MapFilterSize.

Section EvalModelExtremes.

Context {Vector Sim : Type}.
Variable simple_preprocess : string → list string.

(** X16. The printed same-document accuracy is 100 exactly when every entry of
    [top] stores the entry's own key as its first retrieved document, and 0
    exactly when no entry does; the same holds for the same-company accuracy
    and the [cik] of the key. *)
Theorem eval_model_extreme_accuracies (test train : Corpus)
    (model : Doc2Vec Vector Sim) (topn : nat) (r : EvalResult Sim) :
  eval_model simple_preprocess test train model topn = Some r →
  let t := top (returned r) in
  ((printed_same_document r == 100)%Q ↔ map_Forall (λ k v, v.1 = k) t) ∧
  ((printed_same_document r == 0)%Q ↔ map_Forall (λ k v, v.1 ≠ k) t) ∧
  ((printed_same_company r == 100)%Q ↔ map_Forall (λ k v, v.1.1.1 = k.1.1) t) ∧
  ((printed_same_company r == 0)%Q ↔ map_Forall (λ k v, v.1.1.1 ≠ k.1.1) t).
Proof.
  intros Hrun t. subst t. unfold eval_model in Hrun.
  destruct (eval_loop _ _ _ _ _ _ _) as [st|]; [|done]. simpl in Hrun.
  destruct (percentage (count_same_document _) _) as [p1|] eqn:Hp1; [|done].
  simpl in Hrun.
  destruct (percentage (count_same_company _) _) as [p2|] eqn:Hp2; [|done].
  simpl in Hrun. injection Hrun as <-. simpl.
  rewrite count_same_document_size in Hp1. rewrite count_same_company_size in Hp2.
  apply percentage_extremes in Hp1 as [H100 H0]; [|apply filter_size_le].
  apply percentage_extremes in Hp2 as [H100' H0']; [|apply filter_size_le].
  rewrite H100, H0, H100', H0'.
  split; [apply (filter_size_full (λ kv : _ * (_ * Sim), kv.2.1 = kv.1))|].
  split; [apply (filter_size_none (λ kv : _ * (_ * Sim), kv.2.1 = kv.1))|].
  split; [apply (filter_size_full (λ kv : _ * (_ * Sim), kv.2.1.1.1 = kv.1.1.1))|].
  apply (filter_size_none (λ kv : _ * (_ * Sim), kv.2.1.1.1 = kv.1.1.1)).
Qed.

End EvalModelExtremes.

Lemma eval_model_extreme_accuracies_witness :
  ∃ r, eval_model String.words (Demo.corpus Demo.train_table)
                  (Demo.corpus Demo.train_table) Demo.model 10 = Some r ∧
       ((printed_same_document r == 100)%Q
        ↔ map_Forall (λ k v, v.1 = k) (top (returned r))) ∧
       ((printed_same_company r == 0)%Q
        ↔ map_Forall (λ k v, v.1.1.1 ≠ k.1.1) (top (returned r))).
Proof.
  destruct (eval_model String.words (Demo.corpus Demo.train_table)
              (Demo.corpus Demo.train_table) Demo.model 10) as [r|] eqn:Hrun;
    [|vm_compute in Hrun; discriminate Hrun].
  exists r. split; [reflexivity|].
  destruct (eval_model_extreme_accuracies String.words
              (Demo.corpus Demo.train_table) (Demo.corpus Demo.train_table)
              Demo.model 10 r Hrun) as (H100 & _ & _ & H0).
  split; [exact H100 | exact H0].
Defined.

(** ** Texts that are cleaned to the empty string *)

Lemma join_empty (sep : string) (parts : list string) :
  Forall (λ s, s ≠ "") parts → join sep parts = "" → parts = [].
Proof.
  intros Hall Hjoin. destruct Hall as [|s rest Hs Hrest]; [done|]. exfalso.
  destruct rest as [|s' rest]; simpl in Hjoin; [done|].
  destruct s; [done|]. discriminate Hjoin.
Qed.

(** X17. A text is cleaned to the empty string when spaCy finds no token in it
    that passes the filter; when no alphabetic token has an empty text, that is
    the only case. *)
Theorem clean_text_empty_iff (nlp : string → Doc) (text : string) :
  Forall (λ token, is_alpha token = true → Spacy.text token ≠ "")
         (concat (nlp text)) →
  clean_text nlp text = "" ↔ Forall (λ token, keep_token token = false)
                                    (concat (nlp text)).
Proof.
  intros Halpha. rewrite clean_text_join, retained_tokens_filter.
  assert (Hkept : Forall (λ s, s ≠ "")
                    (Spacy.text <$> filter (λ t, keep_token t = true)
                                           (concat (nlp text)))).
  { apply Forall_fmap, Forall_forall. intros token [Hkeep Hin]%list_elem_of_filter.
    rewrite Forall_forall in Halpha. apply (Halpha token Hin).
    unfold keep_token, any in Hkeep. simpl in Hkeep.
    destruct (is_stop token), (is_digit token), (is_alpha token); done. }
  split.
  - intros Hjoin. apply join_empty in Hjoin; [|done].
    apply fmap_nil_inv in Hjoin. apply Forall_forall. intros token Hin.
    destruct (keep_token token) eqn:Hkeep; [|done].
    assert (Hmem : token ∈ filter (λ t, keep_token t = true) (concat (nlp text)))
      by by apply list_elem_of_filter.
    rewrite Hjoin in Hmem. by apply elem_of_nil in Hmem.
  - intros Hnone.
    assert (Hnil : filter (λ t, keep_token t = true) (concat (nlp text)) = []).
    { clear Halpha Hkept. induction Hnone as [|token rest Hf _ IH]; [done|].
      rewrite filter_cons_False by (by rewrite Hf). exact IH. }
    by rewrite Hnil.
Qed.

Lemma clean_text_empty_iff_witness :
  clean_text Demo.nlp "the 10 ." = "" ∧
  clean_text Demo.nlp "the bank holds 10 branches ." ≠ "".
Proof.
  split.
  - apply (clean_text_empty_iff Demo.nlp "the 10 .").
    + apply (bool_decide_unpack _). vm_compute. exact I.
    + repeat constructor.
  - intros Hempty.
    apply (clean_text_empty_iff Demo.nlp "the bank holds 10 branches .") in Hempty.
    + apply (Forall_lookup_1 _ _ 1 (Demo.token_of "bank")) in Hempty.
      * vm_compute in Hempty. discriminate Hempty.
      * vm_compute. reflexivity.
    + apply (bool_decide_unpack _). vm_compute. exact I.
Defined.
